(** * spruce-project: VCS detection and reST documentation generator

    A shallow embedding of [spruce/project/vcs.py] and of
    [spruce/project/scripts/doc_gen_rest.py], with the properties of the
    project's specification stated and proved (or refuted) over it.

    Layout:
    - [PyStr]: the Python 2 string operations the code calls;
    - [PosixPath]: the functions of [os.path] (CPython's [posixpath]) used;
    - [Vcs]: [git_topdir], [guess_vcs], [svn_last_changed_revision];
    - [DocGen]: the doc-spec tree and the renderer, as pure functions of the
      introspection data;
    - [Memo]: the doc-spec objects with their caches, as a heap of objects
      threaded through a state-and-exception monad. *)

From Stdlib Require Import Ascii ZArith Lia.
From stdpp Require Import base list strings gmap.

Local Open Scope stdpp_scope.

(** ** Outcomes of running Python code *)

(** The exception classes that the two modules raise or handle. *)
Inductive exn : Type :=
  | Error (message : string)
  | IncompatibleVcsError (message : string)
  | CriticalError (message : string)
  | ValueError
  | IndexError
  | AssertionError
  | IOError
  | ImportError
  | AttributeError
  | InvalidObject
  | InconsistentStructure
  | OtherException.

(** A call returns a value, raises, or is still running when the fuel given
    to its loops is used up. *)
Inductive outcome (A : Type) : Type :=
  | Returns (a : A)
  | Raises (e : exn)
  | Timeout.
Arguments Returns {A} a.
Arguments Raises {A} e.
Arguments Timeout {A}.

(** What a call into a library gives back: a value or an exception. *)
Inductive result (A : Type) : Type :=
  | Ok (a : A)
  | Fail (e : exn).
Arguments Ok {A} a.
Arguments Fail {A} e.

Definition of_result {A} (r : result A) : outcome A :=
  match r with
  | Ok a => Returns a
  | Fail e => Raises e
  end.

Definition rbind {A B} (r : result A) (k : A -> result B) : result B :=
  match r with
  | Ok a => k a
  | Fail e => Fail e
  end.

Definition obind {A B} (o : outcome A) (k : A -> outcome B) : outcome B :=
  match o with
  | Returns a => k a
  | Raises e => Raises e
  | Timeout => Timeout
  end.

(** ** Python 2 byte strings *)
Module PyStr.

Definition slash : ascii := "/"%char.
Definition newline : ascii := ascii_of_nat 10.
Definition squote : ascii := ascii_of_nat 39.
Definition dquote : ascii := ascii_of_nat 34.
Definition backslash : ascii := ascii_of_nat 92.

Definition ascii_eqb (a b : ascii) : bool := Ascii.eqb a b.
Definition str_eqb (a b : string) : bool := String.eqb a b.

(** [s.startswith(p)] *)
Definition startswith (s p : string) : bool := String.prefix p s.

(** [c in s] for a character. *)
Fixpoint has_char (c : ascii) (s : string) : bool :=
  match s with
  | EmptyString => false
  | String d r => ascii_eqb c d || has_char c r
  end.

(** [s.endswith(c)] for a one-character [c]. *)
Fixpoint endswith_char (s : string) (c : ascii) : bool :=
  match s with
  | EmptyString => false
  | String d EmptyString => ascii_eqb d c
  | String _ r => endswith_char r c
  end.

(** [p in s] for strings: some suffix of [s] starts with [p]. *)
Fixpoint contains (s p : string) : bool :=
  startswith s p ||
  match s with
  | EmptyString => false
  | String _ r => contains r p
  end.

(** [c * n] for a one-character string [c]. *)
Fixpoint repeat_char (c : ascii) (n : nat) : string :=
  match n with
  | 0 => EmptyString
  | S k => String c (repeat_char c k)
  end.

(** [s == c * len(s)] *)
Fixpoint all_char (c : ascii) (s : string) : bool :=
  match s with
  | EmptyString => true
  | String d r => ascii_eqb d c && all_char c r
  end.

(** [s.split(sep)] for a one-character separator: never the empty list. *)
Fixpoint split_on (sep : ascii) (s : string) : list string :=
  match s with
  | EmptyString => [EmptyString]
  | String c r =>
      if ascii_eqb c sep then EmptyString :: split_on sep r
      else match split_on sep r with
           | [] => [String c EmptyString]
           | x :: xs => String c x :: xs
           end
  end.

(** [sep.join(l)] *)
Fixpoint join (sep : string) (l : list string) : string :=
  match l with
  | [] => EmptyString
  | [x] => x
  | x :: xs => x +:+ sep +:+ join sep xs
  end.

(** [s.rstrip(c)] for a one-character [c]. *)
Fixpoint rstrip_char (c : ascii) (s : string) : string :=
  match s with
  | EmptyString => EmptyString
  | String d r =>
      match rstrip_char c r with
      | EmptyString => if ascii_eqb d c then EmptyString else String d EmptyString
      | r' => String d r'
      end
  end.

(** [s.replace(c, t)] for a one-character [c]. *)
Fixpoint replace_char (c : ascii) (t : string) (s : string) : string :=
  match s with
  | EmptyString => EmptyString
  | String d r =>
      (if ascii_eqb d c then t else String d EmptyString) +:+ replace_char c t r
  end.

(** The characters that [str.strip()] and [str.split()] treat as blank:
    space, tab, line feed, vertical tab, form feed, carriage return. *)
Definition is_space (c : ascii) : bool :=
  let n := nat_of_ascii c in
  Nat.eqb n 32 || (Nat.leb 9 n && Nat.leb n 13).

Definition is_digit (c : ascii) : bool :=
  let n := nat_of_ascii c in
  Nat.leb 48 n && Nat.leb n 57.

Fixpoint lstrip (s : string) : string :=
  match s with
  | EmptyString => EmptyString
  | String c r => if is_space c then lstrip r else s
  end.

Fixpoint rstrip (s : string) : string :=
  match s with
  | EmptyString => EmptyString
  | String c r =>
      match rstrip r with
      | EmptyString => if is_space c then EmptyString else String c EmptyString
      | r' => String c r'
      end
  end.

(** [s.strip()] *)
Definition strip (s : string) : string := rstrip (lstrip s).

(** [s.split()] with no separator: the maximal runs of non-blank characters.
    [cur] is the run being read, kept reversed. *)
Fixpoint words_from (cur : list ascii) (s : string) : list string :=
  let flush :=
    match cur with
    | [] => []
    | _ => [String.string_of_list_ascii (rev cur)]
    end in
  match s with
  | EmptyString => flush
  | String c r =>
      if is_space c then flush ++ words_from [] r
      else words_from (c :: cur) r
  end.

Definition words (s : string) : list string := words_from [] s.

(** [s[1:]] *)
Definition drop_first (s : string) : string :=
  match s with
  | EmptyString => EmptyString
  | String _ r => r
  end.

(** [s[n:]] *)
Fixpoint drop_chars (n : nat) (s : string) : string :=
  match n, s with
  | S k, String _ r => drop_chars k r
  | _, _ => s
  end.

(** [x in l] for a list of strings. *)
Definition str_in (x : string) (l : list string) : bool := existsb (str_eqb x) l.

(** [s.lower()] in the C locale. *)
Definition lower_char (c : ascii) : ascii :=
  let n := nat_of_ascii c in
  if Nat.leb 65 n && Nat.leb n 90 then ascii_of_nat (n + 32) else c.

Fixpoint lower (s : string) : string :=
  match s with
  | EmptyString => EmptyString
  | String c r => String (lower_char c) (lower r)
  end.

(** [a <= b] on byte strings. *)
Definition str_leb (a b : string) : bool := String.leb a b.

(** [l.sort(key=key)]: a stable sort, by insertion from the right. *)
Fixpoint insert_by {A} (key : A -> string) (x : A) (l : list A) : list A :=
  match l with
  | [] => [x]
  | y :: ys =>
      if str_leb (key x) (key y) then x :: l else y :: insert_by key x ys
  end.

Definition sort_by {A} (key : A -> string) (l : list A) : list A :=
  foldr (insert_by key) [] l.

(** The characters of [s] that satisfy [f], in order. *)
Fixpoint filter_chars (f : ascii -> bool) (s : string) : string :=
  match s with
  | EmptyString => EmptyString
  | String c r => if f c then String c (filter_chars f r) else filter_chars f r
  end.

Fixpoint digits_value (acc : Z) (s : string) : option Z :=
  match s with
  | EmptyString => Some acc
  | String c r =>
      if is_digit c
      then digits_value (10 * acc + Z.of_nat (nat_of_ascii c - 48)) r
      else None
  end.

(** [int(s)] on a byte string, base 10: blanks around the literal are
    dropped, one sign is allowed, then at least one digit and nothing else.
    [None] stands for [ValueError]. *)
Definition py_int (s : string) : option Z :=
  match strip s with
  | EmptyString => None
  | String c r =>
      if ascii_eqb c "-"%char then
        match r with
        | EmptyString => None
        | _ => Z.opp <$> digits_value 0 r
        end
      else if ascii_eqb c "+"%char then
        match r with
        | EmptyString => None
        | _ => digits_value 0 r
        end
      else digits_value 0 (String c r)
  end.

Definition hex_digit (n : nat) : ascii :=
  ascii_of_nat (if Nat.ltb n 10 then 48 + n else 87 + n).

(** One character of [repr(s)] inside the quote character [q]. *)
Definition repr_char (q : ascii) (c : ascii) : string :=
  let n := nat_of_ascii c in
  if ascii_eqb c q || ascii_eqb c backslash then String backslash (String c EmptyString)
  else if Nat.eqb n 9 then String backslash "t"
  else if Nat.eqb n 10 then String backslash "n"
  else if Nat.eqb n 13 then String backslash "r"
  else if Nat.ltb n 32 || Nat.leb 127 n
  then String backslash
         (String "x"%char (String (hex_digit (n / 16)) (String (hex_digit (n mod 16)) EmptyString)))
  else String c EmptyString.

Fixpoint repr_body (q : ascii) (s : string) : string :=
  match s with
  | EmptyString => EmptyString
  | String c r => repr_char q c +:+ repr_body q r
  end.

(** [repr(s)] of a byte string: single quotes, unless the string has a
    single quote and no double quote. *)
Definition py_repr (s : string) : string :=
  let q := if has_char squote s && negb (has_char dquote s) then dquote else squote in
  String q (repr_body q s) +:+ String q EmptyString.

(** The lines of a text as a line-oriented filter reads them: the pieces
    between line feeds, without a last empty piece. *)
Definition lines (s : string) : list string :=
  match rev (split_on newline s) with
  | EmptyString :: rest => rev rest
  | _ => split_on newline s
  end.

(** The text a line-oriented filter writes: every line ended by a line feed. *)
Fixpoint unlines (l : list string) : string :=
  match l with
  | [] => EmptyString
  | x :: xs => x +:+ String newline EmptyString +:+ unlines xs
  end.

End PyStr.

(** ** [os.path] on a POSIX system *)
Module PosixPath.
Import PyStr.

(** [isabs(s)] *)
Definition isabs (s : string) : bool := startswith s "/".

(** [join(a, b)]: an absolute [b] replaces [a]. *)
Definition join (a b : string) : string :=
  if startswith b "/" then b
  else if str_eqb a "" || endswith_char a slash then a +:+ b
  else a +:+ "/" +:+ b.

(** [p[:i], p[i:]] for [i = p.rfind('/') + 1]. *)
Fixpoint split_last (p : string) : string * string :=
  match p with
  | EmptyString => (EmptyString, EmptyString)
  | String c r =>
      match split_last r with
      | (EmptyString, _) =>
          if ascii_eqb c slash then (String c EmptyString, r)
          else (EmptyString, String c r)
      | (h, t) => (String c h, t)
      end
  end.

(** [split(p)]: the head loses its trailing slashes unless it is made of
    slashes only. *)
Definition split (p : string) : string * string :=
  let '(head, tail) := split_last p in
  (if negb (str_eqb head "") && negb (all_char slash head)
   then rstrip_char slash head else head,
   tail).

(** One or two leading slashes are kept, three or more count as one. *)
Definition initial_slashes (path : string) : nat :=
  if startswith path "/" then
    if startswith path "//" && negb (startswith path "///") then 2 else 1
  else 0.

(** One turn of the loop of [normpath]; [new_comps] is kept reversed, so
    that its head is [new_comps[-1]]. *)
Definition norm_step (slashes : nat) (new_comps : list string) (comp : string)
  : list string :=
  if str_eqb comp "" || str_eqb comp "." then new_comps
  else if negb (str_eqb comp "..")
          || (Nat.eqb slashes 0 && match new_comps with [] => true | _ => false end)
          || match new_comps with x :: _ => str_eqb x ".." | [] => false end
  then comp :: new_comps
  else match new_comps with
       | [] => []
       | _ :: rest => rest
       end.

Definition norm_comps (slashes : nat) (path : string) : list string :=
  rev (fold_left (norm_step slashes) (split_on slash path) []).

(** [normpath(path)] *)
Definition normpath (path : string) : string :=
  if str_eqb path "" then "."
  else
    let slashes := initial_slashes path in
    let p := PyStr.join "/" (norm_comps slashes path) in
    let p := repeat_char slash slashes +:+ p in
    if str_eqb p "" then "." else p.

(** [abspath(path)], in a process whose working directory is [cwd]. *)
Definition abspath (cwd path : string) : string :=
  normpath (if isabs path then path else join cwd path).

(** [commonprefix([a, b])] on lists of components. *)
Fixpoint commonprefix (a b : list string) : list string :=
  match a, b with
  | x :: a', y :: b' => if str_eqb x y then x :: commonprefix a' b' else []
  | _, _ => []
  end.

Definition nonempty_parts (p : string) : list string :=
  List.filter (fun x => negb (str_eqb x "")) (split_on slash p).

(** [relpath(path, start)] *)
Definition relpath (cwd path start : string) : outcome string :=
  if str_eqb path "" then Raises ValueError
  else
    let start_list := nonempty_parts (abspath cwd start) in
    let path_list := nonempty_parts (abspath cwd path) in
    let i := length (commonprefix start_list path_list) in
    let rel_list := replicate (length start_list - i) ".." ++ drop i path_list in
    match rel_list with
    | [] => Returns "."
    | a :: p => Returns (fold_left join p a)
    end.

(** A path that starts with one slash and not with two: what [abspath]
    returns for every argument that does not begin with exactly two
    slashes. *)
Definition single_root (p : string) : bool :=
  match p with
  | String c EmptyString => ascii_eqb c slash
  | String c (String d _) => ascii_eqb c slash && negb (ascii_eqb d slash)
  | EmptyString => false
  end.

(** The paths that the loop of [git_topdir] tests, in order, when it is
    given [n] turns from [testpath] and finds no [.git] on its way. *)
Fixpoint ancestry (n : nat) (testpath : string) : list string :=
  match n with
  | 0 => []
  | S n' =>
      testpath ::
        (if str_eqb testpath "/" then [] else ancestry n' (fst (split testpath)))
  end.

End PosixPath.

(** ** [spruce/project/vcs.py] *)
Module Vcs.
Import PyStr.

(** [pipes.quote(file)] *)
Definition safechar (c : ascii) : bool :=
  let n := nat_of_ascii c in
  (Nat.leb 97 n && Nat.leb n 122) || (Nat.leb 65 n && Nat.leb n 90)
  || is_digit c || has_char c "@%_-+=:,./".

Definition shquote (file : string) : string :=
  if str_eqb (filter_chars (fun c => negb (safechar c)) file) "" then
    if str_eqb file "" then "''" else file
  else
    let q := String squote EmptyString in
    let dq := String dquote EmptyString in
    q +:+ replace_char squote (q +:+ dq +:+ q +:+ dq +:+ q) file +:+ q.

(** [vcs in systems], for [vcs] a string or [None]. *)
Definition vcs_in (vcs : option string) (systems : list string) : bool :=
  match vcs with
  | Some v => existsb (str_eqb v) systems
  | None => false
  end.

(** [IncompatibleVcsError(vcs, compatible_systems)]: the exception object
    keeps its two arguments in its message. *)
Definition incompatible_vcs_error (vcs : option string)
    (compatible_systems : list string) : exn :=
  let compatible_systems_str := PyStr.join ", " compatible_systems in
  IncompatibleVcsError
    match vcs with
    | None =>
        "no VCS found; compatible systems are [" +:+ compatible_systems_str +:+ "]"
    | Some v =>
        "incompatible VCS " +:+ py_repr v +:+ "; compatible systems are ["
          +:+ compatible_systems_str +:+ "]"
    end.

Definition SYSTEMS : list string := ["git"; "git-svn"; "svn"].

Definition SUPPORTED_SYSTEMS : list string := ["svn"; "git-svn"].

(** [vcs_name(vcs)]; a key that is not in the dictionary raises [KeyError]. *)
Definition vcs_name (vcs : string) : outcome string :=
  if str_eqb vcs "git" then Returns "Git"
  else if str_eqb vcs "git-svn" then Returns "git-svn"
  else if str_eqb vcs "svn" then Returns "Subversion"
  else Raises OtherException.

Section Environment.

(** The process's working directory, [os.path.isdir] on the file system
    the process sees, and the standard output of a command started with
    the given arguments. *)
Variable cwd : string.
Variable isdir : string -> bool.
Variable stdout_of : list string -> string.

(** The [while True] loop of [git_topdir], one turn per unit of fuel. *)
Fixpoint git_topdir_loop (fuel : nat) (testpath : string)
  : outcome (option string) :=
  match fuel with
  | 0 => Timeout
  | S fuel' =>
      if isdir (PosixPath.join testpath ".git") then Returns (Some testpath)
      else if str_eqb testpath "/" then Returns None
      else git_topdir_loop fuel' (fst (PosixPath.split testpath))
  end.

Definition git_topdir (fuel : nat) (project_path : string)
  : outcome (option string) :=
  git_topdir_loop fuel (PosixPath.abspath cwd project_path).

Definition guess_vcs (fuel : nat) (project_path : string)
  : outcome (option string) :=
  if isdir (project_path +:+ "/.svn") then Returns (Some "svn")
  else
    obind (git_topdir fuel project_path) (fun project_git_topdir =>
      match project_git_topdir with
      | Some topdir =>
          if isdir (topdir +:+ "/.git/svn") then Returns (Some "git-svn")
          else Returns (Some "git")
      | None => Returns None
      end).

(** [svn info | grep 'Last Changed Rev' | sed 's/[^0-9]//g']: the lines
    of the first command's output that contain the pattern, with every
    character that is not a digit removed. *)
Definition last_changed_rev_filter (info_output : string) : string :=
  unlines
    (map (filter_chars is_digit)
         (List.filter (fun l => contains l "Last Changed Rev") (lines info_output))).

(** The text from which [svn_last_changed_revision] reads the revision,
    with the command it came from: the filtered [info] output, or, when
    that is blank, the second word of the first log entry without its
    first character. *)
Definition revision_token (svn_cmdargs : list string)
  : outcome (string * list string) :=
  let cmdargs := svn_cmdargs ++ ["info"] in
  let proc_output := last_changed_rev_filter (stdout_of cmdargs) in
  let revision_str := strip proc_output in
  if str_eqb revision_str "" then
    let cmdargs := svn_cmdargs ++ ["log"; "--incremental"; "--limit"; "1"] in
    let proc_output := stdout_of cmdargs in
    match words proc_output with
    | _ :: w :: _ => Returns (drop_first w, cmdargs)
    | _ => Raises IndexError
    end
  else Returns (revision_str, cmdargs).

Definition invalid_revision_error (revision_str : string) (cmdargs : list string)
  : exn :=
  Error ("invalid Subversion revision " +:+ py_repr revision_str +:+ " from `"
           +:+ PyStr.join " " (map shquote cmdargs) +:+ "`").

Definition svn_last_changed_revision (fuel : nat) (project_path : string)
  : outcome Z :=
  obind (guess_vcs fuel project_path) (fun vcs =>
    if negb (vcs_in vcs SUPPORTED_SYSTEMS)
    then Raises (incompatible_vcs_error vcs SUPPORTED_SYSTEMS)
    else
      obind
        (if vcs_in vcs ["svn"] then Returns ["svn"]
         else if vcs_in vcs ["git-svn"] then Returns ["git"; "svn"]
         else Raises AssertionError)
        (fun svn_cmdargs =>
           obind (revision_token svn_cmdargs) (fun '(revision_str, cmdargs) =>
             match py_int revision_str with
             | Some revision => Returns revision
             | None => Raises (invalid_revision_error revision_str cmdargs)
             end))).

End Environment.

End Vcs.

(** ** What [spruce.introspect] reports

    [spruce.introspect] is a library of its own; the generator only reads
    the values below from the module objects that the library hands out. *)
Module Introspect.

Inductive Metatype : Type :=
  | OLDSTYLE | FUNCTION | CLASS | EXCEPTION | MODULE | UNKNOWN.

(** [module.attr(name)]: its [metatype] (or the exception that reading it
    raises), whether [module_path_isstandard(attr.name)] holds, and whether
    [module_from_object(attr).pyobject()] imports. *)
Record Attr : Type := mkAttr {
  metatype : result Metatype;
  path_isstandard : bool;
  importable : bool
}.

(** The three ways [module_intree(path, fallback_outoftree=True)] ends. *)
Inductive intree (M : Type) : Type :=
  | Found (m : M)
  | NotFound
  | ImportFailed.
Arguments Found {M} m.
Arguments NotFound {M}.
Arguments ImportFailed {M}.

#[local] Set Warnings "-register-all".

(** A module object.  [submodules] is [submodules(include_packages=True)]
    and [included_modules_paths] is [included_modules_paths(toabs=True)]. *)
Inductive Module : Type := mkModule {
  path : string;
  name : string;
  ispackage : bool;
  isprivate : bool;
  isstandard : bool;
  docstring : result string;
  shortdoc : result string;
  attrnames : result (list string);
  attr : string -> Attr;
  included_modules_paths : result (list string);
  module_intree : string -> intree Module;
  submodules : list Module
}.

(** The longest chain of submodules below a module. *)
Fixpoint height (m : Module) : nat :=
  match m with
  | mkModule _ _ _ _ _ _ _ _ _ _ _ subs =>
      S (foldr (fun sub acc => Nat.max (height sub) acc) 0 subs)
  end.

End Introspect.

(** ** The documentation tree as a function of the introspection data

    What the doc-spec properties compute when no cache is involved, for a
    module doc-spec of module [m] whose ancestors include the module paths
    [inherited].  The properties of [DocGen] are shown to return these
    values whatever caches are filled. *)
Module DocTree.
Import PyStr.

(** The test of the list comprehension in [children]. *)
Definition kept (own inherited : list string) (sub : Introspect.Module) : bool :=
  negb (str_in (Introspect.path sub) own)
  && negb (str_in (Introspect.path sub) inherited).

(** The list comprehension of [children] over the submodules [subs]: the
    module's own included paths are read for the first submodule. *)
Definition children_of (m : Introspect.Module) (inherited : list string)
    (subs : list Introspect.Module) : result (list Introspect.Module) :=
  match subs with
  | [] => Ok []
  | _ =>
      rbind (Introspect.included_modules_paths m) (fun own =>
        Ok (List.filter (kept own inherited) subs))
  end.

Definition children (m : Introspect.Module) (inherited : list string)
  : result (list Introspect.Module) :=
  if Introspect.ispackage m
  then children_of m inherited (Introspect.submodules m)
  else Ok [].

Definition resolved (m : Introspect.Module) (paths : list string)
  : list Introspect.Module :=
  flat_map (fun p =>
              match Introspect.module_intree m p with
              | Introspect.Found x => [x]
              | _ => []
              end)
           paths.

Definition included (m : Introspect.Module) : result (list Introspect.Module) :=
  rbind (Introspect.included_modules_paths m) (fun paths => Ok (resolved m paths)).

Definition catch_IOError {A} (r : result A) (fallback : A) : result A :=
  match r with
  | Fail IOError => Ok fallback
  | _ => r
  end.

(** The loop of [descendants_included_modules_docspecs] over the submodules
    that [children] keeps, with [below] for the property of a child. *)
Fixpoint descendants_included_over
    (below : Introspect.Module -> result (list Introspect.Module))
    (own inherited : list string) (subs : list Introspect.Module)
  : result (list Introspect.Module) :=
  match subs with
  | [] => Ok []
  | sub :: rest =>
      if kept own inherited sub then
        rbind (catch_IOError (included sub) []) (fun a =>
        rbind (below sub) (fun b =>
        rbind (descendants_included_over below own inherited rest) (fun c =>
          Ok ((a ++ b) ++ c))))
      else descendants_included_over below own inherited rest
  end.

Fixpoint descendants_included (m : Introspect.Module) (inherited : list string)
  {struct m} : result (list Introspect.Module) :=
  match m with
  | Introspect.mkModule _ _ ispackage _ _ _ _ _ _ included_paths _ submodules =>
      if ispackage then
        match submodules with
        | [] => Ok []
        | _ =>
            rbind included_paths (fun own =>
              descendants_included_over
                (fun sub => descendants_included sub (own ++ inherited))
                own inherited submodules)
        end
      else Ok []
  end.

(** The same loop over the children [cs] themselves. *)
Fixpoint descendants_included_of
    (below : Introspect.Module -> result (list Introspect.Module))
    (cs : list Introspect.Module) : result (list Introspect.Module) :=
  match cs with
  | [] => Ok []
  | child :: rest =>
      rbind (catch_IOError (included child) []) (fun a =>
      rbind (below child) (fun b =>
      rbind (descendants_included_of below rest) (fun c => Ok ((a ++ b) ++ c))))
  end.

(** The included paths of a module, none when reading them fails. *)
Definition own_or_nil (m : Introspect.Module) : list string :=
  match Introspect.included_modules_paths m with
  | Ok own => own
  | Fail _ => []
  end.

(** The loop over the included modules' attribute names. *)
Fixpoint defined_in (attrname : string) (l : list Introspect.Module) : result bool :=
  match l with
  | [] => Ok false
  | x :: xs =>
      match Introspect.attrnames x with
      | Ok names => if str_in attrname names then Ok true else defined_in attrname xs
      | Fail AttributeError | Fail ImportError | Fail InvalidObject =>
          defined_in attrname xs
      | Fail e => Fail e
      end
  end.

Definition named (attrname : string) (l : list Introspect.Module) : bool :=
  existsb (fun x => str_eqb attrname (Introspect.name x)) l.

Definition should_doc_module_attr (builtins : list string) (m : Introspect.Module)
    (inherited : list string) (attrname : string) (module_isincluded : bool)
  : result bool :=
  if str_in attrname builtins then Ok false
  else if startswith attrname "_" then Ok false
  else if str_eqb attrname "extension" then Ok false
  else
    rbind
      (catch_IOError
         (rbind (included m) (fun a =>
          rbind (descendants_included m inherited) (fun b => Ok (Some (a, b)))))
         None)
      (fun found =>
         rbind
           match found with
           | None => Ok false
           | Some (a, b) =>
               if named attrname a then Ok true else defined_in attrname (a ++ b)
           end
           (fun skipped =>
              if skipped then Ok false
              else if negb module_isincluded then
                rbind (children m inherited) (fun cs => Ok (negb (named attrname cs)))
              else Ok true)).

End DocTree.

(** ** [spruce/project/scripts/doc_gen_rest.py]

    Doc-spec objects live in a heap and are named by their index in it.
    Every property that the code caches in an attribute is a function that
    reads and fills the corresponding field of the object. *)
Module DocGen.
Import PyStr.

(** What a doc-spec object is built from: for a project, the [project]
    entry of its Sphinx settings ([None] when there is no [conf.py]), its
    normalised directory, its source directory names and its excluded module
    names; for a module, the module that [module_from_filepath] loads from
    its [src_filepath]. *)
Inductive kind : Type :=
  | Project (sphinx_project : option string) (src_filepath : string)
      (src_dirnames : list string) (excluded_modules_names : list string)
  | Mod (module : Introspect.Module).

Record Obj : Type := mkObj {
  obj_kind : kind;
  _out_dirpath : string;
  _parent : option nat;
  _skip : bool;
  _children : option (list nat);
  _included_modules_paths : option (list string);
  _ancestor_included_modulepaths_ : option (list string);
  _descendants_included_modules_docspecs : option (list nat);
  _descendants : option (list nat);
  _root : option nat;
  _docstring : option string;
  _interesting_descendants : option (list nat);
  _top_interesting_descendants : option (list nat)
}.

Abbreviation heap := (list Obj).

Definition set_kind (v : kind) (o : Obj) : Obj :=
  mkObj v (_out_dirpath o) (_parent o) (_skip o) (_children o)
    (_included_modules_paths o) (_ancestor_included_modulepaths_ o)
    (_descendants_included_modules_docspecs o) (_descendants o) (_root o)
    (_docstring o) (_interesting_descendants o) (_top_interesting_descendants o).

Definition set_skip (v : bool) (o : Obj) : Obj :=
  mkObj (obj_kind o) (_out_dirpath o) (_parent o) v (_children o)
    (_included_modules_paths o) (_ancestor_included_modulepaths_ o)
    (_descendants_included_modules_docspecs o) (_descendants o) (_root o)
    (_docstring o) (_interesting_descendants o) (_top_interesting_descendants o).

Definition set_children (v : option (list nat)) (o : Obj) : Obj :=
  mkObj (obj_kind o) (_out_dirpath o) (_parent o) (_skip o) v
    (_included_modules_paths o) (_ancestor_included_modulepaths_ o)
    (_descendants_included_modules_docspecs o) (_descendants o) (_root o)
    (_docstring o) (_interesting_descendants o) (_top_interesting_descendants o).

Definition set_included_modules_paths (v : option (list string)) (o : Obj) : Obj :=
  mkObj (obj_kind o) (_out_dirpath o) (_parent o) (_skip o) (_children o) v
    (_ancestor_included_modulepaths_ o) (_descendants_included_modules_docspecs o)
    (_descendants o) (_root o) (_docstring o) (_interesting_descendants o)
    (_top_interesting_descendants o).

Definition set_ancestor_included_modulepaths (v : option (list string)) (o : Obj) : Obj :=
  mkObj (obj_kind o) (_out_dirpath o) (_parent o) (_skip o) (_children o)
    (_included_modules_paths o) v (_descendants_included_modules_docspecs o)
    (_descendants o) (_root o) (_docstring o) (_interesting_descendants o)
    (_top_interesting_descendants o).

Definition set_descendants_included_modules_docspecs (v : option (list nat)) (o : Obj) : Obj :=
  mkObj (obj_kind o) (_out_dirpath o) (_parent o) (_skip o) (_children o)
    (_included_modules_paths o) (_ancestor_included_modulepaths_ o) v
    (_descendants o) (_root o) (_docstring o) (_interesting_descendants o)
    (_top_interesting_descendants o).

Definition set_descendants (v : option (list nat)) (o : Obj) : Obj :=
  mkObj (obj_kind o) (_out_dirpath o) (_parent o) (_skip o) (_children o)
    (_included_modules_paths o) (_ancestor_included_modulepaths_ o)
    (_descendants_included_modules_docspecs o) v (_root o) (_docstring o)
    (_interesting_descendants o) (_top_interesting_descendants o).

Definition set_root (v : option nat) (o : Obj) : Obj :=
  mkObj (obj_kind o) (_out_dirpath o) (_parent o) (_skip o) (_children o)
    (_included_modules_paths o) (_ancestor_included_modulepaths_ o)
    (_descendants_included_modules_docspecs o) (_descendants o) v (_docstring o)
    (_interesting_descendants o) (_top_interesting_descendants o).

Definition set_docstring (v : option string) (o : Obj) : Obj :=
  mkObj (obj_kind o) (_out_dirpath o) (_parent o) (_skip o) (_children o)
    (_included_modules_paths o) (_ancestor_included_modulepaths_ o)
    (_descendants_included_modules_docspecs o) (_descendants o) (_root o) v
    (_interesting_descendants o) (_top_interesting_descendants o).

Definition set_interesting_descendants (v : option (list nat)) (o : Obj) : Obj :=
  mkObj (obj_kind o) (_out_dirpath o) (_parent o) (_skip o) (_children o)
    (_included_modules_paths o) (_ancestor_included_modulepaths_ o)
    (_descendants_included_modules_docspecs o) (_descendants o) (_root o)
    (_docstring o) v (_top_interesting_descendants o).

Definition set_top_interesting_descendants (v : option (list nat)) (o : Obj) : Obj :=
  mkObj (obj_kind o) (_out_dirpath o) (_parent o) (_skip o) (_children o)
    (_included_modules_paths o) (_ancestor_included_modulepaths_ o)
    (_descendants_included_modules_docspecs o) (_descendants o) (_root o)
    (_docstring o) (_interesting_descendants o) v.

(** *** The monad of heap-changing calls

    A change made to the heap before an exception is raised stays made. *)
Definition M (A : Type) : Type := heap -> outcome A * heap.

Definition ret {A} (a : A) : M A := fun h => (Returns a, h).
Definition raise {A} (e : exn) : M A := fun h => (Raises e, h).
Definition timeout {A} : M A := fun h => (Timeout, h).
Definition lift {A} (r : result A) : M A := fun h => (of_result r, h).

Definition bind {A B} (c : M A) (k : A -> M B) : M B :=
  fun h =>
    match c h with
    | (Returns a, h') => k a h'
    | (Raises e, h') => (Raises e, h')
    | (Timeout, h') => (Timeout, h')
    end.

(** [try: c  except <the exceptions that handler accepts>: ...] *)
Definition try_except {A} (c : M A) (handler : exn -> option (M A)) : M A :=
  fun h =>
    match c h with
    | (Raises e, h') =>
        match handler e with
        | Some k => k h'
        | None => (Raises e, h')
        end
    | r => r
    end.

Definition getobj (self : nat) : M Obj :=
  fun h =>
    match h !! self with
    | Some o => (Returns o, h)
    | None => (Raises OtherException, h)
    end.

Definition setobj (self : nat) (f : Obj -> Obj) : M unit :=
  fun h => (Returns tt, alter f self h).

Definition alloc (o : Obj) : M nat :=
  fun h => (Returns (length h), h ++ [o]).

Declare Scope docgen_scope.
Delimit Scope docgen_scope with docgen.
Notation "'let*' x ':=' c 'in' k" := (bind c (fun x => k))
  (at level 10, x pattern, c at level 100, k at level 200) : docgen_scope.
Local Open Scope docgen_scope.

(** [for x in l: body(x)], collecting what the bodies return. *)
Fixpoint mapM {A B} (body : A -> M B) (items : list A) : M (list B) :=
  match items with
  | [] => ret []
  | item :: others =>
      let* done := body item in
      let* rest := mapM body others in
      ret (done :: rest)
  end.

Section Generator.

(** The working directory of the process, [_introspect.top_modules(dirpath,
    include_packages=True, excluded_names=names)], [dir(__builtins__)] and
    [spruce.pprint.split_blocks]. *)
Variable cwd : string.
Variable top_modules : string -> list string -> list Introspect.Module.
Variable builtins : list string.
Variable split_blocks : string -> list string.

(** [_DocSpec.__init__]: every cache empty, [skip] unset. *)
Definition new_obj (k : kind) (out_parentdirpath : string) (parent : option nat) : Obj :=
  mkObj k (PosixPath.normpath out_parentdirpath) parent false
    None None None None None None None None None.

(** [_ModuleDocSpec(module.filepath, out_parentdirpath, parent=parent)]: the
    object is given the module that its [_module] property will load. *)
Definition ModuleDocSpec (module : Introspect.Module) (out_parentdirpath : string)
    (parent : nat) : M nat :=
  alloc (new_obj (Mod module) out_parentdirpath (Some parent)).

(** [_ProjectDocSpec(project_dirpath, out_parentdirpath, src_dirnames)] *)
Definition ProjectDocSpec (sphinx_project : option string)
    (project_dirpath out_parentdirpath : string) (src_dirnames : list string) : M nat :=
  alloc (new_obj (Project sphinx_project (PosixPath.normpath project_dirpath)
                    src_dirnames [])
           out_parentdirpath None).

Definition isproject (self : nat) : M bool :=
  let* o := getobj self in
  ret match obj_kind o with Project _ _ _ _ => true | Mod _ => false end.

Definition parent (self : nat) : M (option nat) :=
  let* o := getobj self in ret (_parent o).

Definition out_parentdirpath (self : nat) : M string :=
  let* o := getobj self in ret (_out_dirpath o).

Definition skip (self : nat) : M bool :=
  let* o := getobj self in ret (_skip o).

(** [self._module]; a project has no such attribute. *)
Definition _module (self : nat) : M Introspect.Module :=
  let* o := getobj self in
  match obj_kind o with
  | Mod m => ret m
  | Project _ _ _ _ => raise AttributeError
  end.

Definition name (self : nat) : M string :=
  let* o := getobj self in
  match obj_kind o with
  | Mod m => ret (Introspect.path m)
  | Project (Some project) _ _ _ => ret project
  | Project None _ _ _ =>
      raise (CriticalError
               ("no Sphinx config found at "
                  +:+ py_repr (PosixPath.join (_out_dirpath o) "conf.py")))
  end.

Definition shortname (self : nat) : M string :=
  let* o := getobj self in
  match obj_kind o with
  | Mod m => ret (Introspect.name m)
  | Project _ _ _ _ =>
      let* n := name self in
      let strippable_prefix := "spruce-" in
      if startswith n strippable_prefix
      then ret (drop_chars (String.length strippable_prefix) n)
      else ret n
  end.

Definition module_attrnames (self : nat) : M (list string) :=
  let* m := _module self in lift (Introspect.attrnames m).

Definition module_attr (self : nat) (attrname : string) : M Introspect.Attr :=
  let* m := _module self in ret (Introspect.attr m attrname).

Definition module_isprivate (self : nat) : M bool :=
  let* m := _module self in ret (Introspect.isprivate m).

Definition module_isstandard (self : nat) : M bool :=
  let* m := _module self in ret (Introspect.isstandard m).

Definition included_modules_paths (self : nat) : M (list string) :=
  let* o := getobj self in
  match obj_kind o with
  | Project _ _ _ _ => ret []
  | Mod m =>
      match _included_modules_paths o with
      | Some paths => ret paths
      | None =>
          let* paths := lift (Introspect.included_modules_paths m) in
          let* _ := setobj self (set_included_modules_paths (Some paths)) in
          ret paths
      end
  end.

(** The [while ancestor:] loop of [_ancestor_included_modulepaths]: each
    turn extends the list held by [self] in place. *)
Fixpoint ancestor_loop (fuel : nat) (self : nat) (ancestor : option nat) : M unit :=
  match ancestor with
  | None => ret tt
  | Some a =>
      match fuel with
      | 0 => timeout
      | S fuel' =>
          let* paths := included_modules_paths a in
          let* _ :=
            setobj self (fun o =>
              set_ancestor_included_modulepaths
                (Some (default [] (_ancestor_included_modulepaths_ o) ++ paths)) o) in
          let* next := parent a in
          ancestor_loop fuel' self next
      end
  end.

Definition _ancestor_included_modulepaths (fuel : nat) (self : nat) : M (list string) :=
  let* o := getobj self in
  match _ancestor_included_modulepaths_ o with
  | Some paths => ret paths
  | None =>
      let* _ := setobj self (set_ancestor_included_modulepaths (Some [])) in
      let* _ := ancestor_loop fuel self (_parent o) in
      let* o' := getobj self in
      ret (default [] (_ancestor_included_modulepaths_ o'))
  end.

(** The list comprehension of [_ModuleDocSpec.children]: the condition is
    evaluated for each submodule, the second test only when the first
    holds, and the doc-spec is built when both hold. *)
Fixpoint module_children_of (fuel : nat) (self : nat)
    (submodules : list Introspect.Module) : M (list nat) :=
  match submodules with
  | [] => ret []
  | module :: rest =>
      let* own := included_modules_paths self in
      let* keep :=
        if negb (str_in (Introspect.path module) own) then
          let* inherited := _ancestor_included_modulepaths fuel self in
          ret (negb (str_in (Introspect.path module) inherited))
        else ret false in
      if keep then
        let* out := out_parentdirpath self in
        let* short := shortname self in
        let* child := ModuleDocSpec module (PosixPath.join out short) self in
        let* others := module_children_of fuel self rest in
        ret (child :: others)
      else module_children_of fuel self rest
  end.

Definition children (fuel : nat) (self : nat) : M (list nat) :=
  let* o := getobj self in
  match _children o with
  | Some cs => ret cs
  | None =>
      let* cs :=
        match obj_kind o with
        | Mod m =>
            if Introspect.ispackage m
            then module_children_of fuel self (Introspect.submodules m)
            else ret []
        | Project _ src_filepath src_dirnames excluded_modules_names =>
            let src_dirpath dirname :=
              PosixPath.normpath (PosixPath.join src_filepath dirname) in
            mapM (fun module =>
                    let* out := out_parentdirpath self in
                    ModuleDocSpec module out self)
                 (concat (map (fun dirname =>
                                 top_modules (src_dirpath dirname) excluded_modules_names)
                              src_dirnames))
        end in
      let* _ := setobj self (set_children (Some cs)) in
      ret cs
  end.

(** The body of the generator [included_modules_docspecs], run to its end. *)
Fixpoint included_modules_docspecs_of (self : nat) (m : Introspect.Module)
    (paths : list string) : M (list nat) :=
  match paths with
  | [] => ret []
  | path :: rest =>
      match Introspect.module_intree m path with
      | Introspect.ImportFailed => included_modules_docspecs_of self m rest
      | Introspect.NotFound => included_modules_docspecs_of self m rest
      | Introspect.Found module =>
          let* out := out_parentdirpath self in
          let* docspec := ModuleDocSpec module out self in
          let* others := included_modules_docspecs_of self m rest in
          ret (docspec :: others)
      end
  end.

(** [list(self.included_modules_docspecs)] *)
Definition included_modules_docspecs (self : nat) : M (list nat) :=
  let* o := getobj self in
  match obj_kind o with
  | Project _ _ _ _ => ret []
  | Mod m =>
      let* paths := included_modules_paths self in
      included_modules_docspecs_of self m paths
  end.

Definition except_IOError {A} (fallback : M A) (e : exn) : option (M A) :=
  match e with
  | IOError => Some fallback
  | _ => None
  end.

Fixpoint descendants_included_modules_docspecs (fuel : nat) (self : nat)
  : M (list nat) :=
  match fuel with
  | 0 => timeout
  | S fuel' =>
      let* o := getobj self in
      match obj_kind o with
      | Project _ _ _ _ => raise AttributeError
      | Mod _ =>
          match _descendants_included_modules_docspecs o with
          | Some modules => ret modules
          | None =>
              let* cs := children fuel self in
              let* per_child :=
                mapM (fun child =>
                        let* included :=
                          try_except (included_modules_docspecs child)
                            (except_IOError (ret [])) in
                        let* below :=
                          descendants_included_modules_docspecs fuel' child in
                        ret (included ++ below))
                     cs in
              let modules := concat per_child in
              let* _ :=
                setobj self (set_descendants_included_modules_docspecs (Some modules)) in
              ret modules
          end
      end
  end.

Definition except_attrnames {A} (fallback : M A) (e : exn) : option (M A) :=
  match e with
  | AttributeError | ImportError | InvalidObject => Some fallback
  | _ => None
  end.

(** [any(test(x) for x in l)] *)
Fixpoint anyM {A} (test : A -> M bool) (l : list A) : M bool :=
  match l with
  | [] => ret false
  | x :: xs => let* b := test x in if b then ret true else anyM test xs
  end.

Definition _should_doc_module_attr (fuel : nat) (module_docspec : nat)
    (attrname : string) (module_isincluded : bool) : M bool :=
  let* module_path := name module_docspec in
  if str_in attrname builtins then ret false
  else if startswith attrname "_" then ret false
  else if str_eqb attrname "extension" then ret false
  else
    let* found :=
      try_except
        (let* included_modules_docspecs := included_modules_docspecs module_docspec in
         let* descendants_included_modules_docspecs :=
           descendants_included_modules_docspecs fuel module_docspec in
         ret (Some (included_modules_docspecs, descendants_included_modules_docspecs)))
        (except_IOError (ret None)) in
    let* skipped :=
      match found with
      | None => ret false
      | Some (included_modules_docspecs, descendants_included_modules_docspecs) =>
          let* is_included :=
            anyM (fun included_module_docspec =>
                    let* p := parent included_module_docspec in
                    if bool_decide (p = Some module_docspec) then
                      let* short := shortname included_module_docspec in
                      ret (str_eqb attrname short)
                    else ret false)
                 included_modules_docspecs in
          if is_included then ret true
          else
            anyM (fun included_module_docspec =>
                    let* names :=
                      try_except
                        (let* l := module_attrnames included_module_docspec in
                         ret (Some l))
                        (except_attrnames (ret None)) in
                    match names with
                    | None => ret false
                    | Some included_module_attrnames =>
                        ret (str_in attrname included_module_attrnames)
                    end)
                 (included_modules_docspecs ++ descendants_included_modules_docspecs)
      end in
    if skipped then ret false
    else if negb module_isincluded then
      let* cs := children fuel module_docspec in
      let* is_submodule :=
        anyM (fun child => let* short := shortname child in ret (str_eqb attrname short))
             cs in
      ret (negb is_submodule)
    else ret true.

Fixpoint descendants (fuel : nat) (self : nat) : M (list nat) :=
  match fuel with
  | 0 => timeout
  | S fuel' =>
      let* o := getobj self in
      match _descendants o with
      | Some (d :: ds) => ret (d :: ds)
      | _ =>
          let* cs := children fuel self in
          let* per_child :=
            mapM (fun child =>
                    let* below := descendants fuel' child in
                    ret (child :: below))
                 cs in
          let descendants := concat per_child in
          let* _ := setobj self (set_descendants (Some descendants)) in
          ret descendants
      end
  end.

Fixpoint root (fuel : nat) (self : nat) : M nat :=
  match fuel with
  | 0 => timeout
  | S fuel' =>
      let* o := getobj self in
      match _root o with
      | Some r => ret r
      | None =>
          let* r :=
            match _parent o with
            | None => ret self
            | Some p => root fuel' p
            end in
          let* _ := setobj self (set_root (Some r)) in
          ret r
      end
  end.

Definition reldocpath (fuel : nat) (self : nat) : M string :=
  let* isproject := isproject self in
  if isproject then ret "index"
  else
    let* cs := children fuel self in
    match cs with
    | _ :: _ =>
        let* short := shortname self in
        ret (PosixPath.join short "index")
    | [] =>
        let* relpath := shortname self in
        if str_eqb relpath "index" then ret (relpath +:+ "_") else ret relpath
    end.

Definition docpath (fuel : nat) (self : nat) : M string :=
  let* out := out_parentdirpath self in
  let* r := root fuel self in
  let* root_out := out_parentdirpath r in
  let* parentdocpath :=
    fun h => (PosixPath.relpath cwd out root_out, h) in
  let* rel := reldocpath fuel self in
  ret (PosixPath.normpath (PosixPath.join parentdocpath rel)).

Definition out_filepath (fuel : nat) (self : nat) : M string :=
  let* r := root fuel self in
  let* root_out := out_parentdirpath r in
  let* doc := docpath fuel self in
  ret (PosixPath.join root_out (doc +:+ ".rst")).

Definition _descendant_is_interesting (self : nat) (descendant : nat) : M bool :=
  let* n := name descendant in
  ret (negb (str_eqb n "nisavid")).

Definition top_interesting_descendants (fuel : nat) (self : nat) : M (list nat) :=
  let* o := getobj self in
  match _top_interesting_descendants o with
  | Some ds => ret ds
  | None =>
      let* cs := children fuel self in
      let* per_child :=
        mapM (fun child =>
                let* interesting := _descendant_is_interesting self child in
                if interesting then ret [child]
                else children fuel child)
             cs in
      let descendants := concat per_child in
      let* _ := setobj self (set_top_interesting_descendants (Some descendants)) in
      ret descendants
  end.

(** [_ProjectDocSpec.interesting_descendants]: no module doc-spec has an
    attribute of that name, so reading it from a descendant raises. *)
Definition interesting_descendants (fuel : nat) (self : nat) : M (list nat) :=
  let* o := getobj self in
  match obj_kind o with
  | Mod _ => raise AttributeError
  | Project _ _ _ _ =>
      match _interesting_descendants o with
      | Some ds => ret ds
      | None =>
          let* all := descendants fuel self in
          let* per_descendant :=
            mapM (fun descendant =>
                    let* interesting := _descendant_is_interesting self descendant in
                    let* below := raise (A := list nat) AttributeError in
                    ret ((if interesting then [descendant] else []) ++ below))
                 all in
          let descendants := concat per_descendant in
          let* _ := setobj self (set_interesting_descendants (Some descendants)) in
          ret descendants
      end
  end.

(** [try: c  except Exception: ...] *)
Definition except_Exception {A} (fallback : M A) (e : exn) : option (M A) :=
  Some fallback.

(** The loop of [_ProjectDocSpec.docstring] over the interesting
    descendants whose name is the project's. *)
Fixpoint project_docstring_loop (self : nat) (ds : list nat) : M unit :=
  match ds with
  | [] => ret tt
  | descendant :: rest =>
      let* dname := name descendant in
      let* short := shortname self in
      let* _ :=
        if str_eqb dname short || str_eqb dname ("spruce." +:+ short) then
          try_except
            (let* m := _module descendant in
             let* doc := lift (Introspect.docstring m) in
             setobj self (set_docstring (Some doc)))
            (except_Exception (setobj descendant (set_skip true)))
        else ret tt in
      project_docstring_loop self rest
  end.

Definition docstring (fuel : nat) (self : nat) : M string :=
  let* o := getobj self in
  match obj_kind o with
  | Mod m => lift (Introspect.docstring m)
  | Project _ _ _ _ =>
      match _docstring o with
      | Some doc => ret doc
      | None =>
          let* _ := setobj self (set_docstring (Some "")) in
          let* ds := top_interesting_descendants fuel self in
          let* _ := project_docstring_loop self ds in
          let* o' := getobj self in
          ret (default "" (_docstring o'))
      end
  end.

Definition shortdoc (fuel : nat) (self : nat) : M string :=
  let* o := getobj self in
  match obj_kind o with
  | Mod m => lift (Introspect.shortdoc m)
  | Project _ _ _ _ =>
      let* doc := docstring fuel self in
      match split_blocks doc with
      | block :: _ => ret block
      | [] => ret ""
      end
  end.

(** *** The renderer *)

Definition lift_outcome {A} (o : outcome A) : M A := fun h => (o, h).

(** [[x for x in l if test(x)]] *)
Fixpoint filterM {A} (test : A -> M bool) (l : list A) : M (list A) :=
  match l with
  | [] => ret []
  | x :: xs =>
      let* b := test x in
      let* rest := filterM test xs in
      ret (if b then x :: rest else rest)
  end.

(** [docspecs.sort(key=(lambda docspec: docspec.name.lower()))] *)
Definition sort_by_name (docspecs : list nat) : M (list nat) :=
  let* keyed := mapM (fun d => let* n := name d in ret (d, lower n)) docspecs in
  ret (map fst (sort_by snd keyed)).

Definition _rest_file_header_lines : list string :=
  [".. highlight:: python"; "   :linenothreshold: 5"; ""].

Definition heading_char (level : Z) : ascii :=
  if (level =? 1)%Z then "#"%char
  else if (level =? 2)%Z then "*"%char
  else if (level =? 3)%Z then "="%char
  else if (level =? 4)%Z then "-"%char
  else if (level =? 5)%Z then "^"%char
  else if (level =? 6)%Z then dquote
  else "+"%char.

Definition _rest_heading_lines (text : string) (level : Z) : outcome (list string) :=
  if (level <? 1)%Z then Raises AssertionError
  else
    let line := repeat_char (heading_char level) (String.length text) in
    Returns [line; text; line].

Definition _should_doc_module_docspec (docspec : nat) (module_isincluded : bool)
  : M bool :=
  if negb module_isincluded then
    let* isprivate := module_isprivate docspec in
    if isprivate then ret false
    else
      let* isstandard := module_isstandard docspec in
      if isstandard then ret false else ret true
  else ret true.

Definition except_metatype {A} (fallback : M A) (e : exn) : option (M A) :=
  match e with
  | AttributeError | ImportError | InvalidObject => Some fallback
  | _ => None
  end.

(** The directive of an attribute, [None] when the attribute is skipped. *)
Definition directive_of (attr : Introspect.Attr) (metatype : Introspect.Metatype)
  : option string :=
  match metatype with
  | Introspect.OLDSTYLE => Some "autodata"
  | Introspect.FUNCTION => Some "autofunction"
  | Introspect.CLASS => Some "autoclass"
  | Introspect.EXCEPTION => Some "autoexception"
  | Introspect.MODULE =>
      if Introspect.path_isstandard attr then None
      else if Introspect.importable attr then Some "automodule"
      else Some "autodata"
  | Introspect.UNKNOWN => Some "autodata"
  end.

Definition doc_module_attr (docspec : nat) (level : Z) (attrname : string)
  : M (list string) :=
  let* attr := module_attr docspec attrname in
  let* metatype :=
    try_except
      (let* t := lift (Introspect.metatype attr) in ret (Some t))
      (except_metatype (ret None)) in
  match metatype with
  | None => ret []
  | Some metatype =>
      match directive_of attr metatype with
      | None => ret []
      | Some directive =>
          let* heading := lift_outcome (_rest_heading_lines attrname (level + 1)) in
          let* n := name docspec in
          let flags :=
            if str_in directive ["automodule"; "autoclass"; "autoexception"]
            then ["   :members:"; "   :undoc-members:"; "   :inherited-members:"]
            else [] in
          ret (heading
                 ++ [".. " +:+ directive +:+ ":: " +:+ n +:+ "." +:+ attrname]
                 ++ flags ++ [""])
      end
  end.

Definition doc_module_attrs (fuel : nat) (docspec : nat) (level : Z)
    (module_isincluded : bool) : M (list string) :=
  let* attrnames :=
    try_except
      (let* l := module_attrnames docspec in ret (Some l))
      (except_Exception (ret None)) in
  match attrnames with
  | None => ret []
  | Some attrnames =>
      let* attrnames :=
        filterM (fun attrname =>
                   _should_doc_module_attr fuel docspec attrname module_isincluded)
                attrnames in
      let attrnames := sort_by lower attrnames in
      let* blocks := mapM (doc_module_attr docspec level) attrnames in
      ret (concat blocks)
  end.

Definition except_included_modules {A} (fallback : M A) (e : exn) : option (M A) :=
  match e with
  | InconsistentStructure | IOError => Some fallback
  | _ => None
  end.

(** The [toctree] block of the children of [docspec]. *)
Definition doc_children (fuel : nat) (docspec : nat) (level : Z) : M (list string) :=
  let* cs := children fuel docspec in
  let* cs := filterM (fun child => _should_doc_module_docspec child false) cs in
  let* cs := sort_by_name cs in
  match cs with
  | [] => ret []
  | _ =>
      let* heading := lift_outcome (_rest_heading_lines "Submodules" (level + 1)) in
      let* entries :=
        mapM (fun child =>
                let* cn := name child in
                let* dn := name docspec in
                if startswith cn dn then
                  let* rel := reldocpath fuel child in
                  ret ("   " +:+ rel)
                else raise AssertionError)
             cs in
      ret (heading ++ [".. toctree::"; ""] ++ entries ++ [""; ""])
  end.

(** [doc_module_docspec]: the lines it appends to [output].  [titlefunc] is
    [None] for the default title function. *)
Fixpoint doc_module_docspec (fuel : nat) (docspec : nat) (level : Z)
    (titlefunc : option (nat -> M string)) (module_isincluded : bool)
  : M (list string) :=
  match fuel with
  | 0 => timeout
  | S fuel' =>
      let* n := name docspec in
      let default_titlefunc := name in
      let titlefunc := default default_titlefunc titlefunc in
      let* title :=
        try_except
          (let* t := titlefunc docspec in ret (rstrip_char "."%char t))
          (except_Exception (ret "")) in
      let* title :=
        if str_eqb title "" then default_titlefunc docspec else ret title in
      let* heading := lift_outcome (_rest_heading_lines title level) in
      let* children_lines :=
        if negb module_isincluded then doc_children fuel docspec level else ret [] in
      let* attrs := doc_module_attrs fuel docspec level module_isincluded in
      let* found :=
        try_except
          (let* l := included_modules_docspecs docspec in ret (Some l))
          (except_included_modules (ret None)) in
      let* included :=
        match found with
        | None => ret []
        | Some included_modules_docspecs =>
            let* l :=
              filterM (fun d => _should_doc_module_docspec d true)
                      included_modules_docspecs in
            let* l := sort_by_name l in
            let* blocks :=
              mapM (fun included_module_docspec =>
                      doc_module_docspec fuel' included_module_docspec (level + 1)
                        (Some (shortdoc fuel)) true)
                   l in
            ret (concat blocks)
        end in
      ret (heading ++ [".. automodule:: " +:+ n; ""; ""]
             ++ children_lines ++ attrs ++ included)
  end.

(** The lines of a module's page: what [_generate_module_rest] puts in
    [output] between the banner lines of the pretend mode. *)
Definition module_page (fuel : nat) (docspec : nat) : M (list string) :=
  let* body := doc_module_docspec fuel docspec 1 (Some name) false in
  ret (_rest_file_header_lines ++ body).

(** The banner that the pretend mode puts before a module's page. *)
Definition pretend_banner (docspec : nat) : M (list string) :=
  let* n := name docspec in
  let docpath := PyStr.join "/" (split_on "."%char n) in
  ret [""; docpath +:+ ".rst"; "----"].

Definition pretend_footer : list string := ["----"; ""].

(** The list [output] of [_generate_module_rest] when the loop that prints
    it starts. *)
Definition module_output (fuel : nat) (docspec : nat) (pretend : bool)
  : M (list string) :=
  let* banner := if pretend then pretend_banner docspec else ret [] in
  let* page := module_page fuel docspec in
  ret (banner ++ page ++ (if pretend then pretend_footer else [])).

(** The list [output] of [_generate_project_toplevel_rest]. *)
Definition project_toplevel_output (fuel : nat) (docspec : nat) : M (list string) :=
  let* n := name docspec in
  let* heading := lift_outcome (_rest_heading_lines n 1) in
  let* doc := docstring fuel docspec in
  let* ds := top_interesting_descendants fuel docspec in
  let* ds := sort_by_name ds in
  let* modules :=
    match ds with
    | [] => ret []
    | _ =>
        let* heading := lift_outcome (_rest_heading_lines "Modules" 2) in
        let* entries :=
          mapM (fun module_docspec =>
                  let* mn := name module_docspec in
                  let module_rest_docpath := replace_char "."%char "/" mn in
                  let* cs := children fuel module_docspec in
                  ret ("   " +:+
                         match cs with
                         | [] => module_rest_docpath
                         | _ => PosixPath.join module_rest_docpath "index"
                         end))
               ds in
        ret (heading ++ [".. toctree::"; ""] ++ entries ++ [""; ""])
    end in
  let* indices := lift_outcome (_rest_heading_lines "Indices" 2) in
  ret (_rest_file_header_lines
         ++ ["`up to project list <../../>`_"; ""]
         ++ heading ++ [doc; ""; ""]
         ++ modules
         ++ indices
         ++ ["* :ref:`genindex`"; "* :ref:`modindex`"; "* :ref:`search`"]).

(** *** The output streams

    What the renderer can write to: the lines printed on the standard
    output, and the files of the disk, each with the lines it holds. *)
Record World : Type := mkWorld {
  stdout : list string;
  files : gmap string (list string)
}.

(** [for line in output: print >> sys.stdout, line] *)
Definition print_stdout (output : list string) (w : World) : World :=
  mkWorld (stdout w ++ output) (files w).

(** [file_ = open(path, 'w')], the printing loop and [file_.close()]. *)
Definition write_file (path : string) (output : list string) (w : World) : World :=
  mkWorld (stdout w) (<[path := output]> (files w)).

(** A call that changes the heap and writes to the streams. *)
Definition R (A : Type) : Type := heap -> World -> outcome A * heap * World.

(** Build [output] with [compose], then print it: on the standard output
    when [pretend] holds, and otherwise to the file whose path [target]
    gives. *)
Definition emit (compose : M (list string)) (target : M string) (pretend : bool)
  : R unit :=
  fun h w =>
    match compose h with
    | (Returns output, h1) =>
        if pretend then (Returns tt, h1, print_stdout output w)
        else
          match target h1 with
          | (Returns path, h2) => (Returns tt, h2, write_file path output w)
          | (Raises e, h2) => (Raises e, h2, w)
          | (Timeout, h2) => (Timeout, h2, w)
          end
    | (Raises e, h1) => (Raises e, h1, w)
    | (Timeout, h1) => (Timeout, h1, w)
    end.

Definition _generate_module_rest (fuel : nat) (docspec : nat) (pretend : bool)
  : R unit :=
  emit (module_output fuel docspec pretend) (out_filepath fuel docspec) pretend.

Definition _generate_project_toplevel_rest (fuel : nat) (docspec : nat)
    (pretend : bool) : R unit :=
  emit (project_toplevel_output fuel docspec)
       (let* out := out_parentdirpath docspec in ret (PosixPath.join out "index.rst"))
       pretend.

(** The loop of [_generate_project_rests] over the descendants. *)
Fixpoint generate_descendants (fuel : nat) (pretend : bool) (ds : list nat) : R unit :=
  match ds with
  | [] => fun h w => (Returns tt, h, w)
  | module_docspec :: rest =>
      fun h w =>
        match skip module_docspec h with
        | (Returns true, h1) => generate_descendants fuel pretend rest h1 w
        | (Returns false, h1) =>
            match _generate_module_rest fuel module_docspec pretend h1 w with
            | (Returns _, h2, w2) => generate_descendants fuel pretend rest h2 w2
            | other => other
            end
        | (Raises e, h1) => (Raises e, h1, w)
        | (Timeout, h1) => (Timeout, h1, w)
        end
  end.

Definition _generate_project_rests (fuel : nat) (docspec : nat) (pretend : bool)
  : R unit :=
  fun h w =>
    match _generate_project_toplevel_rest fuel docspec pretend h w with
    | (Returns _, h1, w1) =>
        match descendants fuel docspec h1 with
        | (Returns ds, h2) => generate_descendants fuel pretend ds h2 w1
        | (Raises e, h2) => (Raises e, h2, w1)
        | (Timeout, h2) => (Timeout, h2, w1)
        end
    | other => other
    end.

End Generator.

End DocGen.

(** ** Heaps whose caches agree with the introspection data *)
Module Coherence.
Import DocGen.

Definition is_mod (h : heap) (i : nat) (m : Introspect.Module) : Prop :=
  exists o, h !! i = Some o /\ obj_kind o = Mod m.

Definition child_of (h : heap) (parent : nat) (c : nat) (m : Introspect.Module) : Prop :=
  exists o, h !! c = Some o /\ obj_kind o = Mod m /\ _parent o = Some parent.

(** The included paths that an object holds once they were read. *)
Definition own_paths (o : Obj) (paths : list string) : Prop :=
  match obj_kind o with
  | Project _ _ _ _ => paths = []
  | Mod _ => _included_modules_paths o = Some paths
  end.

(** The objects from [p] upwards, each with its included paths read. *)
Inductive lineage (h : heap) : option nat -> list (list string) -> Prop :=
  | lineage_top : lineage h None []
  | lineage_step p o own rest :
      h !! p = Some o -> own_paths o own -> lineage h (_parent o) rest ->
      lineage h (Some p) (own :: rest).

(** An entry of the loop of [top_interesting_descendants]: a child of the
    project stands for itself, unless it is named [nisavid], when its
    children stand for it. *)
Definition top_entry (h : heap) (project : nat) (c : nat) (part : list nat) : Prop :=
  exists m,
    child_of h project c m
    /\ if negb (PyStr.str_eqb (Introspect.path m) "nisavid") then part = [c]
       else exists subs,
           DocTree.children m [] = Ok subs /\ Forall2 (child_of h c) part subs.

Record coherent (h : heap) (i : nat) (o : Obj) : Prop := mkCoherent {
  co_parent :
    forall p, _parent o = Some p ->
      p < i /\ (exists m, obj_kind o = Mod m)
      /\ exists op own, h !! p = Some op /\ own_paths op own;
  co_included :
    forall paths, _included_modules_paths o = Some paths ->
      exists m, obj_kind o = Mod m /\ Introspect.included_modules_paths m = Ok paths;
  co_inherited :
    forall paths, _ancestor_included_modulepaths_ o = Some paths ->
      exists owns, lineage h (_parent o) owns /\ paths = concat owns;
  co_children :
    forall cs, _children o = Some cs ->
      match obj_kind o with
      | Mod m =>
          exists owns subs,
            lineage h (_parent o) owns
            /\ DocTree.children m (concat owns) = Ok subs
            /\ Forall2 (child_of h i) cs subs
      | Project _ _ _ _ => Forall (fun c => exists m, child_of h i c m) cs
      end;
  co_descendants_included :
    forall ids, _descendants_included_modules_docspecs o = Some ids ->
      exists m owns mods,
        obj_kind o = Mod m
        /\ lineage h (_parent o) owns
        /\ DocTree.descendants_included m (concat owns) = Ok mods
        /\ Forall2 (is_mod h) ids mods;
  co_top_interesting :
    forall ds, _top_interesting_descendants o = Some ds ->
      exists cs parts, Forall2 (top_entry h i) cs parts /\ ds = concat parts
}.

Definition wf (h : heap) : Prop :=
  forall i o, h !! i = Some o -> coherent h i o.

(** What no call changes in an object: what it was built from, and the
    included paths once read. *)
Definition preserved (o o' : Obj) : Prop :=
  obj_kind o' = obj_kind o /\ _parent o' = _parent o
  /\ _out_dirpath o' = _out_dirpath o
  /\ forall v, _included_modules_paths o = Some v -> _included_modules_paths o' = Some v.

Definition ext (h h' : heap) : Prop :=
  forall i o, h !! i = Some o -> exists o', h' !! i = Some o' /\ preserved o o'.

(** What [descendants_included_modules_docspecs] is to return for a module
    object, given enough turns for the loops below it. *)
Definition descendants_included_spec top_modules (fuel : nat) : Prop :=
  forall self h o m owns,
    wf h -> h !! self = Some o -> obj_kind o = Mod m ->
    lineage h (_parent o) owns ->
    length owns + 2 * Introspect.height m <= fuel ->
    exists r h',
      descendants_included_modules_docspecs top_modules fuel self h = (r, h')
      /\ wf h' /\ ext h h'
      /\ match DocTree.descendants_included m (concat owns) with
         | Ok mods => exists ids, r = Returns ids /\ Forall2 (is_mod h') ids mods
         | Fail e => r = Raises e
         end.

End Coherence.

(** ** A small project to run the generator on

    A project [spruce-demo] with two top-level packages: [pkg], which
    includes [pkg._core] and has the submodules [pkg._core], [pkg.index],
    [pkg.index_] and [pkg.sub] (itself a package with [pkg.sub.util]), and
    the namespace package [nisavid] with [nisavid.project]. *)
Module Sample.

Definition attr : Introspect.Attr :=
  Introspect.mkAttr (Ok Introspect.FUNCTION) false true.

Definition leaf (path name : string) (attrnames : list string) : Introspect.Module :=
  Introspect.mkModule path name false false false (Ok "") (Ok "") (Ok attrnames)
    (fun _ => attr) (Ok []) (fun _ => Introspect.NotFound) [].

Definition core : Introspect.Module := leaf "pkg._core" "_core" ["helper"].

Definition util : Introspect.Module := leaf "pkg.sub.util" "util" ["tool"].

Definition sub : Introspect.Module :=
  Introspect.mkModule "pkg.sub" "sub" true false false (Ok "") (Ok "") (Ok ["util"])
    (fun _ => attr) (Ok []) (fun _ => Introspect.NotFound) [util].

Definition pkg : Introspect.Module :=
  Introspect.mkModule "pkg" "pkg" true false false (Ok "A package.") (Ok "A package")
    (Ok ["run"; "helper"; "sub"; "_private"])
    (fun _ => attr) (Ok ["pkg._core"])
    (fun p => if PyStr.str_eqb p "pkg._core" then Introspect.Found core
              else Introspect.NotFound)
    [core; leaf "pkg.index" "index" []; leaf "pkg.index_" "index_" []; sub].

Definition nisavid : Introspect.Module :=
  Introspect.mkModule "nisavid" "nisavid" true false false (Ok "") (Ok "") (Ok [])
    (fun _ => attr) (Ok []) (fun _ => Introspect.NotFound)
    [leaf "nisavid.project" "project" []].

Definition top_modules (dirpath : string) (excluded_names : list string)
  : list Introspect.Module := [pkg; nisavid].

Definition builtins : list string := ["abs"; "all"; "any"; "len"; "open"].

(** The heap after [_ProjectDocSpec('.', 'doc', src_dirnames=['.'])]. *)
Definition heap0 : list DocGen.Obj :=
  snd (DocGen.ProjectDocSpec (Some "spruce-demo") "." "doc" ["."] []).

(** The heap once the children of the project are known: the project is
    object 0, [pkg] object 1 and [nisavid] object 2. *)
Definition heap1 : list DocGen.Obj := snd (DocGen.children top_modules 5 0 heap0).

(** The heap once the children of [pkg] are known too: objects 3, 4 and 5
    for [pkg.index], [pkg.index_] and [pkg.sub]. *)
Definition heap2 : list DocGen.Obj := snd (DocGen.children top_modules 5 1 heap1).

(** Whether to document the attribute [run] of [pkg]: a first evaluation,
    and a second one in the heap that the first one leaves. *)
Definition first_run : outcome bool * list DocGen.Obj :=
  DocGen._should_doc_module_attr top_modules builtins 9 1 "run" false heap1.

Definition second_run : outcome bool * list DocGen.Obj :=
  DocGen._should_doc_module_attr top_modules builtins 9 1 "run" false (snd first_run).

(** The pretend run of the renderer on the sample project, from an empty
    standard output and an empty disk; and the run that writes files. *)
Definition empty_world : DocGen.World := DocGen.mkWorld [] ∅.

Definition cwd : string := "/home/me/demo".

Definition pretend_run : outcome unit * list DocGen.Obj * DocGen.World :=
  DocGen._generate_project_rests cwd top_modules builtins (fun doc => [doc]) 9 0 true
    heap0 empty_world.

Definition writing_run : outcome unit * list DocGen.Obj * DocGen.World :=
  DocGen._generate_project_rests cwd top_modules builtins (fun doc => [doc]) 9 0 false
    heap0 empty_world.

End Sample.

(** ** What a dry run prints *)
Module Rendering.
Import PyStr DocGen.

(** A call that only prints: whatever the streams hold when it starts, it
    leaves the same outcome and heap, and the streams with the same lines
    added to the standard output. *)
Definition only_prints (c : R unit) (h : heap) (r : outcome unit) (h' : heap)
    (printed : list string) : Prop :=
  forall w, c h w = (r, h', print_stdout printed w).

(** The banner of a page in the dry run: an empty line, the path made of
    the parts of the module's dotted name, and a rule. *)
Definition banner_of (n : string) : list string :=
  [""; PyStr.join "/" (split_on "."%char n) +:+ ".rst"; "----"].

Section Pages.
Variable top_modules : string -> list string -> list Introspect.Module.
Variable builtins : list string.
Variable split_blocks : string -> list string.
Variable fuel : nat.

(** [prints_pages ds h printed h'] : going through the doc-specs [ds] from
    the heap [h], the pages of those that are not skipped, each between its
    banner and its closing rule, make up the lines [printed], and the heap
    is [h'] at the end. *)
Inductive prints_pages : list nat -> heap -> list string -> heap -> Prop :=
| prints_none h : prints_pages [] h [] h
| prints_skipped d ds h h1 printed h' :
    skip d h = (Returns true, h1) ->
    prints_pages ds h1 printed h' ->
    prints_pages (d :: ds) h printed h'
| prints_page d ds h h1 n h2 page h3 printed h' :
    skip d h = (Returns false, h1) ->
    name d h1 = (Returns n, h2) ->
    module_page top_modules builtins split_blocks fuel d h2 = (Returns page, h3) ->
    prints_pages ds h3 printed h' ->
    prints_pages (d :: ds) h
      (banner_of n ++ page ++ ["----"; ""] ++ printed) h'.

End Pages.

End Rendering.

(** ** More to run the generator on

    A project [spruce-demo] whose module [demo] has a docstring that cannot
    be read, a project without [conf.py], and the sample heap with one
    doc-spec flagged. *)
Module SampleMore.
Import DocGen.

Definition demo : Introspect.Module :=
  Introspect.mkModule "demo" "demo" false false false (Fail ImportError) (Ok "")
    (Ok []) (fun _ => Sample.attr) (Ok []) (fun _ => Introspect.NotFound) [].

Definition top_modules (dirpath : string) (excluded_names : list string)
  : list Introspect.Module := [demo; Sample.leaf "other" "other" []].

Definition docstring_run : outcome string * list Obj :=
  docstring top_modules 5 0 Sample.heap0.

Definition pretend_run : outcome unit * list Obj * World :=
  _generate_project_rests Sample.cwd top_modules Sample.builtins (fun doc => [doc]) 9 0
    true Sample.heap0 Sample.empty_world.

(** The heap after [_ProjectDocSpec('.', 'doc', src_dirnames=['.'])] when
    [doc/conf.py] does not exist. *)
Definition no_config_heap : list Obj :=
  snd (ProjectDocSpec None "." "doc" ["."] []).

Definition flagged_heap : list Obj := alter (set_skip true) 4 Sample.heap2.

Definition included_run : outcome (list nat) * list Obj :=
  included_modules_docspecs 1 Sample.heap1.

Definition page_run : outcome (list string) * list Obj :=
  module_page Sample.top_modules Sample.builtins (fun doc => [doc]) 9 3 Sample.heap2.

Definition descendants_run : outcome (list nat) * list Obj :=
  descendants Sample.top_modules 9 0 Sample.heap0.

End SampleMore.

(** ** What calls leave of the heap *)
Module Persistence.
Import DocGen.

Section Relation.
(** [P o o'] relates an object before a call to the object at the same
    index after it; [Q] holds of the objects that the call creates. *)
Variable P : Obj -> Obj -> Prop.
Variable Q : Obj -> Prop.

Definition extends_by (h h' : heap) : Prop :=
  (forall i o, h !! i = Some o -> exists o', h' !! i = Some o' /\ P o o')
  /\ (forall i o', length h <= i -> h' !! i = Some o' -> Q o').

(** A call after which the heap extends the one it started from, however
    the call ends. *)
Definition keeps_by {A} (c : M A) : Prop :=
  forall h r h', c h = (r, h') -> extends_by h h'.

End Relation.

(** The relations that the proofs below are carried out for. *)
Class Frame (P : Obj -> Obj -> Prop) (Q : Obj -> Prop) : Prop := {
  frame_refl : forall o, P o o;
  frame_trans : forall o1 o2 o3, P o1 o2 -> P o2 o3 -> P o1 o3;
  frame_created : forall o o', Q o -> P o o' -> Q o';
  frame_new : forall k out p, Q (new_obj k out p)
}.

(** Relations that hold across the filling of the caches of the tree. *)
Class TreeFrame (P : Obj -> Obj -> Prop) : Prop := {
  frame_included : forall v o, P o (set_included_modules_paths v o);
  frame_inherited : forall v o, P o (set_ancestor_included_modulepaths v o);
  frame_descendants_included :
    forall v o, P o (set_descendants_included_modules_docspecs v o);
  frame_top_interesting : forall v o, P o (set_top_interesting_descendants v o)
}.

(** Relations that hold when [children] fills its cache. *)
Class ChildrenFrame (P : Obj -> Obj -> Prop) : Prop := {
  frame_children : forall v o, P o (set_children v o)
}.

(** Relations that hold across every assignment that the code makes. *)
Class FullFrame (P : Obj -> Obj -> Prop) : Prop := {
  frame_descendants : forall v o, P o (set_descendants v o);
  frame_root : forall v o, P o (set_root v o);
  frame_docstring : forall v o, P o (set_docstring v o);
  frame_interesting : forall v o, P o (set_interesting_descendants v o);
  frame_skip : forall o, P o (set_skip true o)
}.

(** What stays of an object whatever is evaluated: what it was built from,
    and its [skip] flag once it is set. *)
Definition persists (o o' : Obj) : Prop :=
  obj_kind o' = obj_kind o /\ _parent o' = _parent o
  /\ _out_dirpath o' = _out_dirpath o
  /\ (_skip o = true -> _skip o' = true).

Definition any_object (o : Obj) : Prop := True.

(** What the properties of the tree leave alone: the flag and the caches
    that only [descendants], [root] and the project's [docstring] fill. *)
Definition untouched (o o' : Obj) : Prop :=
  obj_kind o' = obj_kind o /\ _parent o' = _parent o
  /\ _skip o' = _skip o /\ _descendants o' = _descendants o
  /\ _root o' = _root o /\ _docstring o' = _docstring o.

(** An object as [__init__] leaves these attributes. *)
Definition pristine (o : Obj) : Prop :=
  _skip o = false /\ _descendants o = None /\ _root o = None /\ _docstring o = None.

(** What the body of [children] leaves alone: the children that other
    doc-specs have cached. *)
Definition same_children (o o' : Obj) : Prop := _children o' = _children o.

Definition childless (o : Obj) : Prop := _children o = None.

Abbreviation extends := (extends_by persists any_object).
Abbreviation keeps := (keeps_by persists any_object).

End Persistence.

(** ** The docstring of a project, as a function of its modules *)
Module ProjectDoc.
Import PyStr.

(** [_ProjectDocSpec.shortname], from the project's name. *)
Definition short_of (name : string) : string :=
  let strippable_prefix := "spruce-" in
  if startswith name strippable_prefix
  then drop_chars (String.length strippable_prefix) name
  else name.

(** The test that the loop of [_ProjectDocSpec.docstring] makes on the name
    of a descendant. *)
Definition named_like (short : string) (m : Introspect.Module) : bool :=
  str_eqb (Introspect.path m) short
  || str_eqb (Introspect.path m) ("spruce." +:+ short).

(** What the loop leaves in [_docstring] when it starts with [doc] there:
    every descendant with such a name whose docstring can be read
    overwrites it. *)
Fixpoint docstring_of (short : string) (mods : list Introspect.Module) (doc : string)
  : string :=
  match mods with
  | [] => doc
  | m :: rest =>
      docstring_of short rest
        (if named_like short m then
           match Introspect.docstring m with
           | Ok d => d
           | Fail _ => doc
           end
         else doc)
  end.

End ProjectDoc.

(** ** The top of a chain of parents *)
Module Roots.
Import DocGen.

(** [top_of h i r]: going from parent to parent from the object [i], one
    arrives at [r], which has no parent. *)
Inductive top_of (h : heap) : nat -> nat -> Prop :=
  | top_here i o : h !! i = Some o -> _parent o = None -> top_of h i i
  | top_above i o p r :
      h !! i = Some o -> _parent o = Some p -> top_of h p r -> top_of h i r.

(** Every root that an object has cached is the top of its chain. *)
Definition roots_cached (h : heap) : Prop :=
  forall i o r, h !! i = Some o -> _root o = Some r -> top_of h i r.

End Roots.

(** ** The relative path of a module's page *)
Module PagePath.
Import PyStr.

(** What [reldocpath] makes of the short name of a module, according to
    whether the module has children. *)
Definition rel_of (shortname : string) (has_children : bool) : string :=
  if has_children then PosixPath.join shortname "index"
  else if str_eqb shortname "index" then shortname +:+ "_" else shortname.

End PagePath.

(** ** The tree of doc-specs that the heap holds *)
Module Listing.
Import DocGen.

(** [listing h cs ds]: [ds] lists the doc-specs [cs] and all that is below
    them, each doc-spec before its own children (those it has cached) and
    before the doc-specs that follow it in [cs]. *)
Inductive listing (h : heap) : list nat -> list nat -> Prop :=
  | listing_nil : listing h [] []
  | listing_cons c o cs below rest others :
      h !! c = Some o -> _children o = Some cs ->
      listing h cs below -> listing h rest others ->
      listing h (c :: rest) (c :: below ++ others).

(** The children that a doc-spec has cached stay cached. *)
Definition children_kept (h h' : heap) : Prop :=
  forall i o cs, h !! i = Some o -> _children o = Some cs ->
    exists o', h' !! i = Some o' /\ _children o' = Some cs.

(** Every list of descendants that a doc-spec has cached lists what is
    below it. *)
Definition descendants_cached (h : heap) : Prop :=
  forall i o d ds, h !! i = Some o -> _descendants o = Some (d :: ds) ->
    exists cs, _children o = Some cs /\ listing h cs (d :: ds).

(** What a walk below the doc-spec [self] leaves: the caches are right,
    and what the walk returns lists the tree below [self]. *)
Definition walked (h : heap) (r : outcome (list nat)) (h' : heap) (self : nat) : Prop :=
  descendants_cached h' /\ children_kept h h'
  /\ forall ds, r = Returns ds ->
       exists o' cs, h' !! self = Some o' /\ _children o' = Some cs
                     /\ listing h' cs ds.

End Listing.

(** * Properties *)

(** ** The path functions agree with CPython's on sample inputs *)
Module PosixPathFacts.
Import PyStr PosixPath.

Example split_root : split "/" = ("/", "").
Proof. reflexivity. Qed.
Example split_two_slashes : split "//" = ("//", "").
Proof. reflexivity. Qed.
Example split_two_slashes_x : split "//x" = ("//", "x").
Proof. reflexivity. Qed.
Example split_a_b : split "/a/b" = ("/a", "b").
Proof. reflexivity. Qed.
Example split_a : split "/a" = ("/", "a").
Proof. reflexivity. Qed.
Example split_relative : split "a" = ("", "a").
Proof. reflexivity. Qed.
Example normpath_two_slashes : normpath "//x/../y" = "//y".
Proof. reflexivity. Qed.
Example normpath_three_slashes : normpath "///x" = "/x".
Proof. reflexivity. Qed.
Example normpath_dots : normpath "a//b/./c/" = "a/b/c".
Proof. reflexivity. Qed.
Example normpath_up : normpath "a/../../b" = "../b".
Proof. reflexivity. Qed.
Example relpath_below : relpath "/w" "/o/a/b" "/o" = Returns "a/b".
Proof. reflexivity. Qed.
Example relpath_same : relpath "/w" "doc" "doc" = Returns ".".
Proof. reflexivity. Qed.
Example relpath_up : relpath "/w" "/o/a" "/o/b/c" = Returns "../../a".
Proof. reflexivity. Qed.

Example int_plain : py_int "42" = Some 42%Z.
Proof. reflexivity. Qed.
Example int_blank : py_int "" = None.
Proof. reflexivity. Qed.
Example int_two_lines : py_int (String "4" (String newline "2")) = None.
Proof. reflexivity. Qed.
Example int_signed : py_int " -7 " = Some (-7)%Z.
Proof. reflexivity. Qed.
Example words_log : words "---- r5 | me" = ["----"; "r5"; "|"; "me"].
Proof. reflexivity. Qed.
Example repr_git : py_repr "git" = "'git'".
Proof. reflexivity. Qed.

End PosixPathFacts.

#[local] Arguments String.append !_ _ / : simpl nomatch.

(** ** Paths *)
Module PathFacts.
Import PyStr PosixPath.

Lemma ascii_eqb_true a b : ascii_eqb a b = true <-> a = b.
Proof. apply Ascii.eqb_eq. Qed.

Lemma rstrip_char_length c s :
  String.length (rstrip_char c s) <= String.length s.
Proof.
  induction s as [|d r IH]; cbn; [lia|].
  destruct (rstrip_char c r); [destruct (ascii_eqb d c)|]; cbn in *; lia.
Qed.

Lemma rstrip_char_shorter c s :
  endswith_char s c = true ->
  String.length (rstrip_char c s) < String.length s.
Proof.
  induction s as [|d r IH]; cbn; [discriminate|].
  destruct r as [|e r'].
  - intros ->. cbn. lia.
  - intros H. specialize (IH H).
    destruct (rstrip_char c (String e r')); [destruct (ascii_eqb d c)|];
      cbn in *; lia.
Qed.

Lemma rstrip_char_keeps c d s :
  ascii_eqb d c = false ->
  rstrip_char c (String d s) = String d (rstrip_char c s).
Proof. intros H. cbn. rewrite H. by destruct (rstrip_char c s). Qed.

Lemma split_last_app p h t : split_last p = (h, t) -> p = h +:+ t.
Proof.
  revert h t. induction p as [|c r IH]; cbn; intros h t E.
  - by inversion E.
  - destruct (split_last r) as [h0 t0]. specialize (IH _ _ eq_refl).
    destruct h0 as [|x h0'].
    + cbn in IH. subst t0. destruct (ascii_eqb c slash); by inversion E.
    + inversion E; subst h t. cbn in IH |- *. by rewrite <- IH.
Qed.

Lemma split_last_head_ends p h t :
  split_last p = (h, t) -> h <> "" -> endswith_char h slash = true.
Proof.
  revert h t. induction p as [|c r IH]; cbn; intros h t E Hne.
  - by inversion E.
  - destruct (split_last r) as [h0 t0]. specialize (IH _ _ eq_refl).
    destruct h0 as [|x h0'].
    + destruct (ascii_eqb c slash) eqn:Ec; inversion E; subst; [|done].
      cbn. exact Ec.
    + inversion E; subst. cbn. apply IH. discriminate.
Qed.

Lemma split_last_cons c r :
  split_last (String c r) =
  match split_last r with
  | (EmptyString, _) =>
      if ascii_eqb c slash then (String c EmptyString, r) else (EmptyString, String c r)
  | (h, t) => (String c h, t)
  end.
Proof. reflexivity. Qed.

Lemma app_length_string (a b : string) :
  String.length (a +:+ b) = String.length a + String.length b.
Proof. induction a; cbn; lia. Qed.

(** One turn of the upward walk from a single-rooted path other than the
    root gives a strictly shorter single-rooted path. *)
Lemma split_single_root p :
  single_root p = true -> p <> "/" ->
  single_root (fst (split p)) = true
  /\ String.length (fst (split p)) < String.length p.
Proof.
  destruct p as [|c [|d r]]; cbn [single_root]; try discriminate.
  { intros ->%ascii_eqb_true Hne. exfalso. apply Hne. reflexivity. }
  intros [->%ascii_eqb_true Hd%negb_true_iff]%andb_true_iff _.
  unfold split. rewrite split_last_cons.
  destruct (split_last (String d r)) as [h0 t0] eqn:E.
  pose proof (split_last_app _ _ _ E) as Happ.
  destruct h0 as [|x h0'].
  - change (ascii_eqb slash slash) with true. cbn. split; [reflexivity|lia].
  - assert (x = d) as -> by (cbn in Happ; congruence).
    assert (String.length (String d h0') <= String.length (String d r)) as Hlen.
    { rewrite Happ, app_length_string. lia. }
    assert (endswith_char (String d h0') slash = true) as Hend.
    { eapply split_last_head_ends; [exact E | discriminate]. }
    cbn [fst str_eqb String.eqb negb andb all_char].
    change (ascii_eqb slash slash) with true. rewrite Hd. cbn [andb negb].
    assert (rstrip_char slash (String slash (String d h0'))
            = String slash (String d (rstrip_char slash h0'))) as ->.
    { cbn [rstrip_char]. rewrite Hd. by destruct (rstrip_char slash h0'). }
    split.
    + cbn [single_root]. change (ascii_eqb slash slash) with true. by rewrite Hd.
    + apply rstrip_char_shorter in Hend.
      rewrite (rstrip_char_keeps slash d) in Hend by exact Hd.
      cbn [String.length] in *. lia.
Qed.

Lemma ancestry_single_root k p n m :
  single_root p = true -> String.length p <= k -> k <= n -> k <= m ->
  ancestry n p = ancestry m p
  /\ existsb (fun t => str_eqb t "/") (ancestry n p) = true.
Proof.
  revert p n m. induction k as [|k IH]; intros p n m Hp Hlen Hn Hm.
  { destruct p; [discriminate | cbn in Hlen; lia]. }
  destruct n as [|n]; [lia|]. destruct m as [|m]; [lia|].
  cbn [ancestry existsb].
  destruct (str_eqb p "/") eqn:E; [done|].
  assert (p <> "/") as Hne by (intros ->; discriminate).
  destruct (split_single_root p Hp Hne) as [Hs Hl].
  destruct (IH (fst (split p)) n m Hs) as [IH1 IH2]; [lia..|].
  by rewrite IH2, IH1.
Qed.

Lemma split_on_no_sep sep s :
  Forall (fun x => has_char sep x = false) (split_on sep s).
Proof.
  induction s as [|c r IH]; cbn.
  - by constructor.
  - destruct (ascii_eqb c sep) eqn:E.
    + by constructor.
    + destruct (split_on sep r) as [|x xs]; inversion IH; subst;
        constructor; cbn; try done.
      all: unfold ascii_eqb in *; rewrite Ascii.eqb_sym, E; done.
Qed.

Lemma norm_step_keeps (P : string -> Prop) slashes acc comp :
  Forall P acc -> (comp <> "" -> P comp) -> Forall P (norm_step slashes acc comp).
Proof.
  intros Hacc Hcomp. unfold norm_step.
  destruct (str_eqb comp "") eqn:E; [done|].
  assert (comp <> "") as Hne by (intros ->; discriminate).
  cbn [orb]. destruct (str_eqb comp "."); [done|].
  destruct (_ || _ || _); [constructor; auto|].
  destruct Hacc; [constructor | done].
Qed.

Lemma norm_comps_parts slashes path :
  Forall (fun x => x <> "" /\ has_char slash x = false) (norm_comps slashes path).
Proof.
  unfold norm_comps. apply Forall_rev.
  pose proof (split_on_no_sep slash path) as H.
  assert (Forall (fun x => x <> "" /\ has_char slash x = false) []) as Hacc
    by constructor.
  revert Hacc. generalize (@nil string).
  induction H as [|comp comps Hc _ IH]; intros acc Hacc; cbn; [done|].
  apply IH. apply norm_step_keeps; [done|]. by split.
Qed.

Lemma single_root_join comps :
  Forall (fun x => x <> "" /\ has_char slash x = false) comps ->
  single_root ("/" +:+ PyStr.join "/" comps) = true.
Proof.
  intros H. destruct H as [|x xs [Hne Hx] _]; [reflexivity|].
  destruct x as [|c x']; [done|].
  cbn in Hx. apply orb_false_iff in Hx as [Hc _].
  assert (ascii_eqb c slash = false) as Hc'.
  { unfold ascii_eqb in *. by rewrite Ascii.eqb_sym. }
  destruct xs; cbn; change (ascii_eqb slash slash) with true; by rewrite Hc'.
Qed.

(** [normpath] of a path that starts with one slash, or with three or
    more, is single-rooted. *)
Lemma normpath_single_root q :
  initial_slashes q = 1 -> single_root (normpath q) = true.
Proof.
  intros H. unfold normpath. rewrite H.
  destruct q as [|c q']; [discriminate|].
  cbn [str_eqb String.eqb].
  pose proof (single_root_join _ (norm_comps_parts 1 (String c q'))) as Hs.
  change (repeat_char slash 1) with "/".
  destruct ("/" +:+ PyStr.join "/" (norm_comps 1 (String c q'))) eqn:E;
    [discriminate|].
  exact Hs.
Qed.
End PathFacts.

(** ** [spruce/project/vcs.py] *)
Module VcsFacts.
Import PyStr PosixPath Vcs PathFacts.

(** The loop of [git_topdir] returns the first tested path that holds a
    [.git] directory, returns [None] when it reaches the root without
    finding one, and is still running otherwise. *)
Lemma git_topdir_loop_spec isdir fuel p :
  git_topdir_loop isdir fuel p =
  match List.find (fun t => isdir (PosixPath.join t ".git")) (ancestry fuel p) with
  | Some t => Returns (Some t)
  | None =>
      if existsb (fun t => str_eqb t "/") (ancestry fuel p)
      then Returns None else Timeout
  end.
Proof.
  revert p. induction fuel as [|n IH]; intros p; [reflexivity|].
  cbn [git_topdir_loop ancestry List.find existsb].
  destruct (isdir (PosixPath.join p ".git")); [reflexivity|].
  destruct (str_eqb p "/"); [reflexivity|].
  cbn [orb]. apply IH.
Qed.

(** From a single-rooted path the loop returns, within as many turns as
    the path has characters. *)
Lemma git_topdir_loop_returns isdir fuel p :
  single_root p = true -> String.length p <= fuel ->
  git_topdir_loop isdir fuel p =
  Returns (List.find (fun t => isdir (PosixPath.join t ".git"))
                     (ancestry (String.length p) p)).
Proof.
  intros Hp Hfuel. rewrite git_topdir_loop_spec.
  destruct (ancestry_single_root (String.length p) p fuel (String.length p) Hp)
    as [-> ->]; [lia..|].
  by destruct (List.find _ _).
Qed.

(** What [guess_vcs] returns for every path whose absolute form does not
    begin with exactly two slashes. *)
Lemma guess_vcs_single_rooted cwd isdir fuel path :
  initial_slashes (if isabs path then path else PosixPath.join cwd path) = 1 ->
  String.length (abspath cwd path) <= fuel ->
  guess_vcs cwd isdir fuel path =
  Returns
    (if isdir (path +:+ "/.svn") then Some "svn"
     else
       match List.find (fun t => isdir (PosixPath.join t ".git"))
                       (ancestry (String.length (abspath cwd path)) (abspath cwd path))
       with
       | Some topdir =>
           if isdir (topdir +:+ "/.git/svn") then Some "git-svn" else Some "git"
       | None => None
       end).
Proof.
  intros Hroot Hfuel. unfold guess_vcs, git_topdir.
  destruct (isdir (path +:+ "/.svn")); [reflexivity|].
  rewrite git_topdir_loop_returns; [|by apply normpath_single_root|done].
  cbn [obind]. destruct (List.find _ _) as [t|]; [|reflexivity].
  by destruct (isdir (t +:+ "/.git/svn")).
Qed.

Example guess_git_svn :
  guess_vcs "/home/me" (fun s => str_eqb s "/home/.git" || str_eqb s "/home/.git/svn")
    20 "proj/src"
  = Returns (Some "git-svn").
Proof. reflexivity. Qed.

Example guess_unversioned :
  guess_vcs "/home/me" (fun _ => false) 20 "proj/src" = Returns None.
Proof. reflexivity. Qed.

Lemma git_topdir_loop_two_slashes isdir fuel :
  isdir "//.git" = false ->
  git_topdir_loop isdir fuel "//" = Timeout.
Proof.
  intros H. induction fuel as [|n IH]; [reflexivity|].
  cbn [git_topdir_loop].
  change (PosixPath.join "//" ".git") with "//.git". rewrite H.
  change (str_eqb "//" "/") with false. cbv iota.
  change (fst (PosixPath.split "//")) with "//". exact IH.
Qed.

(** C10, at the input where the code departs from it: the claim is that
    the upward search of [git_topdir] ends for every path.  For the path
    [//], which [abspath] keeps as it is and [split] maps to itself, the
    loop neither finds the root [/] nor shortens the path: whenever there
    is no [//.git] directory, no number of turns makes it return. *)
Theorem git_topdir_two_slashes_never_returns cwd isdir fuel :
  isdir "//.git" = false ->
  git_topdir cwd isdir fuel "//" = Timeout.
Proof.
  intros H. unfold git_topdir.
  change (PosixPath.abspath cwd "//") with "//".
  by apply git_topdir_loop_two_slashes.
Qed.

Lemma git_topdir_two_slashes_never_returns_witness :
  git_topdir "/home" (fun _ => false) 1000 "//" = Timeout.
Proof. apply git_topdir_two_slashes_never_returns. reflexivity. Defined.

(** C3, at the input where the code departs from it: the claim is that
    [guess_vcs] returns [None] when neither marker is found up to the
    root.  For the path [//] with no [.svn] at the path and no [.git]
    above it, [guess_vcs] does not return at all, for any number of turns
    of the loop of [git_topdir]. *)
Theorem guess_vcs_two_slashes_never_returns cwd isdir fuel :
  isdir "///.svn" = false ->
  isdir "//.git" = false ->
  guess_vcs cwd isdir fuel "//" = Timeout.
Proof.
  intros Hsvn Hgit. unfold guess_vcs.
  change ("//" +:+ "/.svn") with "///.svn". rewrite Hsvn.
  by rewrite git_topdir_two_slashes_never_returns.
Qed.

Lemma guess_vcs_two_slashes_never_returns_witness :
  guess_vcs "/home" (fun _ => false) 1000 "//" = Timeout.
Proof. apply guess_vcs_two_slashes_never_returns; reflexivity. Defined.

Lemma vcs_in_supported vcs :
  vcs_in vcs SUPPORTED_SYSTEMS = true <-> vcs = Some "svn" \/ vcs = Some "git-svn".
Proof.
  destruct vcs as [v|]; cbn; [|intuition congruence].
  unfold str_eqb. destruct (String.eqb_spec v "svn") as [->|Hs]; cbn; [intuition|].
  destruct (String.eqb_spec v "git-svn") as [->|Hg]; cbn; intuition congruence.
Qed.


(** A working copy at [/p] whose only marker is [/p/.git]. *)
Example incompatible_git :
  svn_last_changed_revision "/" (fun s => str_eqb s "/p/.git") (fun _ => "") 5 "/p"
  = Raises (IncompatibleVcsError
              "incompatible VCS 'git'; compatible systems are [svn, git-svn]").
Proof. reflexivity. Qed.

Example incompatible_none :
  svn_last_changed_revision "/" (fun _ => false) (fun _ => "") 5 "/p"
  = Raises (IncompatibleVcsError
              "no VCS found; compatible systems are [svn, git-svn]").
Proof. reflexivity. Qed.


(** C7: whatever the commands print, when the text that
    [svn_last_changed_revision] reads the revision from (the digits of the
    [Last Changed Rev] lines or, when there are none, the second word of
    the log output without its first character) is not an integer
    literal, the call raises [Error] with the wrapped text, and so no
    other exception. *)
Theorem svn_last_changed_revision_invalid_token
    cwd isdir stdout_of fuel path vcs revision_str cmdargs :
  guess_vcs cwd isdir fuel path = Returns vcs ->
  vcs = Some "svn" \/ vcs = Some "git-svn" ->
  revision_token stdout_of (if vcs_in vcs ["svn"] then ["svn"] else ["git"; "svn"])
  = Returns (revision_str, cmdargs) ->
  py_int revision_str = None ->
  svn_last_changed_revision cwd isdir stdout_of fuel path
  = Raises (Error ("invalid Subversion revision " +:+ py_repr revision_str
                     +:+ " from `" +:+ PyStr.join " " (map shquote cmdargs) +:+ "`")).
Proof.
  intros Hg Hv Htok Hint. unfold svn_last_changed_revision.
  rewrite Hg. cbn [obind].
  apply vcs_in_supported in Hv as E. rewrite E. cbn [negb].
  destruct Hv as [-> | ->]; cbn in Htok |- *; rewrite Htok; cbn; by rewrite Hint.
Qed.

Lemma svn_last_changed_revision_invalid_token_witness :
  svn_last_changed_revision "/" (fun s => str_eqb s "/p/.svn")
    (fun args => if str_eqb (PyStr.join " " args) "svn info" then "" else "---- rX | me")
    5 "/p"
  = Raises (Error "invalid Subversion revision 'X' from `svn log --incremental --limit 1`").
Proof.
  apply (svn_last_changed_revision_invalid_token
           "/" (fun s => str_eqb s "/p/.svn")
           (fun args => if str_eqb (PyStr.join " " args) "svn info" then ""
                        else "---- rX | me")
           5 "/p" (Some "svn") "X" ["svn"; "log"; "--incremental"; "--limit"; "1"]);
    [reflexivity | left; reflexivity | reflexivity | reflexivity].
Defined.

(** Two matching lines in the [info] output give a text that is not a number. *)
Example two_revision_lines :
  svn_last_changed_revision "/" (fun s => str_eqb s "/p/.svn")
    (fun _ => "Last Changed Rev: 4" +:+ String newline "Last Changed Rev: 2")
    5 "/p"
  = Raises (Error "invalid Subversion revision '4\n2' from `svn info`").
Proof. reflexivity. Qed.

Example good_revision :
  svn_last_changed_revision "/" (fun s => str_eqb s "/p/.svn")
    (fun _ => "URL: x" +:+ String newline "Last Changed Rev: 42") 5 "/p"
  = Returns 42%Z.
Proof. reflexivity. Qed.

(** With fewer than two words in the log output there is no text to read a
    revision from, and the unguarded indexing raises [IndexError]. *)
Example short_log_output :
  svn_last_changed_revision "/" (fun s => str_eqb s "/p/.svn") (fun _ => "") 5 "/p"
  = Raises IndexError.
Proof. reflexivity. Qed.
End VcsFacts.

(** ** Coherent heaps *)
Module CoherenceFacts.
Import PyStr DocGen Coherence.
Local Open Scope docgen_scope.

(** *** Running the monad *)

Lemma bind_returns {A B} (c : M A) (k : A -> M B) h a h1 :
  c h = (Returns a, h1) -> bind c k h = k a h1.
Proof. unfold bind. by intros ->. Qed.

Lemma bind_raises {A B} (c : M A) (k : A -> M B) h e h1 :
  c h = (Raises e, h1) -> bind c k h = (Raises e, h1).
Proof. unfold bind. by intros ->. Qed.

Lemma getobj_some self h o : h !! self = Some o -> getobj self h = (Returns o, h).
Proof. unfold getobj. by intros ->. Qed.

(** *** Objects that keep what they were built from *)

Lemma preserved_refl o : preserved o o.
Proof. by repeat split. Qed.

Lemma preserved_trans o1 o2 o3 : preserved o1 o2 -> preserved o2 o3 -> preserved o1 o3.
Proof.
  intros (K1 & P1 & O1 & I1) (K2 & P2 & O2 & I2).
  repeat split; [congruence..|]. intros v Hv. apply I2, I1, Hv.
Qed.

Lemma ext_refl h : ext h h.
Proof. intros i o H. exists o. split; [done | apply preserved_refl]. Qed.

Lemma ext_trans h1 h2 h3 : ext h1 h2 -> ext h2 h3 -> ext h1 h3.
Proof.
  intros E1 E2 i o H. destruct (E1 i o H) as (o2 & H2 & P2).
  destruct (E2 i o2 H2) as (o3 & H3 & P3). exists o3. split; [done|].
  by eapply preserved_trans.
Qed.

Lemma ext_alloc h o : ext h (h ++ [o]).
Proof.
  intros i oi H. exists oi. split; [|apply preserved_refl].
  by apply lookup_app_l_Some.
Qed.

Lemma ext_alter h i f :
  (forall o, h !! i = Some o -> preserved o (f o)) -> ext h (alter f i h).
Proof.
  intros Hf j o H. destruct (decide (i = j)) as [->|Hne].
  - exists (f o). split; [|by apply Hf].
    by rewrite list_lookup_alter_eq, H.
  - exists o. split; [|apply preserved_refl].
    by rewrite list_lookup_alter_ne.
Qed.

Lemma own_paths_preserved o o' own :
  preserved o o' -> own_paths o own -> own_paths o' own.
Proof.
  intros (K & _ & _ & I). unfold own_paths. rewrite K.
  destruct (obj_kind o); [done | apply I].
Qed.

Lemma lineage_ext h h' p owns : ext h h' -> lineage h p owns -> lineage h' p owns.
Proof.
  intros E L. induction L as [|p o own rest H Hown _ IH]; [constructor|].
  destruct (E p o H) as (o' & H' & P).
  econstructor; [exact H' | by eapply own_paths_preserved |].
  destruct P as (_ & -> & _). exact IH.
Qed.

Lemma is_mod_ext h h' i m : ext h h' -> is_mod h i m -> is_mod h' i m.
Proof.
  intros E (o & H & K). destruct (E i o H) as (o' & H' & (K' & _)).
  exists o'. split; [done | congruence].
Qed.

Lemma child_of_ext h h' p c m : ext h h' -> child_of h p c m -> child_of h' p c m.
Proof.
  intros E (o & H & K & P). destruct (E c o H) as (o' & H' & (K' & P' & _)).
  exists o'. repeat split; [done | congruence | congruence].
Qed.

Lemma top_entry_ext h h' p c part : ext h h' -> top_entry h p c part -> top_entry h' p c part.
Proof.
  intros E (m & Hc & Hpart). exists m. split; [by eapply child_of_ext|].
  destruct (negb _); [done|]. destruct Hpart as (subs & Hsubs & F).
  exists subs. split; [done|].
  eapply Forall2_impl; [exact F|]. intros g x. by apply child_of_ext.
Qed.

Lemma own_paths_unique o own1 own2 : own_paths o own1 -> own_paths o own2 -> own1 = own2.
Proof. unfold own_paths. destruct (obj_kind o); congruence. Qed.

Lemma lineage_unique h p owns1 owns2 :
  lineage h p owns1 -> lineage h p owns2 -> owns1 = owns2.
Proof.
  intros L1. revert owns2. induction L1 as [|p o own rest H Hown _ IH]; intros owns2 L2.
  - by inversion L2.
  - inversion L2 as [|p' o' own' rest' H' Hown' L' E1 E2]; subst.
    assert (o' = o) as -> by congruence.
    f_equal; [by eapply own_paths_unique | by apply IH].
Qed.

Lemma coherent_ext h h' i o : ext h h' -> coherent h i o -> coherent h' i o.
Proof.
  intros E [Cp Ci Ca Cc Cd Ct]. split.
  - intros p Hp. destruct (Cp p Hp) as (Hlt & Hm & op & own & Hop & Hown).
    repeat split; [done..|]. destruct (E p op Hop) as (op' & Hop' & P).
    exists op', own. split; [done | by eapply own_paths_preserved].
  - exact Ci.
  - intros paths Hpaths. destruct (Ca paths Hpaths) as (owns & L & ->).
    exists owns. split; [by eapply lineage_ext | done].
  - intros cs Hcs. specialize (Cc cs Hcs). destruct (obj_kind o).
    + eapply Forall_impl; [exact Cc|]. intros c (m & Hc). exists m.
      by eapply child_of_ext.
    + destruct Cc as (owns & subs & L & Hsubs & F). exists owns, subs.
      repeat split; [by eapply lineage_ext | done |].
      eapply Forall2_impl; [exact F|]. intros c m. by apply child_of_ext.
  - intros ids Hids. destruct (Cd ids Hids) as (m & owns & mods & K & L & Hd & F).
    exists m, owns, mods. repeat split; [done | by eapply lineage_ext | done |].
    eapply Forall2_impl; [exact F|]. intros c x. by apply is_mod_ext.
  - intros ds Hds. destruct (Ct ds Hds) as (cs & parts & F & ->).
    exists cs, parts. split; [|done].
    eapply Forall2_impl; [exact F|]. intros c part. by apply top_entry_ext.
Qed.

(** Changing one object keeps the heap coherent when the object stays so. *)
Lemma wf_alter h i f :
  wf h ->
  (forall o, h !! i = Some o -> preserved o (f o)) ->
  (forall o, h !! i = Some o -> coherent (alter f i h) i (f o)) ->
  wf (alter f i h).
Proof.
  intros W P C j o H. destruct (decide (i = j)) as [->|Hne].
  - rewrite list_lookup_alter_eq in H. destruct (h !! j) as [o0|] eqn:E; [|done].
    cbn in H. inversion H; subst. by apply C.
  - rewrite list_lookup_alter_ne in H by done.
    eapply coherent_ext; [by apply ext_alter | by apply W].
Qed.

Lemma wf_alloc h o :
  wf h -> coherent (h ++ [o]) (length h) o -> wf (h ++ [o]).
Proof.
  intros W C j oj H. destruct (decide (j < length h)) as [Hlt|Hge].
  - rewrite lookup_app_l in H by done.
    eapply coherent_ext; [apply ext_alloc | by apply W].
  - rewrite lookup_app_r in H by lia.
    destruct (j - length h) as [|k] eqn:E; [|by destruct k].
    cbn in H. inversion H; subst. assert (j = length h) as -> by lia. done.
Qed.

(** Every object of a coherent heap has its line of ancestors. *)
Lemma wf_lineage h i o :
  wf h -> h !! i = Some o -> exists owns, lineage h (_parent o) owns.
Proof.
  intros W. revert o. induction (lt_wf i) as [i _ IH]. intros o H.
  destruct (_parent o) as [p|] eqn:Ep; [|exists []; constructor].
  destruct (co_parent _ _ _ (W i o H) p Ep) as (Hlt & _ & op & own & Hop & Hown).
  destruct (IH p Hlt op Hop) as (rest & L).
  exists (own :: rest). by econstructor.
Qed.

End CoherenceFacts.

(** ** The doc-spec properties and their caches *)
Module TreeFacts.
Import PyStr DocGen Coherence CoherenceFacts.
Local Open Scope docgen_scope.

Lemma alter_same (h : heap) i (f : Obj -> Obj) o :
  h !! i = Some o -> f o = o -> alter f i h = h.
Proof.
  intros H Hf. apply list_eq. intros j.
  destruct (decide (i = j)) as [->|Hne].
  - by rewrite list_lookup_alter_eq, H; cbn; rewrite Hf.
  - by rewrite list_lookup_alter_ne.
Qed.

(** *** Filling one cache keeps an object coherent *)

Lemma coherent_set_included h i o v :
  coherent h i o ->
  (exists m, obj_kind o = Mod m /\ Introspect.included_modules_paths m = Ok v) ->
  coherent h i (set_included_modules_paths (Some v) o).
Proof.
  intros [Cp Ci Ca Cc Cd Ct] Hv. split; cbn; try done.
  intros paths [= <-]. exact Hv.
Qed.

Lemma coherent_set_inherited h i o owns :
  coherent h i o -> lineage h (_parent o) owns ->
  coherent h i (set_ancestor_included_modulepaths (Some (concat owns)) o).
Proof.
  intros [Cp Ci Ca Cc Cd Ct] L. split; cbn; try done.
  intros paths [= <-]. by exists owns.
Qed.

Lemma coherent_set_children h i o cs :
  coherent h i o ->
  match obj_kind o with
  | Mod m =>
      exists owns subs,
        lineage h (_parent o) owns
        /\ DocTree.children m (concat owns) = Ok subs
        /\ Forall2 (child_of h i) cs subs
  | Project _ _ _ _ => Forall (fun c => exists m, child_of h i c m) cs
  end ->
  coherent h i (set_children (Some cs) o).
Proof.
  intros [Cp Ci Ca Cc Cd Ct] Hv. split; cbn; try done.
  by intros cs' [= <-].
Qed.

Lemma coherent_set_descendants_included h i o ids :
  coherent h i o ->
  (exists m owns mods,
      obj_kind o = Mod m
      /\ lineage h (_parent o) owns
      /\ DocTree.descendants_included m (concat owns) = Ok mods
      /\ Forall2 (is_mod h) ids mods) ->
  coherent h i (set_descendants_included_modules_docspecs (Some ids) o).
Proof.
  intros [Cp Ci Ca Cc Cd Ct] Hv. split; cbn; try done.
  by intros ids' [= <-].
Qed.

(** *** Reading an object *)

Lemma parent_reads self h o : h !! self = Some o -> parent self h = (Returns (_parent o), h).
Proof. intros H. unfold parent. by rewrite (bind_returns _ _ _ _ _ (getobj_some _ _ _ H)). Qed.

Lemma out_parentdirpath_reads self h o :
  h !! self = Some o -> out_parentdirpath self h = (Returns (_out_dirpath o), h).
Proof.
  intros H. unfold out_parentdirpath.
  by rewrite (bind_returns _ _ _ _ _ (getobj_some _ _ _ H)).
Qed.

Lemma shortname_module self h o m :
  h !! self = Some o -> obj_kind o = Mod m ->
  shortname self h = (Returns (Introspect.name m), h).
Proof.
  intros H K. unfold shortname.
  rewrite (bind_returns _ _ _ _ _ (getobj_some _ _ _ H)). by rewrite K.
Qed.

Lemma name_module self h o m :
  h !! self = Some o -> obj_kind o = Mod m ->
  name self h = (Returns (Introspect.path m), h).
Proof.
  intros H K. unfold name.
  rewrite (bind_returns _ _ _ _ _ (getobj_some _ _ _ H)). by rewrite K.
Qed.

Lemma _module_reads self h o m :
  h !! self = Some o -> obj_kind o = Mod m -> _module self h = (Returns m, h).
Proof.
  intros H K. unfold _module.
  rewrite (bind_returns _ _ _ _ _ (getobj_some _ _ _ H)). by rewrite K.
Qed.

Lemma module_attrnames_module self h o m :
  h !! self = Some o -> obj_kind o = Mod m ->
  module_attrnames self h = (of_result (Introspect.attrnames m), h).
Proof.
  intros H K. unfold module_attrnames.
  by rewrite (bind_returns _ _ _ _ _ (_module_reads _ _ _ _ H K)).
Qed.

(** *** [included_modules_paths] *)

Lemma included_modules_paths_cached self h o own :
  h !! self = Some o -> own_paths o own ->
  included_modules_paths self h = (Returns own, h).
Proof.
  intros H Hown. unfold included_modules_paths.
  rewrite (bind_returns _ _ _ _ _ (getobj_some _ _ _ H)).
  unfold own_paths in Hown. destruct (obj_kind o); [by subst | by rewrite Hown].
Qed.

Lemma included_modules_paths_spec self h o m :
  wf h -> h !! self = Some o -> obj_kind o = Mod m ->
  exists h',
    included_modules_paths self h
    = (of_result (Introspect.included_modules_paths m), h')
    /\ wf h' /\ ext h h'
    /\ forall own, Introspect.included_modules_paths m = Ok own ->
         exists o', h' !! self = Some o' /\ own_paths o' own.
Proof.
  intros W H K. unfold included_modules_paths.
  rewrite (bind_returns _ _ _ _ _ (getobj_some _ _ _ H)). rewrite K.
  destruct (_included_modules_paths o) as [paths|] eqn:Ec.
  - destruct (co_included _ _ _ (W _ _ H) paths Ec) as (m' & K' & Hm).
    assert (m' = m) as -> by congruence.
    exists h. rewrite Hm. split_and!; [done | done | apply ext_refl |].
    intros own [= <-]. exists o. split; [done|]. unfold own_paths. by rewrite K.
  - destruct (Introspect.included_modules_paths m) as [paths|e] eqn:Hm.
    + exists (alter (set_included_modules_paths (Some paths)) self h).
      assert (forall o0, h !! self = Some o0 ->
                preserved o0 (set_included_modules_paths (Some paths) o0)) as P.
      { intros o0 H0. assert (o0 = o) as -> by congruence.
        repeat split; cbn; try done. intros v Hv. congruence. }
      split_and!.
      * unfold bind, lift, setobj, ret. by cbn.
      * apply wf_alter; [done | done |]. intros o0 H0.
        assert (o0 = o) as -> by congruence.
        apply coherent_set_included; [|by exists m].
        eapply coherent_ext; [by apply ext_alter | by apply W].
      * by apply ext_alter.
      * intros own [= <-]. exists (set_included_modules_paths (Some paths) o).
        split; [by rewrite list_lookup_alter_eq, H|].
        unfold own_paths. cbn. by rewrite K.
    + exists h. split_and!; [done | done | apply ext_refl | done].
Qed.

(** *** [_ancestor_included_modulepaths] *)

Lemma set_inherited_same o acc :
  _ancestor_included_modulepaths_ o = Some acc ->
  set_ancestor_included_modulepaths (Some acc) o = o.
Proof. destruct o; cbn. by intros ->. Qed.

(** The loop leaves in [self] the paths it held, followed by the included
    paths of the objects from [ancestor] upwards. *)
Lemma ancestor_loop_spec owns :
  forall fuel self ancestor h o acc,
    lineage h ancestor owns -> length owns <= fuel ->
    h !! self = Some o -> _ancestor_included_modulepaths_ o = Some acc ->
    ancestor_loop fuel self ancestor h
    = (Returns tt,
       alter (set_ancestor_included_modulepaths (Some (acc ++ concat owns))) self h).
Proof.
  induction owns as [|own rest IH]; intros fuel self ancestor h o acc L Hfuel H Hacc.
  - inversion L; subst. cbn [concat]. rewrite app_nil_r.
    rewrite (alter_same h self _ o H (set_inherited_same o acc Hacc)).
    by destruct fuel.
  - inversion L as [|p op own' rest' Hp Hown Lrest]; subst.
    destruct fuel as [|fuel]; [cbn in Hfuel; lia|]. cbn [ancestor_loop].
    rewrite (bind_returns _ _ _ _ _ (included_modules_paths_cached _ _ _ _ Hp Hown)).
    set (F := fun o0 : Obj =>
                set_ancestor_included_modulepaths
                  (Some (default [] (_ancestor_included_modulepaths_ o0) ++ own)) o0).
    assert (ext h (alter F self h)) as E.
    { apply ext_alter. intros o0 _. by split_and!. }
    unfold bind at 1. unfold setobj at 1.
    destruct (E p op Hp) as (op' & Hp' & (_ & Hpar & _)).
    rewrite (bind_returns _ _ _ _ _ (parent_reads _ _ _ Hp')). rewrite Hpar.
    rewrite (IH fuel self (_parent op) (alter F self h) (F o) (acc ++ own)).
    + f_equal. rewrite list_alter_alter_eq. apply list_alter_ext; [|done].
      intros x Hx. assert (x = o) as -> by congruence.
      unfold F. cbn. rewrite Hacc. cbn. by rewrite <- app_assoc.
    + by eapply lineage_ext.
    + cbn in Hfuel. lia.
    + by rewrite list_lookup_alter_eq, H.
    + unfold F. cbn. by rewrite Hacc.
Qed.

Lemma _ancestor_included_modulepaths_spec fuel self h o owns :
  wf h -> h !! self = Some o -> lineage h (_parent o) owns -> length owns <= fuel ->
  exists h',
    _ancestor_included_modulepaths fuel self h = (Returns (concat owns), h')
    /\ wf h' /\ ext h h'.
Proof.
  intros W H L Hfuel. unfold _ancestor_included_modulepaths.
  rewrite (bind_returns _ _ _ _ _ (getobj_some _ _ _ H)).
  destruct (_ancestor_included_modulepaths_ o) as [paths|] eqn:Ec.
  - destruct (co_inherited _ _ _ (W _ _ H) paths Ec) as (owns' & L' & ->).
    rewrite (lineage_unique _ _ _ _ L' L).
    exists h. split_and!; [done | done | apply ext_refl].
  - set (h0 := alter (set_ancestor_included_modulepaths (Some [])) self h).
    assert (ext h h0) as E0 by (apply ext_alter; intros o0 _; by split_and!).
    unfold bind at 1. unfold setobj at 1.
    assert (h0 !! self = Some (set_ancestor_included_modulepaths (Some []) o)) as H0.
    { unfold h0. by rewrite list_lookup_alter_eq, H. }
    rewrite (bind_returns _ _ _ _ _
               (ancestor_loop_spec owns fuel self (_parent o) h0 _ []
                  (lineage_ext _ _ _ _ E0 L) Hfuel H0 eq_refl)).
    cbn [app]. unfold h0. rewrite list_alter_alter_eq.
    set (G := set_ancestor_included_modulepaths (Some (concat owns))
              ∘ set_ancestor_included_modulepaths (Some [])).
    assert (alter G self h !! self = Some (G o)) as HG.
    { by rewrite list_lookup_alter_eq, H. }
    rewrite (bind_returns _ _ _ _ _ (getobj_some _ _ _ HG)).
    exists (alter G self h). split_and!.
    + done.
    + apply wf_alter; [done | intros o0 _; by split_and! |].
      intros o0 H0'. assert (o0 = o) as -> by congruence.
      change (G o) with (set_ancestor_included_modulepaths (Some (concat owns)) o).
      apply coherent_set_inherited.
      * eapply coherent_ext; [|by apply W]. apply ext_alter. intros ? _. by split_and!.
      * eapply lineage_ext; [|exact L]. apply ext_alter. intros ? _. by split_and!.
    + apply ext_alter. intros ? _. by split_and!.
Qed.

(** *** [children] *)

Lemma children_of_ok m inherited subs own :
  Introspect.included_modules_paths m = Ok own ->
  DocTree.children_of m inherited subs = Ok (List.filter (DocTree.kept own inherited) subs).
Proof. intros Hm. unfold DocTree.children_of. rewrite Hm. by destruct subs. Qed.

Lemma coherent_new h o parent m op own :
  obj_kind o = Mod m -> _parent o = Some parent ->
  _children o = None -> _included_modules_paths o = None ->
  _ancestor_included_modulepaths_ o = None ->
  _descendants_included_modules_docspecs o = None ->
  _top_interesting_descendants o = None ->
  h !! parent = Some op -> own_paths op own ->
  coherent (h ++ [o]) (length h) o.
Proof.
  intros K P C1 C2 C3 C4 C5 Hp Hown. split.
  - intros p Hp'. assert (p = parent) as -> by congruence.
    split_and!; [by eapply lookup_lt_Some | by exists m |].
    exists op, own. split; [by apply lookup_app_l_Some | done].
  - intros ? ?; congruence.
  - intros ? ?; congruence.
  - intros ? ?; congruence.
  - intros ? ?; congruence.
  - intros ? ?; congruence.
Qed.

Lemma ModuleDocSpec_spec module out self h op own :
  wf h -> h !! self = Some op -> own_paths op own ->
  exists h',
    ModuleDocSpec module out self h = (Returns (length h), h')
    /\ wf h' /\ ext h h' /\ child_of h' self (length h) module.
Proof.
  intros W H Hown. unfold ModuleDocSpec, alloc.
  set (o := new_obj (Mod module) out (Some self)).
  exists (h ++ [o]). split_and!; [done | | apply ext_alloc |].
  - apply wf_alloc; [done|]. by eapply coherent_new.
  - exists o. split_and!; [|done..].
    rewrite lookup_app_r by lia. by rewrite Nat.sub_diag.
Qed.

Lemma module_children_of_spec fuel self m owns subs :
  forall h o,
    wf h -> h !! self = Some o -> obj_kind o = Mod m ->
    lineage h (_parent o) owns -> length owns <= fuel ->
    exists r h',
      module_children_of fuel self subs h = (r, h') /\ wf h' /\ ext h h'
      /\ match DocTree.children_of m (concat owns) subs with
         | Ok l => exists cs, r = Returns cs /\ Forall2 (child_of h' self) cs l
         | Fail e => r = Raises e
         end.
Proof.
  induction subs as [|module rest IH]; intros h o W H K L Hfuel.
  { exists (Returns []), h. split_and!; [done | done | apply ext_refl |].
    exists []. by split. }
  cbn [module_children_of].
  destruct (included_modules_paths_spec self h o m W H K) as (h1 & R1 & W1 & E1 & Hown).
  destruct (Introspect.included_modules_paths m) as [own|e] eqn:Hm.
  2:{ exists (Raises e), h1. rewrite (bind_raises _ _ _ _ _ R1).
      split_and!; try done. unfold DocTree.children_of. by rewrite Hm. }
  rewrite (bind_returns _ _ _ _ _ R1).
  destruct (Hown own eq_refl) as (o1 & H1 & Hown1).
  destruct (E1 self o H) as (o1' & H1' & (K1 & P1 & _)).
  assert (o1' = o1) as -> by congruence.
  rewrite (children_of_ok _ _ _ _ Hm). cbn [List.filter].
  assert (exists h2,
             (if negb (str_in (Introspect.path module) own)
              then let* inherited := _ancestor_included_modulepaths fuel self in
                   ret (negb (str_in (Introspect.path module) inherited))
              else ret false) h1
             = (Returns (DocTree.kept own (concat owns) module), h2)
             /\ wf h2 /\ ext h1 h2) as (h2 & R2 & W2 & E2).
  { unfold DocTree.kept. destruct (negb (str_in (Introspect.path module) own)).
    - destruct (_ancestor_included_modulepaths_spec fuel self h1 o1 owns W1 H1)
        as (h2 & R2 & W2 & E2); [rewrite P1; by eapply lineage_ext | done |].
      exists h2. by rewrite (bind_returns _ _ _ _ _ R2).
    - exists h1. split_and!; [done | done | apply ext_refl]. }
  rewrite (bind_returns _ _ _ _ _ R2).
  destruct (E2 self o1 H1) as (o2 & H2 & Pres2).
  pose proof (own_paths_preserved _ _ _ Pres2 Hown1) as Hown2.
  destruct Pres2 as (K2 & P2 & _).
  destruct (DocTree.kept own (concat owns) module).
  - rewrite (bind_returns _ _ _ _ _ (out_parentdirpath_reads _ _ _ H2)).
    rewrite (bind_returns _ _ _ _ _ (shortname_module self h2 o2 m H2 ltac:(congruence))).
    destruct (ModuleDocSpec_spec module
                (PosixPath.join (_out_dirpath o2) (Introspect.name m)) self h2 o2 own
                W2 H2 Hown2) as (h3 & R3 & W3 & E3 & Hchild).
    rewrite (bind_returns _ _ _ _ _ R3).
    destruct (E3 self o2 H2) as (o3 & H3 & (K3 & P3 & _)).
    destruct (IH h3 o3 W3 H3 ltac:(congruence)) as (r & h' & R & W' & E' & Hr);
      [ rewrite P3, P2, P1; eapply lineage_ext; [|exact L];
        eauto using ext_trans | done | ].
    rewrite (children_of_ok _ _ _ _ Hm) in Hr. destruct Hr as (cs & -> & F).
    rewrite (bind_returns _ _ _ _ _ R).
    exists (Returns (length h2 :: cs)), h'.
    split_and!; [done | done | eauto using ext_trans |].
    exists (length h2 :: cs). split; [done|]. constructor; [|done].
    by eapply child_of_ext.
  - destruct (IH h2 o2 W2 H2 ltac:(congruence)) as (r & h' & R & W' & E' & Hr);
      [ rewrite P2, P1; eapply lineage_ext; [|exact L]; eauto using ext_trans
      | done | ].
    rewrite (children_of_ok _ _ _ _ Hm) in Hr.
    exists r, h'. split_and!; [done | done | eauto using ext_trans | done].
Qed.

Lemma children_module_spec top_modules fuel self h o m owns :
  wf h -> h !! self = Some o -> obj_kind o = Mod m ->
  lineage h (_parent o) owns -> length owns <= fuel ->
  exists r h',
    children top_modules fuel self h = (r, h') /\ wf h' /\ ext h h'
    /\ match DocTree.children m (concat owns) with
       | Ok subs => exists cs, r = Returns cs /\ Forall2 (child_of h' self) cs subs
       | Fail e => r = Raises e
       end.
Proof.
  intros W H K L Hfuel. unfold children.
  rewrite (bind_returns _ _ _ _ _ (getobj_some _ _ _ H)).
  destruct (_children o) as [cs|] eqn:Ec.
  { pose proof (co_children _ _ _ (W _ _ H) cs Ec) as C. rewrite K in C.
    destruct C as (owns' & subs & L' & Hsubs & F).
    rewrite (lineage_unique _ _ _ _ L' L) in Hsubs. rewrite Hsubs.
    exists (Returns cs), h. split_and!; [done | done | apply ext_refl |].
    by exists cs. }
  rewrite K.
  assert (exists r h1,
             (if Introspect.ispackage m
              then module_children_of fuel self (Introspect.submodules m)
              else ret []) h = (r, h1)
             /\ wf h1 /\ ext h h1
             /\ match DocTree.children m (concat owns) with
                | Ok subs => exists cs, r = Returns cs /\ Forall2 (child_of h1 self) cs subs
                | Fail e => r = Raises e
                end) as (r & h1 & R1 & W1 & E1 & Hr).
  { unfold DocTree.children. destruct (Introspect.ispackage m).
    - by eapply module_children_of_spec.
    - exists (Returns []), h. split_and!; [done | done | apply ext_refl |].
      exists []. by split. }
  destruct (DocTree.children m (concat owns)) as [subs|e] eqn:Hsubs.
  2:{ subst r. exists (Raises e), h1. by rewrite (bind_raises _ _ _ _ _ R1). }
  destruct Hr as (cs & -> & F).
  rewrite (bind_returns _ _ _ _ _ R1).
  destruct (E1 self o H) as (o1 & H1 & (K1 & P1 & _)).
  assert (ext h1 (alter (set_children (Some cs)) self h1)) as E2.
  { apply ext_alter. intros ? _. by split_and!. }
  exists (Returns cs), (alter (set_children (Some cs)) self h1).
  split_and!; [done | | eauto using ext_trans | ].
  - apply wf_alter; [done | intros ? _; by split_and! |].
    intros o0 H0. assert (o0 = o1) as -> by congruence.
    apply coherent_set_children.
    + eapply coherent_ext; [exact E2 | by apply W1].
    + rewrite K1, K. exists owns, subs. split_and!.
      * rewrite P1. eapply lineage_ext; [|exact L]. eauto using ext_trans.
      * done.
      * eapply Forall2_impl; [exact F|]. intros c x. by apply child_of_ext.
  - exists cs. split; [done|].
    eapply Forall2_impl; [exact F|]. intros c x. by apply child_of_ext.
Qed.

(** *** [included_modules_docspecs] *)

Lemma included_modules_docspecs_of_spec self m paths :
  forall h o own,
    wf h -> h !! self = Some o -> own_paths o own ->
    exists ids h',
      included_modules_docspecs_of self m paths h = (Returns ids, h')
      /\ wf h' /\ ext h h'
      /\ Forall2 (child_of h' self) ids (DocTree.resolved m paths).
Proof.
  induction paths as [|path rest IH]; intros h o own W H Hown.
  { exists [], h. split_and!; [done | done | apply ext_refl | constructor]. }
  cbn [included_modules_docspecs_of DocTree.resolved flat_map].
  destruct (Introspect.module_intree m path) as [module| |].
  - rewrite (bind_returns _ _ _ _ _ (out_parentdirpath_reads _ _ _ H)).
    destruct (ModuleDocSpec_spec module (_out_dirpath o) self h o own W H Hown)
      as (h1 & R1 & W1 & E1 & Hchild).
    rewrite (bind_returns _ _ _ _ _ R1).
    destruct (E1 self o H) as (o1 & H1 & Pres).
    destruct (IH h1 o1 own W1 H1 (own_paths_preserved _ _ _ Pres Hown))
      as (ids & h' & R & W' & E' & F).
    rewrite (bind_returns _ _ _ _ _ R).
    exists (length h :: ids), h'.
    split_and!; [done | done | eauto using ext_trans |].
    cbn. constructor; [by eapply child_of_ext | done].
  - by eapply IH.
  - by eapply IH.
Qed.

Lemma included_modules_docspecs_spec self h o m :
  wf h -> h !! self = Some o -> obj_kind o = Mod m ->
  exists r h',
    included_modules_docspecs self h = (r, h') /\ wf h' /\ ext h h'
    /\ match DocTree.included m with
       | Ok mods => exists ids, r = Returns ids /\ Forall2 (child_of h' self) ids mods
       | Fail e => r = Raises e
       end.
Proof.
  intros W H K. unfold included_modules_docspecs.
  rewrite (bind_returns _ _ _ _ _ (getobj_some _ _ _ H)). rewrite K.
  destruct (included_modules_paths_spec self h o m W H K) as (h1 & R1 & W1 & E1 & Hown).
  unfold DocTree.included.
  destruct (Introspect.included_modules_paths m) as [own|e] eqn:Hm.
  2:{ exists (Raises e), h1. by rewrite (bind_raises _ _ _ _ _ R1). }
  rewrite (bind_returns _ _ _ _ _ R1).
  destruct (Hown own eq_refl) as (o1 & H1 & Hown1).
  destruct (included_modules_docspecs_of_spec self m own h1 o1 own W1 H1 Hown1)
    as (ids & h' & R & W' & E' & F).
  exists (Returns ids), h'. split_and!; [done | done | eauto using ext_trans |].
  by exists ids.
Qed.

End TreeFacts.

(** ** [descendants_included_modules_docspecs] *)
Module DescFacts.
Import PyStr DocGen Coherence CoherenceFacts TreeFacts.
Local Open Scope docgen_scope.

Lemma height_submodule m sub :
  In sub (Introspect.submodules m) -> Introspect.height sub < Introspect.height m.
Proof.
  destruct m as [? ? ? ? ? ? ? ? ? ? ? subs]. cbn.
  induction subs as [|x xs IH]; cbn; [done|].
  intros [->|Hin]; [lia|]. specialize (IH Hin). lia.
Qed.

Lemma height_positive m : 1 <= Introspect.height m.
Proof. destruct m. cbn. lia. Qed.

Lemma descendants_included_over_filter below own inherited subs :
  DocTree.descendants_included_over below own inherited subs
  = DocTree.descendants_included_of below
      (List.filter (DocTree.kept own inherited) subs).
Proof.
  induction subs as [|sub rest IH]; [done|].
  cbn [List.filter DocTree.descendants_included_over].
  destruct (DocTree.kept own inherited sub); [|exact IH].
  cbn [DocTree.descendants_included_of]. by rewrite IH.
Qed.

(** [descendants_included] goes through the children, in order. *)
Lemma descendants_included_unfold m inherited :
  DocTree.descendants_included m inherited =
  match DocTree.children m inherited with
  | Ok cs =>
      DocTree.descendants_included_of
        (fun c => DocTree.descendants_included c (DocTree.own_or_nil m ++ inherited)) cs
  | Fail e => Fail e
  end.
Proof.
  destruct m as [p n ispackage ? ? ? ? ? ? incl ? subs].
  unfold DocTree.children, DocTree.children_of, DocTree.own_or_nil.
  cbn [DocTree.descendants_included Introspect.ispackage Introspect.submodules
         Introspect.included_modules_paths].
  destruct ispackage; [|reflexivity].
  destruct subs as [|s0 subs0]; [reflexivity|].
  destruct incl as [own|e]; [|reflexivity]. cbn [rbind].
  apply descendants_included_over_filter.
Qed.

Lemma try_except_returns {A} (c : M A) handler h a h1 :
  c h = (Returns a, h1) -> try_except c handler h = (Returns a, h1).
Proof. unfold try_except. by intros ->. Qed.

Lemma try_except_raises {A} (c : M A) handler h e h1 :
  c h = (Raises e, h1) ->
  try_except c handler h
  = match handler e with Some k => k h1 | None => (Raises e, h1) end.
Proof. unfold try_except. by intros ->. Qed.

Lemma bind_assoc {A B C} (c : M A) (k1 : A -> M B) (k2 : B -> M C) h :
  bind (bind c k1) k2 h = bind c (fun a => bind (k1 a) k2) h.
Proof. unfold bind. by destruct (c h) as [[a|e|] h1]. Qed.

Lemma child_of_is_mod h p c m : child_of h p c m -> is_mod h c m.
Proof. intros (o & H & K & _). by exists o. Qed.

Lemma included_or_nothing_spec child h o m :
  wf h -> h !! child = Some o -> obj_kind o = Mod m ->
  exists r h',
    try_except (included_modules_docspecs child) (except_IOError (ret [])) h = (r, h')
    /\ wf h' /\ ext h h'
    /\ match DocTree.catch_IOError (DocTree.included m) [] with
       | Ok mods => exists ids, r = Returns ids /\ Forall2 (is_mod h') ids mods
       | Fail e => r = Raises e
       end.
Proof.
  intros W H K.
  destruct (included_modules_docspecs_spec child h o m W H K)
    as (r & h' & R & W' & E' & Hr).
  destruct (DocTree.included m) as [mods|e] eqn:Hm.
  - destruct Hr as (ids & -> & F).
    exists (Returns ids), h'. rewrite (try_except_returns _ _ _ _ _ R).
    split_and!; try done. exists ids. split; [done|].
    eapply Forall2_impl; [exact F|]. intros ? ?. apply child_of_is_mod.
  - subst r. rewrite (try_except_raises _ _ _ _ _ R).
    destruct e; cbn;
      try (eexists _, h'; split_and!; [reflexivity | done | done | reflexivity]).
    exists (Returns []), h'. split_and!; try done. by exists [].
Qed.

Lemma per_child_spec top_modules fuel self own owns :
  descendants_included_spec top_modules fuel ->
  forall cs subs h,
    wf h -> Forall2 (child_of h self) cs subs ->
    (forall sub, In sub subs -> S (length owns) + 2 * Introspect.height sub <= fuel) ->
    (cs <> [] -> lineage h (Some self) (own :: owns)) ->
    exists r h',
      mapM (fun child =>
              let* included :=
                try_except (included_modules_docspecs child) (except_IOError (ret [])) in
              let* below :=
                descendants_included_modules_docspecs top_modules fuel child in
              ret (included ++ below))
           cs h = (r, h')
      /\ wf h' /\ ext h h'
      /\ match DocTree.descendants_included_of
                 (fun c => DocTree.descendants_included c (own ++ concat owns)) subs with
         | Ok mods =>
             exists per_child,
               r = Returns per_child /\ Forall2 (is_mod h') (concat per_child) mods
         | Fail e => r = Raises e
         end.
Proof.
  intros IH. induction cs as [|c cs IHcs]; intros subs h W F Hfuel L.
  { inversion F; subst. exists (Returns []), h.
    split_and!; [done | done | apply ext_refl |]. exists []. by split. }
  inversion F as [|c' sub cs' subs' Hc Frest]; subst.
  specialize (L ltac:(done)).
  cbn [mapM DocTree.descendants_included_of].
  destruct Hc as (oc & Hoc & Kc & Pc).
  rewrite !bind_assoc.
  destruct (included_or_nothing_spec c h oc sub W Hoc Kc) as (ra & ha & Ra & Wa & Ea & Hra).
  destruct (DocTree.catch_IOError (DocTree.included sub) []) as [mods_a|e] eqn:Hca.
  2:{ subst ra. exists (Raises e), ha.
      rewrite (bind_raises _ _ _ _ _ Ra). by split_and!. }
  destruct Hra as (ids_a & -> & Fa). cbn [rbind].
  rewrite (bind_returns _ _ _ _ _ Ra). rewrite !bind_assoc.
  destruct (Ea c oc Hoc) as (oca & Hoca & (Kca & Pca & _)).
  destruct (IH c ha oca sub (own :: owns) Wa Hoca ltac:(congruence))
    as (rb & hb & Rb & Wb & Eb & Hrb).
  { rewrite Pca, Pc. by eapply lineage_ext. }
  { cbn [length]. specialize (Hfuel sub (or_introl eq_refl)). lia. }
  cbn [concat] in Hrb.
  destruct (DocTree.descendants_included sub (own ++ concat owns)) as [mods_b|e] eqn:Hdb.
  2:{ subst rb. exists (Raises e), hb.
      rewrite (bind_raises _ _ _ _ _ Rb). cbn [rbind].
      split_and!; eauto using ext_trans. }
  destruct Hrb as (ids_b & -> & Fb). cbn [rbind].
  rewrite (bind_returns _ _ _ _ _ Rb).
  rewrite (bind_returns _ _ _ (ids_a ++ ids_b) hb) by reflexivity.
  destruct (IHcs subs' hb Wb) as (r & h' & R & W' & E' & Hr).
  { eapply Forall2_impl; [exact Frest|]. intros ? ?. apply child_of_ext.
    eauto using ext_trans. }
  { intros s Hs. apply Hfuel. by right. }
  { intros _. eapply lineage_ext; [|exact L]. eauto using ext_trans. }
  destruct (DocTree.descendants_included_of _ subs') as [mods_c|e] eqn:Hdc.
  2:{ subst r. exists (Raises e), h'.
      rewrite (bind_raises _ _ _ _ _ R). cbn [rbind].
      split_and!; eauto using ext_trans. }
  destruct Hr as (per_child & -> & Fc). cbn [rbind].
  exists (Returns ((ids_a ++ ids_b) :: per_child)), h'.
  rewrite (bind_returns _ _ _ _ _ R).
  split_and!; [done | done | eauto using ext_trans |].
  exists ((ids_a ++ ids_b) :: per_child). split; [done|]. cbn [concat].
  apply Forall2_app; [apply Forall2_app|]; [| |done].
  - eapply Forall2_impl; [exact Fa|]. intros ? ?. apply is_mod_ext.
    eauto using ext_trans.
  - eapply Forall2_impl; [exact Fb|]. intros ? ?. by apply is_mod_ext.
Qed.

Lemma children_subset m inherited subs sub :
  DocTree.children m inherited = Ok subs -> In sub subs ->
  In sub (Introspect.submodules m).
Proof.
  unfold DocTree.children, DocTree.children_of.
  destruct (Introspect.ispackage m); [|by intros [= <-]].
  destruct (Introspect.submodules m) as [|s0 l]; [by intros [= <-]|].
  destruct (Introspect.included_modules_paths m); [|done].
  cbn [rbind]. intros [= <-] Hin.
  by apply (List.filter_In _ sub (s0 :: l)) in Hin as [? _].
Qed.

Lemma descendants_included_modules_docspecs_spec top_modules fuel :
  descendants_included_spec top_modules fuel.
Proof.
  induction fuel as [|f IH]; intros self h o m owns W H K L Hfuel.
  { pose proof (height_positive m). lia. }
  cbn [descendants_included_modules_docspecs].
  rewrite (bind_returns _ _ _ _ _ (getobj_some _ _ _ H)). rewrite K.
  destruct (_descendants_included_modules_docspecs o) as [ids|] eqn:Ec.
  { destruct (co_descendants_included _ _ _ (W _ _ H) ids Ec)
      as (m' & owns' & mods & K' & L' & Hd & F).
    assert (m' = m) as -> by congruence.
    rewrite (lineage_unique _ _ _ _ L' L) in Hd. rewrite Hd.
    exists (Returns ids), h. split_and!; [done | done | apply ext_refl |].
    by exists ids. }
  destruct (children_module_spec top_modules (S f) self h o m owns W H K L ltac:(lia))
    as (r1 & h1 & R1 & W1 & E1 & Hr1).
  rewrite descendants_included_unfold.
  destruct (DocTree.children m (concat owns)) as [subs|e] eqn:Hch.
  2:{ subst r1. exists (Raises e), h1. by rewrite (bind_raises _ _ _ _ _ R1). }
  destruct Hr1 as (cs & -> & F1). rewrite (bind_returns _ _ _ _ _ R1).
  destruct (E1 self o H) as (o1 & H1 & (K1 & P1 & _)).
  destruct (per_child_spec top_modules f self (DocTree.own_or_nil m) owns IH
              cs subs h1 W1 F1) as (r2 & h2 & R2 & W2 & E2 & Hr2).
  { intros sub Hin. pose proof (height_submodule m sub (children_subset _ _ _ _ Hch Hin)).
    lia. }
  { intros Hne. destruct F1 as [|c sub cs' subs' Hc _]; [done|].
    destruct Hc as (oc & Hoc & Kc & Pc).
    destruct (co_parent _ _ _ (W1 _ _ Hoc) self Pc) as (_ & _ & op & own & Hop & Hown).
    assert (op = o1) as -> by congruence.
    assert (DocTree.own_or_nil m = own) as ->.
    { unfold own_paths in Hown. rewrite K1, K in Hown.
      destruct (co_included _ _ _ (W1 _ _ H1) own Hown) as (m' & K' & Hm).
      assert (m' = m) as -> by congruence.
      unfold DocTree.own_or_nil. by rewrite Hm. }
    econstructor; [exact H1 | exact Hown |].
    rewrite P1. by eapply lineage_ext. }
  destruct (DocTree.descendants_included_of _ subs) as [mods|e] eqn:Hd.
  2:{ subst r2. exists (Raises e), h2. rewrite (bind_raises _ _ _ _ _ R2).
      split_and!; eauto using ext_trans. }
  destruct Hr2 as (per_child & -> & F2). rewrite (bind_returns _ _ _ _ _ R2).
  set (modules := concat per_child) in *.
  set (h3 := alter (set_descendants_included_modules_docspecs (Some modules)) self h2).
  assert (ext h2 h3) as E3 by (apply ext_alter; intros ? _; by split_and!).
  destruct (E2 self o1 H1) as (o2 & H2 & (K2 & P2 & _)).
  exists (Returns modules), h3. split_and!.
  - done.
  - apply wf_alter; [done | intros ? _; by split_and! |].
    intros o0 H0. assert (o0 = o2) as -> by congruence.
    apply coherent_set_descendants_included.
    + eapply coherent_ext; [exact E3 | by apply W2].
    + exists m, owns, mods. split_and!.
      * congruence.
      * rewrite P2, P1. eapply lineage_ext; [|exact L]. eauto using ext_trans.
      * by rewrite descendants_included_unfold, Hch.
      * eapply Forall2_impl; [exact F2|]. intros ? ?. by apply is_mod_ext.
  - eauto using ext_trans.
  - exists modules. split; [done|].
    eapply Forall2_impl; [exact F2|]. intros ? ?. by apply is_mod_ext.
Qed.

End DescFacts.

(** ** [_should_doc_module_attr] *)
Module FilterFacts.
Import PyStr DocGen Coherence CoherenceFacts TreeFacts DescFacts.
Local Open Scope docgen_scope.

Lemma anyM_included_name self attrname h ids mods :
  Forall2 (child_of h self) ids mods ->
  anyM (fun included_module_docspec =>
          let* p := parent included_module_docspec in
          if bool_decide (p = Some self) then
            let* short := shortname included_module_docspec in
            ret (str_eqb attrname short)
          else ret false)
       ids h
  = (Returns (DocTree.named attrname mods), h).
Proof.
  induction 1 as [|c m cs ms (o & H & K & P) _ IH]; [done|].
  cbn [anyM DocTree.named existsb]. rewrite bind_assoc.
  rewrite (bind_returns _ _ _ _ _ (parent_reads _ _ _ H)), P.
  rewrite bool_decide_eq_true_2 by done.
  rewrite bind_assoc.
  rewrite (bind_returns _ _ _ _ _ (shortname_module _ _ _ _ H K)).
  rewrite (bind_returns _ _ _ (str_eqb attrname (Introspect.name m)) h) by done.
  destruct (str_eqb attrname (Introspect.name m)); [done | exact IH].
Qed.

Lemma anyM_child_name self attrname h cs subs :
  Forall2 (child_of h self) cs subs ->
  anyM (fun child => let* short := shortname child in ret (str_eqb attrname short)) cs h
  = (Returns (DocTree.named attrname subs), h).
Proof.
  induction 1 as [|c m cs ms (o & H & K & P) _ IH]; [done|].
  cbn [anyM DocTree.named existsb]. rewrite bind_assoc.
  rewrite (bind_returns _ _ _ _ _ (shortname_module _ _ _ _ H K)).
  rewrite (bind_returns _ _ _ (str_eqb attrname (Introspect.name m)) h) by done.
  destruct (str_eqb attrname (Introspect.name m)); [done | exact IH].
Qed.

Lemma anyM_defined_in attrname h ids mods :
  Forall2 (is_mod h) ids mods ->
  anyM (fun included_module_docspec =>
          let* names :=
            try_except
              (let* l := module_attrnames included_module_docspec in ret (Some l))
              (except_attrnames (ret None)) in
          match names with
          | None => ret false
          | Some included_module_attrnames =>
              ret (str_in attrname included_module_attrnames)
          end)
       ids h
  = (of_result (DocTree.defined_in attrname mods), h).
Proof.
  induction 1 as [|c m cs ms (o & H & K) _ IH]; [done|].
  cbn [anyM DocTree.defined_in]. rewrite bind_assoc.
  pose proof (module_attrnames_module c h o m H K) as R.
  destruct (Introspect.attrnames m) as [names|e]; cbn [of_result] in R.
  - rewrite (bind_returns _ _ _ (Some names) h).
    2:{ apply try_except_returns. by rewrite (bind_returns _ _ _ _ _ R). }
    rewrite (bind_returns _ _ _ (str_in attrname names) h) by done.
    destruct (str_in attrname names); [done | exact IH].
  - assert (try_except (let* l := module_attrnames c in ret (Some l))
                       (except_attrnames (ret None)) h
            = match except_attrnames (ret None) e with
              | Some k => k h
              | None => (Raises e, h)
              end) as T.
    { apply try_except_raises. by rewrite (bind_raises _ _ _ _ _ R). }
    destruct e; cbn in T;
      first [ by rewrite (bind_raises _ _ _ _ _ T)
            | rewrite (bind_returns _ _ _ _ _ T);
              rewrite (bind_returns _ _ _ false h) by done; exact IH ].
Qed.

Lemma found_spec top_modules fuel self h o m owns :
  wf h -> h !! self = Some o -> obj_kind o = Mod m ->
  lineage h (_parent o) owns ->
  length owns + 2 * Introspect.height m <= fuel ->
  exists r h',
    try_except
      (let* a := included_modules_docspecs self in
       let* b := descendants_included_modules_docspecs top_modules fuel self in
       ret (Some (a, b)))
      (except_IOError (ret None)) h = (r, h')
    /\ wf h' /\ ext h h'
    /\ match DocTree.catch_IOError
               (rbind (DocTree.included m) (fun a =>
                rbind (DocTree.descendants_included m (concat owns)) (fun b =>
                  Ok (Some (a, b)))))
               None with
       | Ok None => r = Returns None
       | Ok (Some (ma, mb)) =>
           exists ia ib,
             r = Returns (Some (ia, ib))
             /\ Forall2 (child_of h' self) ia ma /\ Forall2 (is_mod h') ib mb
       | Fail e => r = Raises e
       end.
Proof.
  intros W H K L Hfuel.
  destruct (included_modules_docspecs_spec self h o m W H K)
    as (ra & ha & Ra & Wa & Ea & Hra).
  destruct (DocTree.included m) as [ma|e] eqn:Hma; cbn [rbind].
  2:{ subst ra. rewrite (try_except_raises _ _ _ _ _ (bind_raises _ _ _ _ _ Ra)).
      destruct e; cbn; try (eexists _, ha; by split_and!). }
  destruct Hra as (ia & -> & Fa).
  destruct (Ea self o H) as (oa & Ha & (Ka & Pa & _)).
  destruct (descendants_included_modules_docspecs_spec top_modules fuel self ha oa m owns
              Wa Ha ltac:(congruence)) as (rb & hb & Rb & Wb & Eb & Hrb);
    [rewrite Pa; by eapply lineage_ext | done |].
  destruct (DocTree.descendants_included m (concat owns)) as [mb|e] eqn:Hmb; cbn [rbind].
  2:{ subst rb.
      assert ((let* a := included_modules_docspecs self in
               let* b := descendants_included_modules_docspecs top_modules fuel self in
               ret (Some (a, b))) h = (Raises e, hb)) as R.
      { rewrite (bind_returns _ _ _ _ _ Ra). by rewrite (bind_raises _ _ _ _ _ Rb). }
      rewrite (try_except_raises _ _ _ _ _ R).
      destruct e; cbn; try (eexists _, hb; split_and!; eauto using ext_trans). }
  destruct Hrb as (ib & -> & Fb).
  exists (Returns (Some (ia, ib))), hb. split_and!.
  - apply try_except_returns. rewrite (bind_returns _ _ _ _ _ Ra).
    by rewrite (bind_returns _ _ _ _ _ Rb).
  - done.
  - eauto using ext_trans.
  - cbn. exists ia, ib. split_and!; [done | | done].
    eapply Forall2_impl; [exact Fa|]. intros ? ?. by apply child_of_ext.
Qed.

Lemma submodule_test_spec top_modules fuel self h o m owns attrname
    (skipped module_isincluded : bool) :
  wf h -> h !! self = Some o -> obj_kind o = Mod m ->
  lineage h (_parent o) owns -> length owns <= fuel ->
  exists h',
    (if skipped then ret false
     else if negb module_isincluded then
       let* cs := children top_modules fuel self in
       let* is_submodule :=
         anyM (fun child => let* short := shortname child in
                            ret (str_eqb attrname short)) cs in
       ret (negb is_submodule)
     else ret true) h
    = (of_result
         (if skipped then Ok false
          else if negb module_isincluded then
            rbind (DocTree.children m (concat owns)) (fun cs =>
              Ok (negb (DocTree.named attrname cs)))
          else Ok true),
       h')
    /\ wf h' /\ ext h h'.
Proof.
  intros W H K L Hfuel.
  destruct skipped; [exists h; split_and!; [done | done | apply ext_refl]|].
  destruct (negb module_isincluded);
    [|exists h; split_and!; [done | done | apply ext_refl]].
  destruct (children_module_spec top_modules fuel self h o m owns W H K L Hfuel)
    as (r & h' & R & W' & E' & Hr).
  exists h'. destruct (DocTree.children m (concat owns)) as [subs|e]; cbn [rbind].
  - destruct Hr as (cs & -> & F). rewrite (bind_returns _ _ _ _ _ R).
    by rewrite (bind_returns _ _ _ _ _ (anyM_child_name self attrname h' cs subs F)).
  - subst r. by rewrite (bind_raises _ _ _ _ _ R).
Qed.

(** In a coherent heap, and with enough turns for the loops, the filter
    returns what the introspection data determine. *)
Lemma _should_doc_module_attr_spec
    top_modules builtins fuel self h o m owns attrname module_isincluded :
  wf h -> h !! self = Some o -> obj_kind o = Mod m ->
  lineage h (_parent o) owns ->
  length owns + 2 * Introspect.height m <= fuel ->
  exists h',
    _should_doc_module_attr top_modules builtins fuel self attrname module_isincluded h
    = (of_result
         (DocTree.should_doc_module_attr builtins m (concat owns) attrname
            module_isincluded),
       h')
    /\ wf h' /\ ext h h'.
Proof.
  intros W H K L Hfuel.
  unfold _should_doc_module_attr, DocTree.should_doc_module_attr.
  rewrite (bind_returns _ _ _ _ _ (name_module _ _ _ _ H K)).
  destruct (str_in attrname builtins);
    [exists h; split_and!; [done | done | apply ext_refl]|].
  destruct (startswith attrname "_");
    [exists h; split_and!; [done | done | apply ext_refl]|].
  destruct (str_eqb attrname "extension");
    [exists h; split_and!; [done | done | apply ext_refl]|].
  destruct (found_spec top_modules fuel self h o m owns W H K L Hfuel)
    as (rf & hf & Rf & Wf & Ef & Hrf).
  destruct (DocTree.catch_IOError _ None) as [found|e] eqn:Hfound; cbn [rbind].
  2:{ subst rf. exists hf. by rewrite (bind_raises _ _ _ _ _ Rf). }
  destruct (Ef self o H) as (o1 & H1 & (K1 & P1 & _)).
  assert (lineage hf (_parent o1) owns) as L1 by (rewrite P1; by eapply lineage_ext).
  assert (obj_kind o1 = Mod m) as K1' by congruence.
  assert (length owns <= fuel) as Hfuel' by lia.
  assert (forall skipped : bool,
             exists h',
               (if skipped then ret false
                else if negb module_isincluded then
                  let* cs := children top_modules fuel self in
                  let* is_submodule :=
                    anyM (fun child => let* short := shortname child in
                                       ret (str_eqb attrname short)) cs in
                  ret (negb is_submodule)
                else ret true) hf
               = (of_result
                    (if skipped then Ok false
                     else if negb module_isincluded then
                       rbind (DocTree.children m (concat owns)) (fun cs =>
                         Ok (negb (DocTree.named attrname cs)))
                     else Ok true),
                  h')
               /\ wf h' /\ ext h h') as Hlast.
  { intros skipped.
    destruct (submodule_test_spec top_modules fuel self hf o1 m owns attrname skipped
                module_isincluded Wf H1 K1' L1 Hfuel') as (h' & R & W' & E').
    exists h'. split_and!; eauto using ext_trans. }
  destruct found as [[ma mb]|].
  - destruct Hrf as (ia & ib & -> & Fa & Fb).
    rewrite (bind_returns _ _ _ _ _ Rf). rewrite bind_assoc.
    rewrite (bind_returns _ _ _ _ _ (anyM_included_name self attrname hf ia ma Fa)).
    destruct (DocTree.named attrname ma).
    + rewrite (bind_returns _ _ _ true hf) by done. cbn [rbind]. apply (Hlast true).
    + assert (Forall2 (is_mod hf) (ia ++ ib) (ma ++ mb)) as Fab.
      { apply Forall2_app; [|done].
        eapply Forall2_impl; [exact Fa|]. intros ? ?. apply child_of_is_mod. }
      pose proof (anyM_defined_in attrname hf _ _ Fab) as Rd.
      destruct (DocTree.defined_in attrname (ma ++ mb)) as [skipped|e]; cbn [rbind].
      * rewrite (bind_returns _ _ _ _ _ Rd). apply Hlast.
      * exists hf. by rewrite (bind_raises _ _ _ _ _ Rd).
  - subst rf. rewrite (bind_returns _ _ _ _ _ Rf).
    rewrite (bind_returns _ _ _ false hf) by done. cbn [rbind]. apply (Hlast false).
Qed.

End FilterFacts.

(** ** The sample project *)
Module SampleFacts.
Import PyStr DocGen Coherence CoherenceFacts TreeFacts.

Lemma wf_nil : wf [].
Proof. intros i o H. by rewrite lookup_nil in H. Qed.

Lemma coherent_fresh_project h k out :
  coherent (h ++ [new_obj k out None]) (length h) (new_obj k out None).
Proof. split; cbn; intros ? ?; congruence. Qed.

Lemma ProjectDocSpec_wf sphinx_project project_dirpath out src_dirnames h :
  wf h ->
  wf (snd (ProjectDocSpec sphinx_project project_dirpath out src_dirnames h)).
Proof. intros W. apply wf_alloc; [done | apply coherent_fresh_project]. Qed.

Lemma wf_heap0 : wf Sample.heap0.
Proof. apply ProjectDocSpec_wf, wf_nil. Qed.

End SampleFacts.

(** ** The children of a project *)
Module ProjectFacts.
Import PyStr DocGen Coherence CoherenceFacts TreeFacts DescFacts FilterFacts SampleFacts.
Local Open Scope docgen_scope.

Lemma new_children_spec self own mods :
  forall h o,
    wf h -> h !! self = Some o -> own_paths o own ->
    exists cs h',
      mapM (fun module =>
              let* out := out_parentdirpath self in
              ModuleDocSpec module out self)
           mods h = (Returns cs, h')
      /\ wf h' /\ ext h h' /\ Forall2 (child_of h' self) cs mods.
Proof.
  induction mods as [|module rest IH]; intros h o W H Hown.
  { exists [], h. split_and!; [done | done | apply ext_refl | constructor]. }
  cbn [mapM]. rewrite bind_assoc.
  rewrite (bind_returns _ _ _ _ _ (out_parentdirpath_reads _ _ _ H)).
  destruct (ModuleDocSpec_spec module (_out_dirpath o) self h o own W H Hown)
    as (h1 & R1 & W1 & E1 & Hchild).
  rewrite (bind_returns _ _ _ _ _ R1).
  destruct (E1 self o H) as (o1 & H1 & Pres).
  destruct (IH h1 o1 W1 H1 (own_paths_preserved _ _ _ Pres Hown))
    as (cs & h' & R & W' & E' & F).
  rewrite (bind_returns _ _ _ _ _ R).
  exists (length h :: cs), h'. split_and!; [done | done | eauto using ext_trans |].
  constructor; [by eapply child_of_ext | done].
Qed.

Lemma children_project_spec top_modules fuel self h o sp src dirs excluded :
  wf h -> h !! self = Some o -> obj_kind o = Project sp src dirs excluded ->
  exists cs h',
    children top_modules fuel self h = (Returns cs, h')
    /\ wf h' /\ ext h h'
    /\ Forall (fun c => exists m, child_of h' self c m) cs
    /\ (_children o = None ->
        Forall2 (child_of h' self) cs
          (concat (map (fun dirname =>
                          top_modules (PosixPath.normpath (PosixPath.join src dirname))
                            excluded)
                       dirs))).
Proof.
  intros W H K. unfold children.
  rewrite (bind_returns _ _ _ _ _ (getobj_some _ _ _ H)).
  destruct (_children o) as [cs|] eqn:Ec.
  { pose proof (co_children _ _ _ (W _ _ H) cs Ec) as C. rewrite K in C.
    exists cs, h. split_and!; [done | done | apply ext_refl | done | done]. }
  rewrite K.
  destruct (new_children_spec self []
              (concat (map (fun dirname =>
                              top_modules (PosixPath.normpath (PosixPath.join src dirname))
                                excluded) dirs)) h o W H)
    as (cs & h1 & R1 & W1 & E1 & F1).
  { unfold own_paths. by rewrite K. }
  rewrite (bind_returns _ _ _ _ _ R1).
  destruct (E1 self o H) as (o1 & H1 & (K1 & P1 & _)).
  remember (alter (set_children (Some cs)) self h1) as h2 eqn:Hh2.
  assert (ext h1 h2) as E2.
  { subst h2. apply ext_alter. intros ? _. by split_and!. }
  assert (Forall2 (child_of h2 self) cs
            (concat (map (fun dirname =>
                            top_modules (PosixPath.normpath (PosixPath.join src dirname))
                              excluded) dirs))) as F2.
  { eapply Forall2_impl; [exact F1|]. intros c x. by apply child_of_ext. }
  assert (Forall (fun c => exists m, child_of h2 self c m) cs) as F3.
  { clear -F2. induction F2 as [|c x cs' xs Hc _ IH]; constructor;
      [by exists x | exact IH]. }
  exists cs, h2.
  split_and!; [by subst h2 | | eauto using ext_trans | done | done].
  subst h2. apply wf_alter; [done | intros ? _; by split_and! |].
  intros o0 H0. assert (o0 = o1) as -> by congruence.
  apply coherent_set_children.
  - eapply coherent_ext; [exact E2 | by apply W1].
  - by rewrite K1, K.
Qed.

Lemma wf_heap1 : wf Sample.heap1.
Proof.
  destruct (children_project_spec Sample.top_modules 5 0 Sample.heap0 _ _ _ _ _
              wf_heap0 eq_refl eq_refl) as (cs & h' & R & W & _).
  unfold Sample.heap1. by rewrite R.
Qed.

Lemma wf_heap2 : wf Sample.heap2.
Proof.
  destruct (children_module_spec Sample.top_modules 5 1 Sample.heap1 _ Sample.pkg [[]]
              wf_heap1 eq_refl eq_refl) as (r & h' & R & W & _).
  - econstructor; [reflexivity | reflexivity | constructor].
  - cbn. lia.
  - unfold Sample.heap2. by rewrite R.
Qed.

End ProjectFacts.

(** ** Claim C9: the attribute filter gives the same decision when run again *)
Module ClaimFilter.
Import PyStr DocGen Coherence CoherenceFacts TreeFacts DescFacts FilterFacts SampleFacts.

(** C9: in a heap whose caches agree with the introspection data, evaluating
    [_should_doc_module_attr] for a module doc-spec and an attribute name,
    and evaluating it again in the heap that the first evaluation leaves
    (with the caches it filled and the objects it created), gives the same
    outcome both times: the decision that the introspection data determine.
    In particular a name accepted once is accepted again.  [fuel] bounds the
    turns of the loops, and the given bound is enough for both runs. *)
Theorem should_doc_module_attr_rerun
    top_modules builtins fuel self h o m owns attrname module_isincluded r1 h1 r2 h2 :
  wf h -> h !! self = Some o -> obj_kind o = Mod m ->
  lineage h (_parent o) owns ->
  length owns + 2 * Introspect.height m <= fuel ->
  _should_doc_module_attr top_modules builtins fuel self attrname module_isincluded h
  = (r1, h1) ->
  _should_doc_module_attr top_modules builtins fuel self attrname module_isincluded h1
  = (r2, h2) ->
  r2 = r1
  /\ r1 = of_result (DocTree.should_doc_module_attr builtins m (concat owns) attrname
                       module_isincluded)
  /\ (r1 = Returns true -> r2 = Returns true).
Proof.
  intros W H K L Hfuel R1 R2.
  destruct (_should_doc_module_attr_spec top_modules builtins fuel self h o m owns
              attrname module_isincluded W H K L Hfuel) as (h' & R & W' & E').
  rewrite R in R1. inversion R1; subst r1 h1. clear R1.
  destruct (E' self o H) as (o' & H' & (K' & P' & _)).
  destruct (_should_doc_module_attr_spec top_modules builtins fuel self h' o' m owns
              attrname module_isincluded W' H' ltac:(congruence))
    as (h'' & R' & _); [rewrite P'; by eapply lineage_ext | done |].
  rewrite R' in R2. inversion R2; subst r2 h2. by split_and!.
Qed.

End ClaimFilter.

Module ClaimFilterWitness.
Import PyStr DocGen Coherence CoherenceFacts TreeFacts DescFacts FilterFacts SampleFacts.
Import ProjectFacts ClaimFilter.

Lemma lineage_heap1_pkg : lineage Sample.heap1 (Some 0) [[]].
Proof. econstructor; [reflexivity | reflexivity | constructor]. Qed.

Lemma heap1_pkg : Sample.heap1 !! 1 = Some (new_obj (Mod Sample.pkg) "doc" (Some 0)).
Proof. vm_compute. reflexivity. Qed.

Lemma should_doc_module_attr_rerun_witness :
  fst Sample.second_run = fst Sample.first_run
  /\ fst Sample.first_run
     = of_result (DocTree.should_doc_module_attr Sample.builtins Sample.pkg (concat [[]])
                    "run" false)
  /\ (fst Sample.first_run = Returns true -> fst Sample.second_run = Returns true).
Proof.
  refine (should_doc_module_attr_rerun Sample.top_modules Sample.builtins 9 1 Sample.heap1
            (new_obj (Mod Sample.pkg) "doc" (Some 0)) Sample.pkg [[]] "run" false
            (fst Sample.first_run) (snd Sample.first_run)
            (fst Sample.second_run) (snd Sample.second_run)
            wf_heap1 heap1_pkg eq_refl lineage_heap1_pkg _ _ _).
  - vm_compute; lia.
  - unfold Sample.first_run; apply surjective_pairing.
  - unfold Sample.second_run; apply surjective_pairing.
Defined.

Example first_run_accepts : fst Sample.first_run = Returns true.
Proof. vm_compute. reflexivity. Qed.

Example second_run_accepts : fst Sample.second_run = Returns true.
Proof. vm_compute. reflexivity. Qed.

(** The first run fills caches and creates objects; the second creates the
    doc-spec of the included module once more. *)
Example the_runs_change_the_heap :
  length Sample.heap1 = 3 /\ length (snd Sample.first_run) = 8
  /\ length (snd Sample.second_run) = 9.
Proof. vm_compute. done. Qed.

End ClaimFilterWitness.

(** ** Claim C2: the children of a package *)
Module ClaimChildren.
Import PyStr DocGen Coherence CoherenceFacts TreeFacts DescFacts SampleFacts ProjectFacts.

Lemma str_in_In x l : str_in x l = true <-> In x l.
Proof.
  unfold str_in. rewrite existsb_exists. split.
  - intros (y & Hy & E). apply String.eqb_eq in E. by subst.
  - intros H. exists x. split; [done | apply String.eqb_refl].
Qed.

Lemma kept_iff own inherited sub :
  DocTree.kept own inherited sub = true
  <-> ~ In (Introspect.path sub) own /\ ~ In (Introspect.path sub) inherited.
Proof.
  unfold DocTree.kept. rewrite andb_true_iff, !negb_true_iff.
  rewrite <- !not_true_iff_false, !str_in_In. done.
Qed.

(** C2: for a package node whose included paths can be read, [children]
    returns doc-specs for exactly the direct submodules (and subpackages)
    whose path is neither among the node's own included paths [own] nor
    among the included paths [owns] of its parent, its grandparent and so
    on up to the project, in the order of the submodules; so no child has
    a path that the node or one of its ancestors includes. *)
Theorem children_are_the_submodules_not_included
    top_modules fuel self h o m owns own r h' :
  wf h -> h !! self = Some o -> obj_kind o = Mod m ->
  Introspect.ispackage m = true ->
  Introspect.included_modules_paths m = Ok own ->
  lineage h (_parent o) owns -> length owns <= fuel ->
  children top_modules fuel self h = (r, h') ->
  exists cs subs,
    r = Returns cs
    /\ Forall2 (child_of h' self) cs subs
    /\ subs = List.filter (DocTree.kept own (concat owns)) (Introspect.submodules m)
    /\ (forall sub,
          In sub subs <->
          In sub (Introspect.submodules m)
          /\ ~ In (Introspect.path sub) own
          /\ forall paths, In paths owns -> ~ In (Introspect.path sub) paths)
    /\ (forall c mc,
          In c cs -> is_mod h' c mc ->
          ~ In (Introspect.path mc) own
          /\ forall paths, In paths owns -> ~ In (Introspect.path mc) paths).
Proof.
  intros W H K Hpkg Hown L Hfuel R.
  destruct (children_module_spec top_modules fuel self h o m owns W H K L Hfuel)
    as (r0 & h0 & R0 & _ & _ & Hr).
  rewrite R0 in R. inversion R; subst r0 h0. clear R.
  unfold DocTree.children in Hr. rewrite Hpkg, (children_of_ok _ _ _ _ Hown) in Hr.
  destruct Hr as (cs & -> & F).
  assert (forall sub,
             In sub (List.filter (DocTree.kept own (concat owns)) (Introspect.submodules m))
             <-> In sub (Introspect.submodules m)
                 /\ ~ In (Introspect.path sub) own
                 /\ forall paths, In paths owns -> ~ In (Introspect.path sub) paths) as Hin.
  { intros sub. rewrite List.filter_In, kept_iff. rewrite in_concat. split.
    - intros (Hs & Ho & Hi). split_and!; [done | done |]. intros paths Hp Hx.
      apply Hi. by exists paths.
    - intros (Hs & Ho & Hi). split_and!; [done | done |].
      intros (paths & Hp & Hx). by apply (Hi paths). }
  exists cs, (List.filter (DocTree.kept own (concat owns)) (Introspect.submodules m)).
  split_and!; [done | done | done | done |].
  intros c mc Hc (oc & Hoc & Kc).
  apply list_elem_of_In, list_elem_of_lookup in Hc as (i & Hi).
  destruct (Forall2_lookup_l _ _ _ _ _ F Hi) as (sub & Hsub & (oc' & Hoc' & Kc' & _)).
  assert (mc = sub) as -> by congruence.
  apply list_elem_of_lookup_2, list_elem_of_In, Hin in Hsub. tauto.
Qed.

Lemma heap1_pkg_object : Sample.heap1 !! 1 = Some (new_obj (Mod Sample.pkg) "doc" (Some 0)).
Proof. vm_compute. reflexivity. Qed.

Lemma heap1_pkg_lineage : lineage Sample.heap1 (Some 0) [[]].
Proof. econstructor; [reflexivity | reflexivity | constructor]. Qed.

Lemma children_are_the_submodules_not_included_witness :
  exists cs subs,
    fst (children Sample.top_modules 5 1 Sample.heap1) = Returns cs
    /\ Forall2 (child_of Sample.heap2 1) cs subs
    /\ subs = List.filter (DocTree.kept ["pkg._core"] (concat [[]]))
                (Introspect.submodules Sample.pkg)
    /\ (forall sub,
          In sub subs <->
          In sub (Introspect.submodules Sample.pkg)
          /\ ~ In (Introspect.path sub) ["pkg._core"]
          /\ forall paths, In paths [[]] -> ~ In (Introspect.path sub) paths)
    /\ (forall c mc,
          In c cs -> is_mod Sample.heap2 c mc ->
          ~ In (Introspect.path mc) ["pkg._core"]
          /\ forall paths, In paths [[]] -> ~ In (Introspect.path mc) paths).
Proof.
  refine (children_are_the_submodules_not_included Sample.top_modules 5 1 Sample.heap1
            (new_obj (Mod Sample.pkg) "doc" (Some 0)) Sample.pkg [[]] ["pkg._core"]
            (fst (children Sample.top_modules 5 1 Sample.heap1)) Sample.heap2
            wf_heap1 heap1_pkg_object eq_refl eq_refl eq_refl heap1_pkg_lineage _ _).
  - vm_compute; lia.
  - unfold Sample.heap2; apply surjective_pairing.
Defined.

Example children_of_pkg :
  fst (children Sample.top_modules 5 1 Sample.heap1) = Returns [3; 4; 5]
  /\ map (fun c => (fun o => match obj_kind o with
                             | Mod m => Introspect.path m
                             | Project _ _ _ _ => ""
                             end) <$> Sample.heap2 !! c) [3; 4; 5]
     = [Some "pkg.index"; Some "pkg.index_"; Some "pkg.sub"].
Proof. vm_compute. done. Qed.

End ClaimChildren.

(** ** Claim C5: the top-level listing of the project *)
Module ClaimInteresting.
Import PyStr DocGen Coherence CoherenceFacts TreeFacts DescFacts SampleFacts ProjectFacts.
Local Open Scope docgen_scope.

Lemma coherent_set_top_interesting h i o ds :
  coherent h i o ->
  (exists cs parts, Forall2 (top_entry h i) cs parts /\ ds = concat parts) ->
  coherent h i (set_top_interesting_descendants (Some ds) o).
Proof.
  intros [Cp Ci Ca Cc Cd Ct] Hv. split; cbn; try done.
  by intros ds' [= <-].
Qed.

Lemma project_has_no_parent h i o sp src dirs excluded :
  wf h -> h !! i = Some o -> obj_kind o = Project sp src dirs excluded ->
  _parent o = None.
Proof.
  intros W H K. destruct (_parent o) as [p|] eqn:Ep; [|done].
  destruct (co_parent _ _ _ (W _ _ H) p Ep) as (_ & (m & Hm) & _). congruence.
Qed.

(** The loop of [top_interesting_descendants] over the children [cs] of
    the project [self]. *)
Lemma top_entries_spec top_modules fuel self :
  forall cs h o sp src dirs excluded,
    wf h -> h !! self = Some o -> obj_kind o = Project sp src dirs excluded ->
    1 <= fuel ->
    Forall (fun c => exists m, child_of h self c m) cs ->
    exists r h',
      mapM (fun child =>
              let* interesting := _descendant_is_interesting self child in
              if interesting then ret [child] else children top_modules fuel child)
           cs h = (r, h')
      /\ wf h' /\ ext h h'
      /\ match r with
         | Returns parts => Forall2 (top_entry h' self) cs parts
         | Raises _ => True
         | Timeout => False
         end.
Proof.
  induction cs as [|c cs IH]; intros h o sp src dirs excluded W H K Hfuel F.
  { exists (Returns []), h. split_and!; [done | done | apply ext_refl | constructor]. }
  inversion F as [|c' cs' (m & Hchild) Frest]; subst.
  pose proof Hchild as (oc & Hoc & Kc & Pc).
  cbn [mapM]. rewrite bind_assoc. unfold _descendant_is_interesting at 1.
  rewrite bind_assoc.
  rewrite (bind_returns _ _ _ _ _ (name_module _ _ _ _ Hoc Kc)).
  rewrite (bind_returns _ _ _ (negb (str_eqb (Introspect.path m) "nisavid")) h) by done.
  assert (exists r1 h1,
             (if negb (str_eqb (Introspect.path m) "nisavid")
              then ret [c] else children top_modules fuel c) h = (r1, h1)
             /\ wf h1 /\ ext h h1
             /\ match r1 with
                | Returns part => top_entry h1 self c part
                | Raises _ => True
                | Timeout => False
                end) as (r1 & h1 & R1 & W1 & E1 & Hr1).
  { destruct (negb (str_eqb (Introspect.path m) "nisavid")) eqn:Ei.
    - exists (Returns [c]), h. split_and!; [done | done | apply ext_refl |].
      exists m. split; [done|]. by rewrite Ei.
    - destruct (children_module_spec top_modules fuel c h oc m [[]] W Hoc Kc)
        as (r1 & h1 & R1 & W1 & E1 & Hr1).
      { rewrite Pc. econstructor; [exact H | by unfold own_paths; rewrite K |].
        rewrite (project_has_no_parent _ _ _ _ _ _ _ W H K). constructor. }
      { cbn. lia. }
      exists r1, h1. split_and!; [done | done | done |].
      cbn [concat app] in Hr1.
      destruct (DocTree.children m []) as [subs|e] eqn:Hsubs.
      + destruct Hr1 as (part & -> & Fp). exists m.
        split; [by eapply child_of_ext|]. rewrite Ei. by exists subs.
      + by subst r1. }
  destruct r1 as [part|e|]; [| |done].
  2:{ exists (Raises e), h1. rewrite (bind_raises _ _ _ _ _ R1). by split_and!. }
  rewrite (bind_returns _ _ _ _ _ R1).
  destruct (E1 self o H) as (o1 & H1 & (K1 & _)).
  destruct (IH h1 o1 sp src dirs excluded W1 H1 ltac:(congruence) Hfuel)
    as (r & h' & R & W' & E' & Hr).
  { eapply Forall_impl; [exact Frest|]. intros x (mx & Hx). exists mx.
    by eapply child_of_ext. }
  destruct r as [parts|e|]; [| |done].
  - exists (Returns (part :: parts)), h'. rewrite (bind_returns _ _ _ _ _ R).
    split_and!; [done | done | eauto using ext_trans |].
    constructor; [by eapply top_entry_ext | done].
  - exists (Raises e), h'. rewrite (bind_raises _ _ _ _ _ R).
    split_and!; eauto using ext_trans.
Qed.

Lemma top_interesting_descendants_spec top_modules fuel self h o sp src dirs excluded :
  wf h -> h !! self = Some o -> obj_kind o = Project sp src dirs excluded ->
  1 <= fuel ->
  exists r h',
    top_interesting_descendants top_modules fuel self h = (r, h')
    /\ wf h' /\ ext h h'
    /\ match r with
       | Returns ds =>
           exists cs parts, Forall2 (top_entry h' self) cs parts /\ ds = concat parts
       | Raises _ => True
       | Timeout => False
       end.
Proof.
  intros W H K Hfuel. unfold top_interesting_descendants.
  rewrite (bind_returns _ _ _ _ _ (getobj_some _ _ _ H)).
  destruct (_top_interesting_descendants o) as [ds|] eqn:Ec.
  { exists (Returns ds), h. split_and!; [done | done | apply ext_refl |].
    exact (co_top_interesting _ _ _ (W _ _ H) ds Ec). }
  destruct (children_project_spec top_modules fuel self h o sp src dirs excluded W H K)
    as (cs & h1 & R1 & W1 & E1 & F1 & _).
  rewrite (bind_returns _ _ _ _ _ R1).
  destruct (E1 self o H) as (o1 & H1 & (K1 & _)).
  destruct (top_entries_spec top_modules fuel self cs h1 o1 sp src dirs excluded
              W1 H1 ltac:(congruence) Hfuel F1) as (r & h2 & R2 & W2 & E2 & Hr).
  destruct r as [parts|e|]; [| |done].
  2:{ exists (Raises e), h2. rewrite (bind_raises _ _ _ _ _ R2).
      split_and!; eauto using ext_trans. }
  rewrite (bind_returns _ _ _ _ _ R2).
  remember (alter (set_top_interesting_descendants (Some (concat parts))) self h2)
    as h3 eqn:Hh3.
  assert (ext h2 h3) as E3.
  { subst h3. apply ext_alter. intros ? _. by split_and!. }
  assert (Forall2 (top_entry h3 self) cs parts) as F3.
  { eapply Forall2_impl; [exact Hr|]. intros ? ?. by apply top_entry_ext. }
  destruct (E2 self o1 H1) as (o2 & H2 & _).
  exists (Returns (concat parts)), h3.
  split_and!; [by subst h3 | | eauto using ext_trans | by exists cs, parts].
  subst h3. apply wf_alter; [done | intros ? _; by split_and! |].
  intros o0 H0. assert (o0 = o2) as -> by congruence.
  apply coherent_set_top_interesting.
  - eapply coherent_ext; [exact E3 | by apply W2].
  - by exists cs, parts.
Qed.

Lemma in_parts {A B} (P : A -> list B -> Prop) cs parts d :
  Forall2 P cs parts -> In d (concat parts) ->
  exists c part, In c cs /\ P c part /\ In d part.
Proof.
  induction 1 as [|c part cs parts Hc _ IH]; cbn; [done|].
  rewrite in_app_iff. intros [Hd|Hd].
  - exists c, part. split_and!; [by left | done | done].
  - destruct (IH Hd) as (c' & part' & Hc' & HP & Hd'). exists c', part'.
    split_and!; [by right | done | done].
Qed.

Lemma in_children {A} (P : nat -> A -> Prop) part subs d :
  Forall2 P part subs -> In d part -> exists sub, In sub subs /\ P d sub.
Proof.
  induction 1 as [|c sub part subs Hc _ IH]; cbn; [done|].
  intros [<-|Hd].
  - exists sub. split; [by left | done].
  - destruct (IH Hd) as (sub' & Hs & HP). exists sub'. split; [by right | done].
Qed.


Lemma heap1_project :
  Sample.heap1 !! 0
  = Some (set_children (Some [1; 2])
            (new_obj (Project (Some "spruce-demo") "." ["."] []) "doc" None)).
Proof. vm_compute. reflexivity. Qed.


(** In the sample project the listing holds [pkg] (object 1) and the child
    of [nisavid] (object 3), not [nisavid] itself (object 2). *)
Example top_interesting_descendants_of_the_sample :
  fst (top_interesting_descendants Sample.top_modules 5 0 Sample.heap1)
  = Returns [1; 3].
Proof. vm_compute. reflexivity. Qed.

(** [interesting_descendants], which nothing calls, reads a property that
    module doc-specs do not have. *)
Example interesting_descendants_of_the_sample :
  fst (interesting_descendants Sample.top_modules 5 0 Sample.heap1)
  = Raises AttributeError.
Proof. vm_compute. reflexivity. Qed.

End ClaimInteresting.

(** ** Claim C8: heading lines *)
Module ClaimHeading.
Import PyStr DocGen.

Lemma repeat_char_length c n : String.length (repeat_char c n) = n.
Proof. induction n as [|n IH]; cbn; [done | by rewrite IH]. Qed.

(** C8: for every heading text and every nesting depth that the assertion
    of [_rest_heading_lines] admits (1 and above), the call returns the
    overline, the text and the underline, where the two lines are the same
    run of the depth's character and have exactly as many characters as the
    text. *)
Theorem rest_heading_lines_length text level :
  (1 <= level)%Z ->
  exists line,
    _rest_heading_lines text level = Returns [line; text; line]
    /\ line = repeat_char (heading_char level) (String.length text)
    /\ String.length line = String.length text.
Proof.
  intros Hlevel. unfold _rest_heading_lines.
  destruct (Z.ltb_spec level 1) as [Hlt|_]; [lia|].
  eexists. split_and!; [reflexivity | reflexivity | apply repeat_char_length].
Qed.

Lemma rest_heading_lines_length_witness :
  exists line,
    _rest_heading_lines "Submodules" 2 = Returns [line; "Submodules"; line]
    /\ line = repeat_char (heading_char 2) (String.length "Submodules")
    /\ String.length line = String.length "Submodules".
Proof. apply (rest_heading_lines_length "Submodules" 2). lia. Defined.

Example heading_level_2 :
  _rest_heading_lines "Submodules" 2 = Returns ["**********"; "Submodules"; "**********"].
Proof. reflexivity. Qed.

Example heading_level_9 : _rest_heading_lines "ab" 9 = Returns ["++"; "ab"; "++"].
Proof. reflexivity. Qed.

Example heading_level_0 : _rest_heading_lines "ab" 0 = Raises AssertionError.
Proof. reflexivity. Qed.

End ClaimHeading.

(** ** Claim C6: the pretend mode *)
Module ClaimPretend.
Import PyStr DocGen Rendering.

Lemma print_nothing w : print_stdout [] w = w.
Proof. destruct w. unfold print_stdout. cbn. by rewrite app_nil_r. Qed.

Lemma print_print a b w : print_stdout b (print_stdout a w) = print_stdout (a ++ b) w.
Proof. unfold print_stdout. cbn. by rewrite app_assoc. Qed.

Lemma files_print printed w : files (print_stdout printed w) = files w.
Proof. reflexivity. Qed.

Lemma emit_pretend compose target h :
  match compose h with
  | (Returns output, h1) => only_prints (emit compose target true) h (Returns tt) h1 output
  | (Raises e, h1) => only_prints (emit compose target true) h (Raises e) h1 []
  | (Timeout, h1) => only_prints (emit compose target true) h Timeout h1 []
  end.
Proof.
  unfold only_prints, emit.
  destruct (compose h) as [[output|e|] h1]; intros w; by rewrite ?print_nothing.
Qed.

Section Run.
Variable cwd : string.
Variable top_modules : string -> list string -> list Introspect.Module.
Variable builtins : list string.
Variable split_blocks : string -> list string.
Variable fuel : nat.

Local Abbreviation module_rest := (_generate_module_rest cwd top_modules builtins split_blocks fuel).
Local Abbreviation page_of := (module_page top_modules builtins split_blocks fuel).
Local Abbreviation toplevel_rest := (_generate_project_toplevel_rest top_modules fuel).
Local Abbreviation loop := (generate_descendants cwd top_modules builtins split_blocks fuel).
Local Abbreviation pages := (prints_pages top_modules builtins split_blocks fuel).
Local Abbreviation project_rests := (_generate_project_rests cwd top_modules builtins split_blocks fuel).

(** A module's page in the dry run: the banner, the page and the closing
    rule go to the standard output, when the page can be composed. *)
Lemma module_rest_pretend d h :
  exists r h' printed,
    only_prints (module_rest d true) h r h' printed
    /\ (r = Returns tt ->
        exists n h1 page,
          name d h = (Returns n, h1)
          /\ page_of d h1 = (Returns page, h')
          /\ printed = banner_of n ++ page ++ ["----"; ""]).
Proof.
  unfold _generate_module_rest.
  pose proof (emit_pretend (module_output top_modules builtins split_blocks fuel d true)
                (out_filepath cwd top_modules fuel d) h) as He.
  revert He. unfold module_output, pretend_banner, bind, ret.
  destruct (name d h) as [[n|e|] h1] eqn:En.
  - destruct (page_of d h1) as [[page|e|] h2] eqn:Ep; intros He.
    + eexists _, _, _. split; [exact He|]. intros _. by eexists _, _, _.
    + eexists _, _, _. split; [exact He|]. done.
    + eexists _, _, _. split; [exact He|]. done.
  - intros He. eexists _, _, _. split; [exact He|]. done.
  - intros He. eexists _, _, _. split; [exact He|]. done.
Qed.

(** The same page without the dry run: the file at [out_filepath] receives
    the page alone, and the standard output nothing. *)
Lemma module_rest_writes d h page h1 path h2 w :
  page_of d h = (Returns page, h1) ->
  out_filepath cwd top_modules fuel d h1 = (Returns path, h2) ->
  module_rest d false h w = (Returns tt, h2, write_file path page w).
Proof.
  intros Hp Ho. unfold _generate_module_rest, emit, module_output, bind, ret.
  rewrite Hp, Ho. cbn. by rewrite app_nil_r.
Qed.

Lemma loop_pretend ds : forall h,
  exists r h' printed,
    only_prints (loop true ds) h r h' printed
    /\ (r = Returns tt -> pages ds h printed h').
Proof.
  induction ds as [|d ds IH]; intros h.
  - exists (Returns tt), h, []. split; [|intros _; constructor].
    intros w. cbn. by rewrite print_nothing.
  - cbn [generate_descendants]. unfold only_prints.
    destruct (skip d h) as [[[|]|e|] h1] eqn:Es.
    + destruct (IH h1) as (r & h' & printed & Hrun & Hpages).
      exists r, h', printed. split; [exact Hrun|].
      intros Hr. eapply prints_skipped; eauto.
    + destruct (module_rest_pretend d h1) as (r1 & h2 & out1 & Hrun1 & Hpage).
      destruct r1 as [[]|e|].
      * destruct (IH h2) as (r & h' & printed & Hrun & Hpages).
        destruct (Hpage eq_refl) as (n & h1' & page & Hn & Hp & ->).
        exists r, h', ((banner_of n ++ page ++ ["----"; ""]) ++ printed). split.
        -- intros w. rewrite Hrun1, Hrun. by rewrite print_print.
        -- intros Hr. rewrite <- !app_assoc.
           eapply prints_page; eauto.
      * exists (Raises e), h2, out1. split; [|done]. intros w. by rewrite Hrun1.
      * exists Timeout, h2, out1. split; [|done]. intros w. by rewrite Hrun1.
    + exists (Raises e), h1, []. split; [|done]. intros w. by rewrite print_nothing.
    + exists Timeout, h1, []. split; [|done]. intros w. by rewrite print_nothing.
Qed.

Lemma project_rests_pretend docspec h :
  exists r h' printed,
    only_prints (project_rests docspec true) h r h' printed
    /\ (r = Returns tt ->
        exists top h1 ds h2 rest,
          project_toplevel_output top_modules fuel docspec h = (Returns top, h1)
          /\ descendants top_modules fuel docspec h1 = (Returns ds, h2)
          /\ pages ds h2 rest h'
          /\ printed = top ++ rest).
Proof.
  unfold _generate_project_rests, _generate_project_toplevel_rest, only_prints.
  pose proof (emit_pretend (project_toplevel_output top_modules fuel docspec)
     (fun h => bind (out_parentdirpath docspec)
                 (fun out => ret (PosixPath.join out "index.rst")) h) h) as He.
  destruct (project_toplevel_output top_modules fuel docspec h) as [[top|e|] h1] eqn:Et.
  - destruct (descendants top_modules fuel docspec h1) as [[ds|e|] h2] eqn:Ed.
    + destruct (loop_pretend ds h2) as (r & h' & rest & Hrun & Hpages).
      exists r, h', (top ++ rest). split.
      * intros w. rewrite He. cbn. rewrite Ed, Hrun. by rewrite print_print.
      * intros Hr. eexists _, _, _, _, _. split_and!; eauto.
    + exists (Raises e), h2, top. split; [|done]. intros w. rewrite He. cbn. by rewrite Ed.
    + exists Timeout, h2, top. split; [|done]. intros w. rewrite He. cbn. by rewrite Ed.
  - exists (Raises e), h1, []. split; [|done]. intros w. by rewrite He.
  - exists Timeout, h1, []. split; [|done]. intros w. by rewrite He.
Qed.


End Run.


Example pretend_run_returns : fst (fst Sample.pretend_run) = Returns tt.
Proof. vm_compute. reflexivity. Qed.

Example pretend_run_files : files (snd Sample.pretend_run) = ∅.
Proof. vm_compute. reflexivity. Qed.

Example pretend_run_banners :
  filter (fun line => bool_decide (line = "----")) (stdout (snd Sample.pretend_run))
  = replicate 14 "----".
Proof. vm_compute. reflexivity. Qed.

Example writing_run_prints_nothing : stdout (snd Sample.writing_run) = [].
Proof. vm_compute. reflexivity. Qed.

End ClaimPretend.

(** ** Claim C1: the output paths of sibling modules *)
Module ClaimOutPath.
Import PyStr DocGen.

(** C1: in the sample project the package [pkg] has the two leaf modules
    [pkg.index] and [pkg.index_]; they are the distinct doc-specs 3 and 4,
    children of the same doc-spec, and [out_filepath] gives both the same
    path: the suffix added to the leaf named [index] makes it the name of
    its sibling. *)
Theorem out_filepath_of_index_and_index_ :
  fst (name 3 Sample.heap2) = Returns "pkg.index"
  /\ fst (name 4 Sample.heap2) = Returns "pkg.index_"
  /\ fst (parent 3 Sample.heap2) = Returns (Some 1)
  /\ fst (parent 4 Sample.heap2) = Returns (Some 1)
  /\ fst (reldocpath Sample.top_modules 9 3 Sample.heap2) = Returns "index_"
  /\ fst (reldocpath Sample.top_modules 9 4 Sample.heap2) = Returns "index_"
  /\ fst (out_filepath Sample.cwd Sample.top_modules 9 3 Sample.heap2)
     = Returns "doc/pkg/index_.rst"
  /\ fst (out_filepath Sample.cwd Sample.top_modules 9 4 Sample.heap2)
     = Returns "doc/pkg/index_.rst".
Proof. vm_compute. by split_and!. Qed.

(** The run that writes files goes through seven modules and the top-level
    page, and leaves seven files. *)
Example writing_run_returns : fst (fst Sample.writing_run) = Returns tt.
Proof. vm_compute. reflexivity. Qed.

Example writing_run_descendants :
  fst (descendants Sample.top_modules 9 0 (snd (fst Sample.writing_run)))
  = Returns [1; 4; 5; 6; 7; 2; 3].
Proof. vm_compute. reflexivity. Qed.

Example writing_run_files : size (files (snd Sample.writing_run)) = 7.
Proof. vm_compute. reflexivity. Qed.

(** The file that the two modules share holds the page of [pkg.index_],
    written last; the page of [pkg.index] is lost. *)
Example writing_run_shared_file :
  files (snd Sample.writing_run) !! "doc/pkg/index_.rst"
  = Some [".. highlight:: python"; "   :linenothreshold: 5"; "";
          "##########"; "pkg.index_"; "##########";
          ".. automodule:: pkg.index_"; ""; ""].
Proof. vm_compute. reflexivity. Qed.

End ClaimOutPath.

(** ** More of [spruce/project/vcs.py] *)
Module VcsMore.
Import PyStr PosixPath Vcs PathFacts VcsFacts.

Lemma find_none_not {A} (f : A -> bool) l x :
  List.find f l = None -> In x l -> f x = false.
Proof.
  intros Hf Hin. destruct (f x) eqn:E; [|done].
  pose proof (List.find_none f l Hf x Hin). congruence.
Qed.

(** X1: for every path whose absolute form does not begin with exactly two
    slashes, [git_topdir] returns within as many turns of its loop as that
    form has characters, and what it returns is the first of the tested
    paths (the absolute path, then one parent after the other, the root
    last) that holds a [.git] directory, or [None] when none does. *)
Theorem git_topdir_nearest cwd isdir fuel path :
  initial_slashes (if isabs path then path else PosixPath.join cwd path) = 1 ->
  String.length (abspath cwd path) <= fuel ->
  git_topdir cwd isdir fuel path
  = Returns (List.find (fun t => isdir (PosixPath.join t ".git"))
               (ancestry (String.length (abspath cwd path)) (abspath cwd path))).
Proof.
  intros Hroot Hfuel. unfold git_topdir.
  apply git_topdir_loop_returns; [|exact Hfuel].
  by apply normpath_single_root.
Qed.

Lemma git_topdir_nearest_witness :
  git_topdir "/home/me" (fun s => str_eqb s "/home/.git") 20 "proj/src"
  = Returns (List.find (fun t => (fun s => str_eqb s "/home/.git") (PosixPath.join t ".git"))
               (ancestry (String.length (abspath "/home/me" "proj/src"))
                  (abspath "/home/me" "proj/src"))).
Proof.
  apply (git_topdir_nearest "/home/me" (fun s => str_eqb s "/home/.git") 20 "proj/src").
  - reflexivity.
  - vm_compute. lia.
Defined.

Example ancestry_of_a_path :
  ancestry 20 (abspath "/home/me" "proj/src")
  = ["/home/me/proj/src"; "/home/me/proj"; "/home/me"; "/home"; "/"].
Proof. reflexivity. Qed.

Example git_topdir_of_a_path :
  git_topdir "/home/me" (fun s => str_eqb s "/home/.git") 20 "proj/src"
  = Returns (Some "/home").
Proof. reflexivity. Qed.

(** X2: whatever the path and the number of turns, a directory that
    [git_topdir] returns holds a [.git] directory, and [git_topdir] returns
    [None] only after it has tested the root and found no [/.git]. *)
Theorem git_topdir_sound cwd isdir fuel path r :
  git_topdir cwd isdir fuel path = Returns r ->
  match r with
  | Some topdir => isdir (PosixPath.join topdir ".git") = true
  | None => isdir "/.git" = false
  end.
Proof.
  unfold git_topdir. rewrite git_topdir_loop_spec.
  destruct (List.find _ _) as [t|] eqn:Ef.
  - intros [= <-]. by apply List.find_some in Ef as [_ Ht].
  - destruct (existsb _ _) eqn:Ex; [|discriminate]. intros [= <-].
    apply existsb_exists in Ex as (t & Hin & Ht).
    apply String.eqb_eq in Ht. subst t.
    exact (find_none_not _ _ "/" Ef Hin).
Qed.

Lemma git_topdir_sound_witness :
  str_eqb (PosixPath.join "/home" ".git") "/home/.git" = true.
Proof.
  exact (git_topdir_sound "/home/me" (fun s => str_eqb s "/home/.git") 20 "proj/src"
           (Some "/home") eq_refl).
Defined.

(** X3: whatever [guess_vcs] returns other than [None] is one of [SYSTEMS],
    and [vcs_name] has a full name for it: the lookup in [vcs_name] never
    fails on a system that [guess_vcs] has detected. *)
Theorem guess_vcs_names_a_system cwd isdir fuel path v :
  guess_vcs cwd isdir fuel path = Returns (Some v) ->
  In v SYSTEMS /\ exists full, vcs_name v = Returns full.
Proof.
  unfold guess_vcs.
  destruct (isdir (path +:+ "/.svn")).
  { intros [= <-]. split; [cbn; tauto | by eexists]. }
  destruct (git_topdir cwd isdir fuel path) as [[t|]|e|]; cbn [obind]; try discriminate.
  destruct (isdir (t +:+ "/.git/svn")); intros [= <-];
    (split; [cbn; tauto | by eexists]).
Qed.

Lemma guess_vcs_names_a_system_witness :
  In "git-svn" SYSTEMS /\ exists full, vcs_name "git-svn" = Returns full.
Proof.
  exact (guess_vcs_names_a_system "/home/me"
           (fun s => str_eqb s "/home/.git" || str_eqb s "/home/.git/svn")
           20 "proj/src" "git-svn" eq_refl).
Defined.

(** [vcs_name] on a name outside [SYSTEMS]: the dictionary lookup fails. *)
Example vcs_name_unknown : vcs_name "hg" = Raises OtherException.
Proof. reflexivity. Qed.



(** *** Reading the revision *)

Lemma digit_not_space c : is_digit c = true -> is_space c = false.
Proof.
  unfold is_digit, is_space. intros [H1 H2]%andb_true_iff.
  apply Nat.leb_le in H1. apply Nat.leb_le in H2.
  apply orb_false_iff. split.
  - apply Nat.eqb_neq. lia.
  - apply andb_false_iff. right. apply Nat.leb_gt. lia.
Qed.

Lemma digit_not_sign c :
  is_digit c = true -> ascii_eqb c "-" = false /\ ascii_eqb c "+" = false.
Proof.
  unfold is_digit, ascii_eqb. intros [H1 H2]%andb_true_iff.
  apply Nat.leb_le in H1.
  split; apply Ascii.eqb_neq; intros ->; vm_compute in H1; lia.
Qed.

Local Abbreviation all_digits s := (filter_chars is_digit s%string = s%string).

Lemma filter_chars_length f s : String.length (filter_chars f s) <= String.length s.
Proof. induction s as [|c r IH]; cbn; [lia|]. destruct (f c); cbn; lia. Qed.

Lemma filter_chars_digits s : all_digits (filter_chars is_digit s).
Proof.
  induction s as [|c r IH]; cbn; [done|].
  destruct (is_digit c) eqn:E; [|done]. cbn. by rewrite E, IH.
Qed.

Lemma all_digits_cons c r :
  all_digits (String c r) -> is_digit c = true /\ all_digits r.
Proof.
  cbn. destruct (is_digit c) eqn:E.
  - intros [= H]. by split.
  - intros H. pose proof (filter_chars_length is_digit r) as Hl.
    rewrite H in Hl. cbn in Hl. lia.
Qed.

Lemma rstrip_digits_line s :
  all_digits s -> rstrip (s +:+ String newline EmptyString) = s.
Proof.
  induction s as [|c r IH]; intros H; [reflexivity|].
  apply all_digits_cons in H as [Hc Hr].
  cbn [String.append rstrip]. rewrite (IH Hr), (digit_not_space c Hc).
  by destruct r.
Qed.

Lemma rstrip_digits s : all_digits s -> rstrip s = s.
Proof.
  induction s as [|c r IH]; intros H; [reflexivity|].
  apply all_digits_cons in H as [Hc Hr].
  cbn [rstrip]. rewrite (IH Hr), (digit_not_space c Hc).
  by destruct r.
Qed.

Lemma lstrip_digits s t : all_digits s -> s <> "" -> lstrip (s +:+ t) = s +:+ t.
Proof.
  destruct s as [|c r]; [done|]. intros [Hc _]%all_digits_cons _.
  cbn. by rewrite (digit_not_space c Hc).
Qed.

Lemma digits_value_digits s : forall acc,
  all_digits s -> (0 <= acc)%Z ->
  exists n, digits_value acc s = Some n /\ (0 <= n)%Z.
Proof.
  induction s as [|c r IH]; intros acc H Hacc; [by exists acc|].
  apply all_digits_cons in H as [Hc Hr]. cbn. rewrite Hc.
  apply IH; [done|lia].
Qed.

Lemma py_int_digits s :
  all_digits s -> s <> "" -> py_int s = digits_value 0 s.
Proof.
  intros H Hne. unfold py_int, strip.
  replace s with (s +:+ "") at 1 by (clear; induction s; cbn; congruence).
  rewrite (lstrip_digits s "" H Hne).
  replace (s +:+ "") with s by (clear; induction s; cbn; congruence).
  rewrite (rstrip_digits s H).
  destruct s as [|c r]; [done|].
  apply all_digits_cons in H as [Hc _].
  by destruct (digit_not_sign c Hc) as [-> ->].
Qed.

Section Revision.
Variable cwd : string.
Variable isdir : string -> bool.
Variable stdout_of : list string -> string.


(** X6: on a Subversion or git-svn working copy, when no line of the [info]
    output contains [Last Changed Rev] and the [log] output has fewer than
    two words, the unguarded [split()[1]] raises [IndexError]; no [Error] is
    built. *)
Theorem svn_last_changed_revision_short_log fuel path vcs :
  guess_vcs cwd isdir fuel path = Returns vcs ->
  vcs = Some "svn" \/ vcs = Some "git-svn" ->
  List.filter (fun l => contains l "Last Changed Rev")
    (lines (stdout_of ((if vcs_in vcs ["svn"] then ["svn"] else ["git"; "svn"])
                         ++ ["info"])))
  = [] ->
  length (words (stdout_of ((if vcs_in vcs ["svn"] then ["svn"] else ["git"; "svn"])
                              ++ ["log"; "--incremental"; "--limit"; "1"]))) < 2 ->
  svn_last_changed_revision cwd isdir stdout_of fuel path = Raises IndexError.
Proof.
  intros Hg Hv Hline Hlog.
  unfold svn_last_changed_revision. rewrite Hg. cbn [obind].
  apply vcs_in_supported in Hv as E. rewrite E. cbn [negb].
  assert (forall args,
             List.filter (fun l => contains l "Last Changed Rev")
               (lines (stdout_of (args ++ ["info"]))) = [] ->
             length (words (stdout_of (args ++ ["log"; "--incremental"; "--limit"; "1"])))
             < 2 ->
             obind (revision_token stdout_of args) (fun '(revision_str, cmdargs) =>
               match py_int revision_str with
               | Some revision => Returns revision
               | None => Raises (invalid_revision_error revision_str cmdargs)
               end) = Raises IndexError) as Hrun.
  { intros args Hl Hw. clear Hline Hlog. unfold revision_token, last_changed_rev_filter.
    rewrite Hl. cbn [map unlines strip lstrip rstrip str_eqb String.eqb].
    destruct (words _) as [|w1 [|w2 ws]]; cbn in Hw |- *; try done. lia. }
  destruct Hv as [-> | ->]; cbn in Hline, Hlog |- *; by apply Hrun.
Qed.

End Revision.


Lemma svn_last_changed_revision_short_log_witness :
  svn_last_changed_revision "/" (fun s => str_eqb s "/p/.git" || str_eqb s "/p/.git/svn")
    (fun _ => "fatal:") 5 "/p"
  = Raises IndexError.
Proof.
  apply (svn_last_changed_revision_short_log "/"
           (fun s => str_eqb s "/p/.git" || str_eqb s "/p/.git/svn")
           (fun _ => "fatal:") 5 "/p" (Some "git-svn")).
  - reflexivity.
  - by right.
  - reflexivity.
  - vm_compute. lia.
Defined.

End VcsMore.

(** ** What every call keeps of the heap *)
Module PersistenceFacts.
Import PyStr DocGen Persistence.
Local Open Scope docgen_scope.

(** *** Reading a run backwards *)

Lemma bind_inv {A B} (c : M A) (k : A -> M B) h b h' :
  bind c k h = (Returns b, h') ->
  exists a h1, c h = (Returns a, h1) /\ k a h1 = (Returns b, h').
Proof.
  unfold bind. destruct (c h) as [[a|e|] h1]; try discriminate.
  intros Hk. by exists a, h1.
Qed.

Lemma getobj_inv self h o h' : getobj self h = (Returns o, h') -> h' = h /\ h !! self = Some o.
Proof. unfold getobj. destruct (h !! self); by intros [= <- <-]. Qed.

Lemma name_reads self h r h' : name self h = (r, h') -> h' = h.
Proof.
  unfold name, bind, getobj, ret, raise.
  destruct (h !! self) as [o|]; [|by intros [= _ <-]].
  destruct (obj_kind o) as [[project|] ? ? ?|m]; by intros [= _ <-].
Qed.

(** *** The relations *)

#[export] Instance persists_frame : Frame persists any_object.
Proof.
  split.
  - by repeat split.
  - intros o1 o2 o3 (K1 & P1 & D1 & S1) (K2 & P2 & D2 & S2).
    repeat split; try congruence. auto.
  - done.
  - done.
Qed.

#[export] Instance persists_tree : TreeFrame persists.
Proof. split; intros; by repeat split. Qed.

#[export] Instance persists_children : ChildrenFrame persists.
Proof. split; intros; by repeat split. Qed.

#[export] Instance persists_full : FullFrame persists.
Proof. split; intros; by repeat split. Qed.

#[export] Instance untouched_frame : Frame untouched pristine.
Proof.
  split.
  - by repeat split.
  - intros o1 o2 o3 (K1 & P1 & S1 & D1 & R1 & C1) (K2 & P2 & S2 & D2 & R2 & C2).
    repeat split; congruence.
  - intros o o' (S & D & R & C) (K1 & P1 & S1 & D1 & R1 & C1).
    repeat split; congruence.
  - by repeat split.
Qed.

#[export] Instance untouched_tree : TreeFrame untouched.
Proof. split; intros; by repeat split. Qed.

#[export] Instance untouched_children : ChildrenFrame untouched.
Proof. split; intros; by repeat split. Qed.

#[export] Instance same_children_frame : Frame same_children childless.
Proof.
  split; unfold same_children, childless; try done; intros; congruence.
Qed.

#[export] Instance same_children_tree : TreeFrame same_children.
Proof. split; intros; reflexivity. Qed.

Section Generic.
Context {P : Obj -> Obj -> Prop} {Q : Obj -> Prop} `{!Frame P Q}.

Local Abbreviation extends' := (extends_by P Q).
Local Abbreviation keeps' := (keeps_by P Q).

Lemma extends_refl h : extends' h h.
Proof.
  split.
  - intros i o H. exists o. split; [done | apply frame_refl].
  - intros i o' Hi H. apply lookup_lt_Some in H. lia.
Qed.

Lemma extends_length h h' : extends' h h' -> length h <= length h'.
Proof.
  intros [E _]. destruct (decide (length h = 0)) as [|Hne]; [lia|].
  destruct (lookup_lt_is_Some_2 h (length h - 1)) as [o H]; [lia|].
  destruct (E _ _ H) as (o' & H' & _). apply lookup_lt_Some in H'. lia.
Qed.

Lemma extends_trans h1 h2 h3 : extends' h1 h2 -> extends' h2 h3 -> extends' h1 h3.
Proof.
  intros E1 E2. pose proof (extends_length _ _ E1) as L1.
  destruct E1 as [E1 N1], E2 as [E2 N2]. split.
  - intros i o H. destruct (E1 i o H) as (o2 & H2 & P12).
    destruct (E2 i o2 H2) as (o3 & H3 & P23). exists o3.
    split; [done | by eapply frame_trans].
  - intros i o3 Hi H3. destruct (decide (i < length h2)) as [Hlt|Hge].
    + destruct (lookup_lt_is_Some_2 h2 i Hlt) as [o2 H2].
      destruct (E2 i o2 H2) as (o3' & H3' & P23).
      assert (o3' = o3) as -> by congruence.
      eapply frame_created; [|exact P23]. by eapply N1.
    + eapply N2; [|exact H3]. lia.
Qed.

Lemma keeps_ret {A} (a : A) : keeps' (ret a).
Proof. intros h r h' [= _ <-]. apply extends_refl. Qed.

Lemma keeps_raise {A} e : keeps' (raise (A := A) e).
Proof. intros h r h' [= _ <-]. apply extends_refl. Qed.

Lemma keeps_timeout {A} : keeps' (timeout (A := A)).
Proof. intros h r h' [= _ <-]. apply extends_refl. Qed.

Lemma keeps_lift {A} (x : result A) : keeps' (lift x).
Proof. intros h r h' [= _ <-]. apply extends_refl. Qed.

Lemma keeps_lift_outcome {A} (x : outcome A) : keeps' (lift_outcome x).
Proof. intros h r h' [= _ <-]. apply extends_refl. Qed.

Lemma keeps_pure {A} (x : outcome A) : keeps' (fun h => (x, h)).
Proof. intros h r h' [= _ <-]. apply extends_refl. Qed.

Lemma keeps_getobj self : keeps' (getobj self).
Proof.
  intros h r h'. unfold getobj. destruct (h !! self); intros [= _ <-];
    apply extends_refl.
Qed.

Lemma keeps_setobj self f : (forall o, P o (f o)) -> keeps' (setobj self f).
Proof.
  intros Hf h r h' [= _ <-]. split.
  - intros i o H. destruct (decide (self = i)) as [->|Hne].
    + exists (f o). split; [by rewrite list_lookup_alter_eq, H | apply Hf].
    + exists o. split; [by rewrite list_lookup_alter_ne | apply frame_refl].
  - intros i o' Hi H. apply lookup_lt_Some in H. rewrite length_alter in H. lia.
Qed.

Lemma keeps_alloc k out p : keeps' (alloc (new_obj k out p)).
Proof.
  intros h r h' [= _ <-]. split.
  - intros i o0 H. exists o0. split; [by apply lookup_app_l_Some | apply frame_refl].
  - intros i o' Hi H. rewrite lookup_app_r in H by done.
    apply list_lookup_singleton_Some in H as [_ <-]. apply frame_new.
Qed.

Lemma keeps_bind {A B} (c : M A) (k : A -> M B) :
  keeps' c -> (forall a, keeps' (k a)) -> keeps' (bind c k).
Proof.
  intros Hc Hk h r h'. unfold bind.
  destruct (c h) as [[a|e|] h1] eqn:E; pose proof (Hc _ _ _ E) as E1.
  - intros E2. eapply extends_trans; [exact E1 | by eapply Hk].
  - by intros [= _ <-].
  - by intros [= _ <-].
Qed.

Lemma keeps_try_except {A} (c : M A) handler :
  keeps' c -> (forall e k, handler e = Some k -> keeps' k) ->
  keeps' (try_except c handler).
Proof.
  intros Hc Hk h r h'. unfold try_except.
  destruct (c h) as [[a|e|] h1] eqn:E; pose proof (Hc _ _ _ E) as E1.
  - by intros [= _ <-].
  - destruct (handler e) as [k|] eqn:Eh.
    + intros E2. eapply extends_trans; [exact E1 | by eapply Hk].
    + by intros [= _ <-].
  - by intros [= _ <-].
Qed.

Lemma keeps_mapM {A B} (body : A -> M B) items :
  (forall a, keeps' (body a)) -> keeps' (mapM body items).
Proof.
  intros Hb. induction items as [|a l IH]; cbn [mapM].
  - apply keeps_ret.
  - apply keeps_bind; [apply Hb|]. intros b.
    apply keeps_bind; [apply IH|]. intros bs. apply keeps_ret.
Qed.

Lemma keeps_filterM {A} (test : A -> M bool) l :
  (forall a, keeps' (test a)) -> keeps' (filterM test l).
Proof.
  intros Hb. induction l as [|a l IH]; cbn [filterM].
  - apply keeps_ret.
  - apply keeps_bind; [apply Hb|]. intros b.
    apply keeps_bind; [apply IH|]. intros bs. apply keeps_ret.
Qed.

Lemma keeps_anyM {A} (test : A -> M bool) l :
  (forall a, keeps' (test a)) -> keeps' (anyM test l).
Proof.
  intros Hb. induction l as [|a l IH]; cbn [anyM].
  - apply keeps_ret.
  - apply keeps_bind; [apply Hb|]. intros b. destruct b; [apply keeps_ret | apply IH].
Qed.

Lemma keeps_handler_IOError {A} (fallback : M A) e k :
  keeps' fallback -> except_IOError fallback e = Some k -> keeps' k.
Proof. intros Hf. destruct e; cbn; try discriminate. by intros [= <-]. Qed.

Lemma keeps_handler_attrnames {A} (fallback : M A) e k :
  keeps' fallback -> except_attrnames fallback e = Some k -> keeps' k.
Proof. intros Hf. destruct e; cbn; try discriminate; by intros [= <-]. Qed.

Lemma keeps_handler_metatype {A} (fallback : M A) e k :
  keeps' fallback -> except_metatype fallback e = Some k -> keeps' k.
Proof. intros Hf. destruct e; cbn; try discriminate; by intros [= <-]. Qed.

Lemma keeps_handler_included {A} (fallback : M A) e k :
  keeps' fallback -> except_included_modules fallback e = Some k -> keeps' k.
Proof. intros Hf. destruct e; cbn; try discriminate; by intros [= <-]. Qed.

Lemma keeps_handler_Exception {A} (fallback : M A) e k :
  keeps' fallback -> except_Exception fallback e = Some k -> keeps' k.
Proof. intros Hf. by intros [= <-]. Qed.

End Generic.

Create HintDb keeps.
#[export] Hint Resolve keeps_ret keeps_raise keeps_timeout keeps_lift keeps_lift_outcome
  keeps_pure keeps_getobj keeps_alloc : keeps.

(** One step of a proof that a call keeps the heap: the call is taken
    apart along its binds, handlers, loops and case distinctions. *)
Ltac keeps_step :=
  match goal with
  | |- keeps_by _ _ (bind _ _) => apply keeps_bind; [|intros ?]
  | |- keeps_by _ _ (try_except _ _) => apply keeps_try_except; [|intros ? ? ?]
  | |- keeps_by _ _ (mapM _ _) => apply keeps_mapM; intros ?
  | |- keeps_by _ _ (filterM _ _) => apply keeps_filterM; intros ?
  | |- keeps_by _ _ (anyM _ _) => apply keeps_anyM; intros ?
  | |- keeps_by _ _ (setobj _ _) =>
      apply keeps_setobj; intros ?;
      first [ apply frame_included | apply frame_inherited | apply frame_children
            | apply frame_descendants_included | apply frame_top_interesting
            | apply frame_descendants | apply frame_root | apply frame_docstring
            | apply frame_interesting | apply frame_skip ]
  | H : except_IOError _ _ = Some _ |- _ =>
      eapply keeps_handler_IOError; [|exact H]
  | H : except_attrnames _ _ = Some _ |- _ =>
      eapply keeps_handler_attrnames; [|exact H]
  | H : except_metatype _ _ = Some _ |- _ =>
      eapply keeps_handler_metatype; [|exact H]
  | H : except_included_modules _ _ = Some _ |- _ =>
      eapply keeps_handler_included; [|exact H]
  | H : except_Exception _ _ = Some _ |- _ =>
      eapply keeps_handler_Exception; [|exact H]
  | |- keeps_by _ _ (match ?x with _ => _ end) => destruct x
  | |- keeps_by _ _ (if ?x then _ else _) => destruct x
  | |- keeps_by _ _ _ => solve [eauto with keeps]
  end.

Ltac keeps_tac := repeat keeps_step.

(** *** The properties of the tree *)
Section Tree.
Context {P : Obj -> Obj -> Prop} {Q : Obj -> Prop} `{!Frame P Q} `{!TreeFrame P}.

Local Abbreviation keeps' := (keeps_by P Q).

Lemma keeps_isproject self : keeps' (isproject self).
Proof. unfold isproject. keeps_tac. Qed.
Lemma keeps_parent self : keeps' (parent self).
Proof. unfold parent. keeps_tac. Qed.
Lemma keeps_out_parentdirpath self : keeps' (out_parentdirpath self).
Proof. unfold out_parentdirpath. keeps_tac. Qed.
Lemma keeps_skip self : keeps' (skip self).
Proof. unfold skip. keeps_tac. Qed.
Lemma keeps__module self : keeps' (_module self).
Proof. unfold _module. keeps_tac. Qed.
Lemma keeps_name self : keeps' (name self).
Proof. unfold name. keeps_tac. Qed.
Hint Resolve keeps_isproject keeps_parent keeps_out_parentdirpath keeps_skip
  keeps__module keeps_name : keeps.

Lemma keeps_shortname self : keeps' (shortname self).
Proof. unfold shortname. keeps_tac. Qed.
Lemma keeps_module_attrnames self : keeps' (module_attrnames self).
Proof. unfold module_attrnames. keeps_tac. Qed.
Lemma keeps_module_attr self a : keeps' (module_attr self a).
Proof. unfold module_attr. keeps_tac. Qed.
Lemma keeps_module_isprivate self : keeps' (module_isprivate self).
Proof. unfold module_isprivate. keeps_tac. Qed.
Lemma keeps_module_isstandard self : keeps' (module_isstandard self).
Proof. unfold module_isstandard. keeps_tac. Qed.
Lemma keeps_included_modules_paths self : keeps' (included_modules_paths self).
Proof. unfold included_modules_paths. keeps_tac. Qed.
Lemma keeps_ModuleDocSpec m out p : keeps' (ModuleDocSpec m out p).
Proof. unfold ModuleDocSpec. keeps_tac. Qed.
Hint Resolve keeps_shortname keeps_module_attrnames keeps_module_attr
  keeps_module_isprivate keeps_module_isstandard keeps_included_modules_paths
  keeps_ModuleDocSpec : keeps.

Lemma keeps_ancestor_loop fuel self :
  forall ancestor, keeps' (ancestor_loop fuel self ancestor).
Proof.
  induction fuel as [|fuel IH]; intros [a|]; cbn [ancestor_loop]; keeps_tac.
Qed.
Hint Resolve keeps_ancestor_loop : keeps.

Lemma keeps__ancestor_included_modulepaths fuel self :
  keeps' (_ancestor_included_modulepaths fuel self).
Proof. unfold _ancestor_included_modulepaths. keeps_tac. Qed.
Hint Resolve keeps__ancestor_included_modulepaths : keeps.

Lemma keeps_module_children_of fuel self subs : keeps' (module_children_of fuel self subs).
Proof. induction subs as [|m rest IH]; cbn [module_children_of]; keeps_tac. Qed.
Hint Resolve keeps_module_children_of : keeps.

Lemma keeps_included_modules_docspecs_of self m paths :
  keeps' (included_modules_docspecs_of self m paths).
Proof.
  induction paths as [|p rest IH]; cbn [included_modules_docspecs_of]; keeps_tac.
Qed.
Hint Resolve keeps_included_modules_docspecs_of : keeps.

Lemma keeps_included_modules_docspecs self : keeps' (included_modules_docspecs self).
Proof. unfold included_modules_docspecs. keeps_tac. Qed.
Hint Resolve keeps_included_modules_docspecs : keeps.

(** The body of [children], before the result is cached. *)
Lemma keeps_children_body fuel self (o : Obj)
    (top_modules : string -> list string -> list Introspect.Module) :
  keeps' (match obj_kind o with
          | Mod m =>
              if Introspect.ispackage m
              then module_children_of fuel self (Introspect.submodules m)
              else ret []
          | Project _ src_filepath src_dirnames excluded_modules_names =>
              mapM (fun module =>
                      let* out := out_parentdirpath self in
                      ModuleDocSpec module out self)
                   (concat (map (fun dirname =>
                                   top_modules
                                     (PosixPath.normpath
                                        (PosixPath.join src_filepath dirname))
                                     excluded_modules_names)
                                src_dirnames))
          end).
Proof. keeps_tac. Qed.

End Tree.

#[export] Hint Resolve keeps_isproject keeps_parent keeps_out_parentdirpath keeps_skip
  keeps__module keeps_name keeps_shortname keeps_module_attrnames keeps_module_attr
  keeps_module_isprivate keeps_module_isstandard keeps_included_modules_paths
  keeps_ModuleDocSpec keeps_ancestor_loop keeps__ancestor_included_modulepaths
  keeps_module_children_of keeps_included_modules_docspecs_of
  keeps_included_modules_docspecs : keeps.

(** *** The properties that call [children] *)
Section Children.
Context {P : Obj -> Obj -> Prop} {Q : Obj -> Prop}
  `{!Frame P Q} `{!TreeFrame P} `{!ChildrenFrame P}.
Variable top_modules : string -> list string -> list Introspect.Module.
Variable builtins : list string.

Local Abbreviation keeps' := (keeps_by P Q).

Lemma keeps_children fuel self : keeps' (children top_modules fuel self).
Proof. unfold children. keeps_tac. Qed.
Hint Resolve keeps_children : keeps.

Lemma keeps_descendants_included_modules_docspecs fuel :
  forall self, keeps' (descendants_included_modules_docspecs top_modules fuel self).
Proof.
  induction fuel as [|fuel IH]; intros self;
    cbn [descendants_included_modules_docspecs]; keeps_tac.
Qed.
Hint Resolve keeps_descendants_included_modules_docspecs : keeps.

Lemma keeps__should_doc_module_attr fuel d a b :
  keeps' (_should_doc_module_attr top_modules builtins fuel d a b).
Proof. unfold _should_doc_module_attr. keeps_tac. Qed.

Lemma keeps__descendant_is_interesting self d : keeps' (_descendant_is_interesting self d).
Proof. unfold _descendant_is_interesting. keeps_tac. Qed.
Hint Resolve keeps__descendant_is_interesting : keeps.

Lemma keeps_top_interesting_descendants fuel self :
  keeps' (top_interesting_descendants top_modules fuel self).
Proof. unfold top_interesting_descendants. keeps_tac. Qed.

Lemma keeps_sort_by_name ds : keeps' (sort_by_name ds).
Proof. unfold sort_by_name. keeps_tac. Qed.

Lemma keeps__should_doc_module_docspec d b : keeps' (_should_doc_module_docspec d b).
Proof. unfold _should_doc_module_docspec. keeps_tac. Qed.

Lemma keeps_doc_module_attr d level a : keeps' (doc_module_attr d level a).
Proof. unfold doc_module_attr. keeps_tac. Qed.

Lemma keeps_reldocpath fuel self : keeps' (reldocpath top_modules fuel self).
Proof. unfold reldocpath. keeps_tac. Qed.

Lemma keeps_pretend_banner d : keeps' (pretend_banner d).
Proof. unfold pretend_banner. keeps_tac. Qed.

End Children.

#[export] Hint Resolve keeps_children keeps_descendants_included_modules_docspecs
  keeps__should_doc_module_attr keeps__descendant_is_interesting
  keeps_top_interesting_descendants keeps_sort_by_name keeps__should_doc_module_docspec
  keeps_doc_module_attr keeps_reldocpath keeps_pretend_banner : keeps.

(** *** Every call of the generator *)
Section Full.
Context {P : Obj -> Obj -> Prop} {Q : Obj -> Prop}
  `{!Frame P Q} `{!TreeFrame P} `{!ChildrenFrame P} `{!FullFrame P}.
Variable cwd : string.
Variable top_modules : string -> list string -> list Introspect.Module.
Variable builtins : list string.
Variable split_blocks : string -> list string.

Local Abbreviation keeps' := (keeps_by P Q).

Lemma keeps_descendants fuel : forall self, keeps' (descendants top_modules fuel self).
Proof. induction fuel as [|fuel IH]; intros self; cbn [descendants]; keeps_tac. Qed.
Hint Resolve keeps_descendants : keeps.

Lemma keeps_root fuel : forall self, keeps' (root fuel self).
Proof. induction fuel as [|fuel IH]; intros self; cbn [root]; keeps_tac. Qed.
Hint Resolve keeps_root : keeps.

Lemma keeps_docpath fuel self : keeps' (docpath cwd top_modules fuel self).
Proof. unfold docpath. keeps_tac. Qed.
Hint Resolve keeps_docpath : keeps.

Lemma keeps_out_filepath fuel self : keeps' (out_filepath cwd top_modules fuel self).
Proof. unfold out_filepath. keeps_tac. Qed.

Lemma keeps_project_docstring_loop self ds : keeps' (project_docstring_loop self ds).
Proof. induction ds as [|d ds IH]; cbn [project_docstring_loop]; keeps_tac. Qed.
Hint Resolve keeps_project_docstring_loop : keeps.

Lemma keeps_docstring fuel self : keeps' (docstring top_modules fuel self).
Proof. unfold docstring. keeps_tac. Qed.
Hint Resolve keeps_docstring : keeps.

Lemma keeps_shortdoc fuel self : keeps' (shortdoc top_modules split_blocks fuel self).
Proof. unfold shortdoc. keeps_tac. Qed.

Lemma keeps_doc_module_attrs fuel d level b :
  keeps' (doc_module_attrs top_modules builtins fuel d level b).
Proof. unfold doc_module_attrs. keeps_tac. Qed.
Hint Resolve keeps_doc_module_attrs : keeps.

Lemma keeps_doc_children fuel d level : keeps' (doc_children top_modules fuel d level).
Proof. unfold doc_children. keeps_tac. Qed.
Hint Resolve keeps_doc_children : keeps.

Lemma keeps_doc_module_docspec fuel : forall d level titlefunc b,
  (forall f, titlefunc = Some f -> forall x, keeps' (f x)) ->
  keeps' (doc_module_docspec top_modules builtins split_blocks fuel d level titlefunc b).
Proof.
  induction fuel as [|fuel IH]; intros d level titlefunc b Ht;
    cbn [doc_module_docspec]; [keeps_tac|].
  assert (forall x, keeps' (default name titlefunc x)) as Ht'.
  { intros x. destruct titlefunc as [f|]; cbn; [by apply Ht | apply keeps_name]. }
  keeps_tac. apply IH. intros f [= <-] x. apply keeps_shortdoc.
Qed.

Lemma keeps_module_page fuel d :
  keeps' (module_page top_modules builtins split_blocks fuel d).
Proof.
  unfold module_page. apply keeps_bind; [|intros ?; apply keeps_ret].
  apply keeps_doc_module_docspec. intros f [= <-] x. apply keeps_name.
Qed.
Hint Resolve keeps_module_page : keeps.

Lemma keeps_module_output fuel d pretend :
  keeps' (module_output top_modules builtins split_blocks fuel d pretend).
Proof. unfold module_output. keeps_tac. Qed.

Lemma keeps_project_toplevel_output fuel d :
  keeps' (project_toplevel_output top_modules fuel d).
Proof. unfold project_toplevel_output. keeps_tac. Qed.

End Full.

End PersistenceFacts.

(** ** More of the renderer *)
Module RenderMore.
Import PyStr DocGen Coherence CoherenceFacts TreeFacts DescFacts PersistenceFacts.
Local Open Scope docgen_scope.

Section Renderer.
Variable cwd : string.
Variable top_modules : string -> list string -> list Introspect.Module.
Variable builtins : list string.
Variable split_blocks : string -> list string.

Local Abbreviation project_rests := (_generate_project_rests cwd top_modules builtins split_blocks).
Local Abbreviation module_rest := (_generate_module_rest cwd top_modules builtins split_blocks).
Local Abbreviation loop := (generate_descendants cwd top_modules builtins split_blocks).
Local Abbreviation page_of := (module_page top_modules builtins split_blocks).

(** X7: for a project whose output directory has no [conf.py], rendering
    fails at once with [_CriticalError], with or without [pretend]: nothing
    is printed, no file is written and no doc-spec is created or changed. *)
Theorem project_rests_without_sphinx_config fuel docspec pretend h w o src dirs excluded :
  h !! docspec = Some o ->
  obj_kind o = Project None src dirs excluded ->
  _generate_project_rests cwd top_modules builtins split_blocks fuel docspec pretend h w
  = (Raises (CriticalError
               ("no Sphinx config found at "
                  +:+ py_repr (PosixPath.join (_out_dirpath o) "conf.py"))),
     h, w).
Proof.
  intros H K.
  unfold _generate_project_rests, _generate_project_toplevel_rest, emit,
    project_toplevel_output.
  assert (name docspec h
          = (Raises (CriticalError
                       ("no Sphinx config found at "
                          +:+ py_repr (PosixPath.join (_out_dirpath o) "conf.py"))), h))
    as Hn.
  { unfold name. rewrite (bind_returns _ _ _ _ _ (getobj_some _ _ _ H)). by rewrite K. }
  by rewrite (bind_raises _ _ _ _ _ Hn).
Qed.

Lemma emit_writes compose target h w r h' w' :
  emit compose target false h w = (r, h', w') ->
  w' = w \/ exists path output, w' = write_file path output w.
Proof.
  unfold emit. destruct (compose h) as [[output|e|] h1].
  - destruct (target h1) as [[path|e|] h2]; intros [= <- <- <-]; eauto.
  - intros [= <- <- <-]. by left.
  - intros [= <- <- <-]. by left.
Qed.

(** What a run that writes files leaves of the streams it found. *)
Local Abbreviation grown w w' :=
  (stdout w' = stdout w
   /\ forall path, is_Some (files w !! path) -> is_Some (files w' !! path)).

Lemma grown_refl w : grown w w.
Proof. done. Qed.

Lemma grown_trans w1 w2 w3 : grown w1 w2 -> grown w2 w3 -> grown w1 w3.
Proof. intros [S1 F1] [S2 F2]. split; [congruence | auto]. Qed.

Lemma grown_write path output w : grown w (write_file path output w).
Proof.
  split; [done|]. intros p Hp. cbn.
  destruct (decide (path = p)) as [->|Hne].
  - by rewrite lookup_insert_eq.
  - by rewrite lookup_insert_ne.
Qed.

Lemma emit_grown compose target h w r h' w' :
  emit compose target false h w = (r, h', w') -> grown w w'.
Proof.
  intros [-> | (path & output & ->)]%emit_writes;
    [apply grown_refl | apply grown_write].
Qed.

Lemma loop_grown fuel ds : forall h w r h' w',
  loop fuel false ds h w = (r, h', w') -> grown w w'.
Proof.
  induction ds as [|d ds IH]; intros h w r h' w'; cbn [generate_descendants].
  - by intros [= _ _ <-].
  - destruct (skip d h) as [[[|]|e|] h1].
    + apply IH.
    + destruct (module_rest fuel d false h1 w) as [[r1 h2] w2] eqn:E1.
      apply emit_grown in E1.
      destruct r1 as [[]|e|].
      * intros E2%IH. by eapply grown_trans.
      * by intros [= _ _ <-].
      * by intros [= _ _ <-].
    + by intros [= _ _ <-].
    + by intros [= _ _ <-].
Qed.

(** X8: a run of [_generate_project_rests] without [pretend], from any heap
    and any state of the streams and whatever its outcome, prints nothing
    on the standard output and removes no file: every path that held a file
    before the run holds one after it. *)
Theorem project_rests_writing_frame fuel docspec h w r h' w' :
  _generate_project_rests cwd top_modules builtins split_blocks fuel docspec false h w
  = (r, h', w') ->
  stdout w' = stdout w
  /\ forall path, is_Some (files w !! path) -> is_Some (files w' !! path).
Proof.
  unfold _generate_project_rests.
  destruct (_generate_project_toplevel_rest top_modules fuel docspec false h w)
    as [[r1 h1] w1] eqn:E1.
  apply emit_grown in E1.
  destruct r1 as [[]|e|]; [|by intros [= _ _ <-]..].
  destruct (descendants top_modules fuel docspec h1) as [[ds|e|] h2];
    [|by intros [= _ _ <-]..].
  intros E2%loop_grown. by eapply grown_trans.
Qed.

(** X9: whenever the page of a module can be composed, it begins with the
    three header lines, then the module's name between two lines of [#] of
    the name's length, then the [automodule] directive for the module and
    two empty lines.  The heading text is the name without its trailing
    dots, or the name as it is when nothing would be left of it. *)
Theorem module_page_begins fuel docspec h page h' :
  module_page top_modules builtins split_blocks fuel docspec h = (Returns page, h') ->
  exists n rest,
    name docspec h = (Returns n, h)
    /\ let title := if str_eqb (rstrip_char "." n) "" then n else rstrip_char "." n in
       let line := repeat_char "#" (String.length title) in
       page = [".. highlight:: python"; "   :linenothreshold: 5"; "";
               line; title; line;
               ".. automodule:: " +:+ n; ""; ""] ++ rest.
Proof.
  unfold module_page. intros (body & h1 & Hbody & [= <- <-])%bind_inv.
  destruct fuel as [|fuel]; [discriminate|]. cbn [doc_module_docspec] in Hbody.
  apply bind_inv in Hbody as (n & h2 & Hn & Hbody).
  pose proof (name_reads _ _ _ _ Hn) as ->.
  apply bind_inv in Hbody as (title0 & h3 & Ht0 & Hbody).
  apply bind_inv in Hbody as (title & h4 & Ht & Hbody).
  apply bind_inv in Hbody as (heading & h5 & Hh & Hbody).
  apply bind_inv in Hbody as (children_lines & h6 & _ & Hbody).
  apply bind_inv in Hbody as (attrs & h7 & _ & Hbody).
  apply bind_inv in Hbody as (found & h8 & _ & Hbody).
  apply bind_inv in Hbody as (included & h9 & _ & [= <- <-]).
  assert (title0 = rstrip_char "." n /\ h3 = h) as [-> ->].
  { revert Ht0. unfold try_except, default. rewrite (bind_returns _ _ _ _ _ Hn).
    by intros [= <- <-]. }
  assert (title = if str_eqb (rstrip_char "." n) "" then n else rstrip_char "." n)
    as Htitle.
  { revert Ht. destruct (str_eqb (rstrip_char "." n) "").
    - rewrite Hn. by intros [= <- _].
    - by intros [= <- _]. }
  revert Hh. unfold lift_outcome, _rest_heading_lines. cbn [Z.ltb Z.compare].
  intros [= <- _]. exists n, (children_lines ++ attrs ++ included).
  split; [done|]. cbn zeta. rewrite <- Htitle. reflexivity.
Qed.

End Renderer.


Lemma project_rests_without_sphinx_config_witness :
  _generate_project_rests Sample.cwd Sample.top_modules Sample.builtins (fun doc => [doc])
    9 0 false SampleMore.no_config_heap Sample.empty_world
  = (Raises (CriticalError "no Sphinx config found at 'doc/conf.py'"),
     SampleMore.no_config_heap, Sample.empty_world).
Proof.
  exact (project_rests_without_sphinx_config Sample.cwd Sample.top_modules Sample.builtins
           (fun doc => [doc]) 9 0 false SampleMore.no_config_heap Sample.empty_world
           (new_obj (Project None "." ["."] []) "doc" None) "." ["."] []
           eq_refl eq_refl).
Defined.

Lemma project_rests_writing_frame_witness :
  stdout (snd Sample.writing_run) = stdout Sample.empty_world
  /\ forall path,
       is_Some (files Sample.empty_world !! path) ->
       is_Some (files (snd Sample.writing_run) !! path).
Proof.
  refine (project_rests_writing_frame Sample.cwd Sample.top_modules Sample.builtins
            (fun doc => [doc]) 9 0 Sample.heap0 Sample.empty_world
            (fst (fst Sample.writing_run)) (snd (fst Sample.writing_run))
            (snd Sample.writing_run) _).
  unfold Sample.writing_run.
  destruct (_generate_project_rests Sample.cwd Sample.top_modules Sample.builtins
              (fun doc => [doc]) 9 0 false Sample.heap0 Sample.empty_world)
    as [[r h'] w'].
  reflexivity.
Defined.

Lemma page_run_returns :
  SampleMore.page_run
  = (Returns [".. highlight:: python"; "   :linenothreshold: 5"; ""; "#########";
              "pkg.index"; "#########"; ".. automodule:: pkg.index"; ""; ""],
     snd SampleMore.page_run).
Proof. vm_compute. reflexivity. Qed.

Lemma module_page_begins_witness :
  exists n rest,
    name 3 Sample.heap2 = (Returns n, Sample.heap2)
    /\ let title := if str_eqb (rstrip_char "." n) "" then n else rstrip_char "." n in
       let line := repeat_char "#" (String.length title) in
       [".. highlight:: python"; "   :linenothreshold: 5"; ""; "#########";
        "pkg.index"; "#########"; ".. automodule:: pkg.index"; ""; ""]
       = [".. highlight:: python"; "   :linenothreshold: 5"; "";
          line; title; line;
          ".. automodule:: " +:+ n; ""; ""] ++ rest.
Proof.
  exact (module_page_begins Sample.top_modules Sample.builtins (fun doc => [doc]) 9 3
           Sample.heap2 _ (snd SampleMore.page_run) page_run_returns).
Defined.

End RenderMore.

(** ** What a run of the renderer keeps *)
Module PersistMore.
Import PyStr DocGen Coherence CoherenceFacts Persistence PersistenceFacts.
Local Open Scope docgen_scope.

Section Runs.
Variable cwd : string.
Variable top_modules : string -> list string -> list Introspect.Module.
Variable builtins : list string.
Variable split_blocks : string -> list string.

Local Abbreviation project_rests := (_generate_project_rests cwd top_modules builtins split_blocks).
Local Abbreviation module_rest := (_generate_module_rest cwd top_modules builtins split_blocks).
Local Abbreviation loop := (generate_descendants cwd top_modules builtins split_blocks).

Lemma emit_extends compose target pretend h w r h' w' :
  keeps compose -> keeps target ->
  emit compose target pretend h w = (r, h', w') -> extends h h'.
Proof.
  intros Hc Ht. unfold emit.
  destruct (compose h) as [[output|e|] h1] eqn:E1; pose proof (Hc _ _ _ E1) as X1.
  - destruct pretend; [by intros [= _ <- _]|].
    destruct (target h1) as [[path|e|] h2] eqn:E2; pose proof (Ht _ _ _ E2) as X2;
      intros [= _ <- _]; by eapply extends_trans.
  - by intros [= _ <- _].
  - by intros [= _ <- _].
Qed.

Lemma module_rest_extends fuel d pretend h w r h' w' :
  module_rest fuel d pretend h w = (r, h', w') -> extends h h'.
Proof.
  apply emit_extends; [apply keeps_module_output | apply keeps_out_filepath].
Qed.

Lemma loop_extends fuel pretend ds : forall h w r h' w',
  loop fuel pretend ds h w = (r, h', w') -> extends h h'.
Proof.
  induction ds as [|d ds IH]; intros h w r h' w'; cbn [generate_descendants].
  - intros [= _ <- _]. apply extends_refl.
  - destruct (skip d h) as [[[|]|e|] h1] eqn:Es; pose proof (keeps_skip (P := persists) _ _ _ _ Es) as X1.
    + intros E. eapply extends_trans; [exact X1 | by eapply IH].
    + destruct (module_rest fuel d pretend h1 w) as [[r1 h2] w2] eqn:E1.
      pose proof (module_rest_extends _ _ _ _ _ _ _ _ E1) as X2.
      destruct r1 as [[]|e|].
      * intros E. eapply extends_trans; [exact X1|].
        eapply extends_trans; [exact X2 | by eapply IH].
      * intros [= _ <- _]. by eapply extends_trans.
      * intros [= _ <- _]. by eapply extends_trans.
    + by intros [= _ <- _].
    + by intros [= _ <- _].
Qed.

(** X10: whatever a run of [_generate_project_rests] does and however it
    ends, every doc-spec object that existed before the run still exists
    after it, built from the same module or project, with the same parent
    and the same output directory; and a doc-spec flagged to be skipped is
    still flagged.  With or without [pretend]. *)
Theorem project_rests_keeps_docspecs fuel docspec pretend h w r h' w' i o :
  _generate_project_rests cwd top_modules builtins split_blocks fuel docspec pretend h w
  = (r, h', w') ->
  h !! i = Some o ->
  exists o',
    h' !! i = Some o'
    /\ obj_kind o' = obj_kind o /\ _parent o' = _parent o
    /\ _out_dirpath o' = _out_dirpath o
    /\ (_skip o = true -> _skip o' = true).
Proof.
  intros Hrun H. enough (extends h h') as X by exact (proj1 X i o H).
  clear H. revert Hrun. unfold _generate_project_rests.
  destruct (_generate_project_toplevel_rest top_modules fuel docspec pretend h w)
    as [[r1 h1] w1] eqn:E1.
  assert (extends h h1) as X1.
  { revert E1. apply emit_extends; [apply keeps_project_toplevel_output|].
    apply keeps_bind; [apply keeps_out_parentdirpath | intros ?; apply keeps_ret]. }
  destruct r1 as [[]|e|]; [|by intros [= _ <- _]..].
  destruct (descendants top_modules fuel docspec h1) as [[ds|e|] h2] eqn:E2;
    pose proof (keeps_descendants (P := persists) _ _ _ _ _ _ E2) as X2.
  - intros E3%loop_extends.
    eapply extends_trans; [exact X1|]. by eapply extends_trans.
  - intros [= _ <- _]. by eapply extends_trans.
  - intros [= _ <- _]. by eapply extends_trans.
Qed.

Lemma skip_flagged d h o : h !! d = Some o -> _skip o = true -> skip d h = (Returns true, h).
Proof.
  intros H S. unfold skip, bind, getobj, ret. rewrite H. by rewrite S.
Qed.

Lemma skip_reads d h r h' : skip d h = (r, h') -> h' = h.
Proof.
  unfold skip, bind, getobj, ret. destruct (h !! d); by intros [= _ <-].
Qed.

(** X11: a doc-spec flagged to be skipped takes no part in the loop of
    [_generate_project_rests]: the loop over a list that holds it ends as
    the loop over the list without it, with the same outcome, the same
    heap, the same lines printed and the same files written. *)
Theorem skipped_docspec_has_no_page fuel pretend before d after h w o :
  h !! d = Some o -> _skip o = true ->
  generate_descendants cwd top_modules builtins split_blocks fuel pretend
    (before ++ d :: after) h w
  = generate_descendants cwd top_modules builtins split_blocks fuel pretend
      (before ++ after) h w.
Proof.
  revert h w o. induction before as [|x before IH]; intros h w o H S.
  - cbn [app generate_descendants]. by rewrite (skip_flagged d h o H S).
  - cbn [app generate_descendants].
    destruct (skip x h) as [[[|]|e|] h1] eqn:Es; try done;
      pose proof (skip_reads _ _ _ _ Es) as ->.
    + by eapply IH.
    + destruct (module_rest fuel x pretend h w) as [[r1 h2] w2] eqn:E1.
      destruct r1 as [[]|e|]; try done.
      destruct (proj1 (module_rest_extends _ _ _ _ _ _ _ _ E1) d o H)
        as (o' & H' & _ & _ & _ & S').
      eapply IH; [exact H' | by apply S'].
Qed.

(** X12: [children] is computed once: when it has returned, a second
    evaluation returns the same doc-specs and changes nothing in the heap,
    whatever the number of turns it is given. *)
Theorem children_cached fuel fuel2 self h cs h' :
  children top_modules fuel self h = (Returns cs, h') ->
  children top_modules fuel2 self h' = (Returns cs, h').
Proof.
  intros Hrun0. pose proof (keeps_children (P := persists) top_modules _ _ _ _ _ Hrun0) as X.
  revert Hrun0. unfold children at 1. intros (o & h0 & Ho & Hrun)%bind_inv.
  assert (h0 = h /\ h !! self = Some o) as [-> H].
  { revert Ho. unfold getobj. destruct (h !! self); by intros [= <- <-]. }
  destruct (_children o) as [cs0|] eqn:Ec.
  { injection Hrun as <- <-. unfold children.
    rewrite (bind_returns _ _ _ _ _ (getobj_some _ _ _ H)). by rewrite Ec. }
  apply bind_inv in Hrun as (cs1 & h1 & _ & Hrun).
  destruct (proj1 X self o H) as (o' & H' & _).
  revert Hrun. unfold bind, setobj, ret. intros [= <- <-].
  rewrite list_lookup_alter_eq in H'.
  destruct (h1 !! self) as [o1|] eqn:H1; [|discriminate]. cbn in H'.
  unfold children.
  assert (alter (set_children (Some cs1)) self h1 !! self
          = Some (set_children (Some cs1) o1)) as H2.
  { by rewrite list_lookup_alter_eq, H1. }
  by rewrite (bind_returns _ _ _ _ _ (getobj_some _ _ _ H2)).
Qed.

End Runs.
Import SampleFacts ProjectFacts.

Lemma project_rests_keeps_docspecs_witness :
  exists o',
    snd (fst Sample.pretend_run) !! 0 = Some o'
    /\ obj_kind o' = Project (Some "spruce-demo") "." ["."] []
    /\ _parent o' = None
    /\ _out_dirpath o' = "doc"
    /\ (false = true -> _skip o' = true).
Proof.
  refine (project_rests_keeps_docspecs Sample.cwd Sample.top_modules Sample.builtins
            (fun doc => [doc]) 9 0 true Sample.heap0 Sample.empty_world
            (fst (fst Sample.pretend_run)) (snd (fst Sample.pretend_run))
            (snd Sample.pretend_run) 0
            (new_obj (Project (Some "spruce-demo") "." ["."] []) "doc" None) _ eq_refl).
  unfold Sample.pretend_run.
  destruct (_generate_project_rests Sample.cwd Sample.top_modules Sample.builtins
              (fun doc => [doc]) 9 0 true Sample.heap0 Sample.empty_world)
    as [[r h'] w'].
  reflexivity.
Defined.

Lemma flagged_heap_index_ :
  SampleMore.flagged_heap !! 4
  = Some (set_skip true
            (new_obj (Mod (Sample.leaf "pkg.index_" "index_" [])) "doc/pkg" (Some 1))).
Proof. vm_compute. reflexivity. Qed.

Lemma skipped_docspec_has_no_page_witness :
  generate_descendants Sample.cwd Sample.top_modules Sample.builtins (fun doc => [doc]) 9
    false ([3] ++ 4 :: [5]) SampleMore.flagged_heap Sample.empty_world
  = generate_descendants Sample.cwd Sample.top_modules Sample.builtins (fun doc => [doc]) 9
      false ([3] ++ [5]) SampleMore.flagged_heap Sample.empty_world.
Proof.
  exact (skipped_docspec_has_no_page Sample.cwd Sample.top_modules Sample.builtins
           (fun doc => [doc]) 9 false [3] 4 [5] SampleMore.flagged_heap Sample.empty_world
           _ flagged_heap_index_ eq_refl).
Defined.

(** With the flag, the file that [pkg.index] and [pkg.index_] share holds
    the page of [pkg.index]. *)
Example flagged_run_shared_file :
  files (snd (generate_descendants Sample.cwd Sample.top_modules Sample.builtins
                (fun doc => [doc]) 9 false [3; 4; 5] SampleMore.flagged_heap
                Sample.empty_world))
  !! "doc/pkg/index_.rst"
  = Some [".. highlight:: python"; "   :linenothreshold: 5"; "";
          "#########"; "pkg.index"; "#########";
          ".. automodule:: pkg.index"; ""; ""].
Proof. vm_compute. reflexivity. Qed.

Lemma children_of_the_project :
  children Sample.top_modules 5 0 Sample.heap0 = (Returns [1; 2], Sample.heap1).
Proof. vm_compute. reflexivity. Qed.

Lemma children_cached_witness :
  children Sample.top_modules 0 0 Sample.heap1 = (Returns [1; 2], Sample.heap1).
Proof.
  exact (children_cached Sample.top_modules 5 0 0 Sample.heap0 [1; 2] Sample.heap1
           children_of_the_project).
Defined.

End PersistMore.

(** ** [included_modules_docspecs] builds its doc-specs anew *)
Module IncludedMore.
Import PyStr DocGen Coherence CoherenceFacts TreeFacts Persistence PersistenceFacts PersistMore.
Local Open Scope docgen_scope.

(** The generator run to its end: one new object for each path that
    [module_intree] finds, appended to the heap in order. *)
Lemma included_modules_docspecs_of_appends self m paths : forall h o,
  h !! self = Some o ->
  included_modules_docspecs_of self m paths h
  = (Returns (seq (length h) (length (DocTree.resolved m paths))),
     h ++ map (fun x => new_obj (Mod x) (_out_dirpath o) (Some self))
              (DocTree.resolved m paths)).
Proof.
  induction paths as [|path rest IH]; intros h o H.
  { cbn. by rewrite app_nil_r. }
  cbn [included_modules_docspecs_of DocTree.resolved flat_map].
  destruct (Introspect.module_intree m path) as [x| |]; cbn [app]; [|by apply IH..].
  rewrite (bind_returns _ _ _ _ _ (out_parentdirpath_reads _ _ _ H)).
  unfold ModuleDocSpec. unfold bind at 1. unfold alloc at 1.
  rewrite (bind_returns _ _ _ _ _
             (IH (h ++ [new_obj (Mod x) (_out_dirpath o) (Some self)]) o
                 (lookup_app_l_Some _ _ _ _ H))).
  unfold ret. rewrite length_app. cbn [length map seq app].
  rewrite Nat.add_1_r, <- app_assoc. reflexivity.
Qed.

(** What [included_modules_paths] returns it returns again, in any heap
    that holds the object it left. *)
Lemma included_modules_paths_again self h paths h0 :
  included_modules_paths self h = (Returns paths, h0) ->
  length h0 = length h
  /\ exists o0,
      h0 !! self = Some o0
      /\ forall hx, hx !! self = Some o0 ->
           included_modules_paths self hx = (Returns paths, hx).
Proof.
  unfold included_modules_paths at 1.
  intros (o & hh & [-> H]%getobj_inv & Hrun)%bind_inv.
  destruct (obj_kind o) as [sp src dirs excl|m] eqn:K.
  - injection Hrun as <- <-. split; [done|]. exists o. split; [done|].
    intros hx Hx. unfold included_modules_paths.
    rewrite (bind_returns _ _ _ _ _ (getobj_some _ _ _ Hx)). by rewrite K.
  - destruct (_included_modules_paths o) as [cached|] eqn:Ec.
    + injection Hrun as <- <-. split; [done|]. exists o. split; [done|].
      intros hx Hx. unfold included_modules_paths.
      rewrite (bind_returns _ _ _ _ _ (getobj_some _ _ _ Hx)). by rewrite K, Ec.
    + apply bind_inv in Hrun as (paths0 & h1 & Hl & Hrun).
      revert Hl. unfold lift. intros [= Hl <-].
      revert Hrun. unfold bind, setobj, ret. intros [= <- <-].
      split; [by rewrite length_alter|].
      exists (set_included_modules_paths (Some paths0) o).
      split; [by rewrite list_lookup_alter_eq, H|].
      intros hx Hx. unfold included_modules_paths.
      rewrite (bind_returns _ _ _ _ _ (getobj_some _ _ _ Hx)). cbn. by rewrite K.
Qed.


Import SampleFacts ProjectFacts.

Lemma included_run_returns :
  included_modules_docspecs 1 Sample.heap1 = (Returns [3], snd SampleMore.included_run).
Proof. vm_compute. reflexivity. Qed.


(** The second evaluation gives object 4 where the first gave object 3. *)
Example included_twice :
  fst (included_modules_docspecs 1 (snd SampleMore.included_run)) = Returns [4].
Proof. vm_compute. reflexivity. Qed.

End IncludedMore.

(** ** The docstring of a project *)
Module DocstringFacts.
Import PyStr DocGen Coherence CoherenceFacts TreeFacts Persistence PersistenceFacts.
Import PersistMore IncludedMore ProjectDoc ClaimInteresting.
Local Open Scope docgen_scope.

Lemma is_mod_extends h h' d m : extends h h' -> is_mod h d m -> is_mod h' d m.
Proof.
  intros [E _] (o & H & K). destruct (E d o H) as (o' & H' & K' & _).
  exists o'. split; [done | congruence].
Qed.

Lemma shortname_project self h o pname src dirs excl :
  h !! self = Some o -> obj_kind o = Project (Some pname) src dirs excl ->
  shortname self h = (Returns (short_of pname), h).
Proof.
  intros H K. unfold shortname.
  rewrite (bind_returns _ _ _ _ _ (getobj_some _ _ _ H)). rewrite K.
  assert (name self h = (Returns pname, h)) as Hn.
  { unfold name. rewrite (bind_returns _ _ _ _ _ (getobj_some _ _ _ H)). by rewrite K. }
  rewrite (bind_returns _ _ _ _ _ Hn). unfold short_of.
  by destruct (startswith pname "spruce-").
Qed.

(** The descendants that the loop flags: those with the name of the
    project whose docstring cannot be read. *)
Local Abbreviation flagged_in h' short :=
  (fun (d : nat) (m : Introspect.Module) =>
     named_like short m = true ->
     (exists e, Introspect.docstring m = Fail e) ->
     exists od, h' !! d = Some od /\ _skip od = true).

Lemma project_docstring_loop_spec self pname src dirs excl : forall ds mods h o doc,
  Forall2 (is_mod h) ds mods ->
  h !! self = Some o -> obj_kind o = Project (Some pname) src dirs excl ->
  _docstring o = Some doc ->
  exists h' o',
    project_docstring_loop self ds h = (Returns tt, h')
    /\ extends h h'
    /\ h' !! self = Some o'
    /\ _docstring o' = Some (docstring_of (short_of pname) mods doc)
    /\ Forall2 (flagged_in h' (short_of pname)) ds mods.
Proof.
  intros ds. induction ds as [|d ds IH]; intros mods h o doc F H K Hdoc.
  { inversion F; subst.
    exists h, o. split_and!; [done | apply extends_refl | done | done | constructor]. }
  inversion F as [|d' m ds' mods' Hd F']; subst. clear F. rename F' into F.
  pose proof Hd as (od & Hod & Kd).
  cbn [project_docstring_loop docstring_of].
  rewrite (bind_returns _ _ _ _ _ (name_module _ _ _ _ Hod Kd)).
  rewrite (bind_returns _ _ _ _ _ (shortname_project _ _ _ _ _ _ _ H K)).
  fold (named_like (short_of pname) m).
  assert (d <> self) as Hne by (intros ->; congruence).
  assert (exists h1 o1,
             (if named_like (short_of pname) m then
                try_except
                  (let* m0 := _module d in
                   let* doc0 := lift (Introspect.docstring m0) in
                   setobj self (set_docstring (Some doc0)))
                  (except_Exception (setobj d (set_skip true)))
              else ret tt) h = (Returns tt, h1)
             /\ extends h h1
             /\ h1 !! self = Some o1
             /\ obj_kind o1 = obj_kind o
             /\ _docstring o1
                = Some (if named_like (short_of pname) m then
                          match Introspect.docstring m with
                          | Ok d0 => d0
                          | Fail _ => doc
                          end
                        else doc)
             /\ flagged_in h1 (short_of pname) d m)
    as (h1 & o1 & R1 & X1 & H1 & K1 & D1 & Fl1).
  { destruct (named_like (short_of pname) m) eqn:En.
    - unfold try_except.
      rewrite (bind_returns _ _ _ _ _ (_module_reads _ _ _ _ Hod Kd)).
      destruct (Introspect.docstring m) as [d0|e] eqn:Ed.
      + exists (alter (set_docstring (Some d0)) self h), (set_docstring (Some d0) o).
        split_and!.
        * done.
        * eapply (keeps_setobj (P := persists)); [|reflexivity]. apply frame_docstring.
        * by rewrite list_lookup_alter_eq, H.
        * done.
        * done.
        * intros _ (e & He). discriminate.
      + exists (alter (set_skip true) d h), o. split_and!.
        * done.
        * eapply (keeps_setobj (P := persists)); [|reflexivity]. intros ?. apply frame_skip.
        * by rewrite list_lookup_alter_ne.
        * done.
        * done.
        * intros _ _. exists (set_skip true od).
          split; [by rewrite list_lookup_alter_eq, Hod | done].
    - exists h, o. split_and!; [done | apply extends_refl | done | done | done |].
      intros ?. discriminate. }
  rewrite (bind_returns _ _ _ _ _ R1).
  assert (Forall2 (is_mod h1) ds mods') as F1.
  { eapply Forall2_impl; [exact F|]. intros ? ?. by apply is_mod_extends. }
  destruct (IH mods' h1 o1 _ F1 H1 ltac:(congruence) D1) as (h' & o' & R & X & H' & D' & Fl).
  exists h', o'. split_and!; [done | by eapply extends_trans | done | done |].
  constructor; [|done].
  intros Hn He. destruct (Fl1 Hn He) as (od1 & Hod1 & S1).
  destruct (proj1 X d od1 Hod1) as (od' & Hod' & _ & _ & _ & S').
  exists od'. split; [done | by apply S'].
Qed.

Lemma pick_each {A B} (R : A -> B -> Prop) l :
  Forall (fun a => exists b, R a b) l -> exists bs, Forall2 R l bs.
Proof.
  induction 1 as [|a l (b & Hb) _ (bs & Hbs)]; [by exists [] | exists (b :: bs)].
  by constructor.
Qed.

Lemma top_entries_are_modules h self cs parts :
  Forall2 (top_entry h self) cs parts ->
  Forall (fun d => exists m, is_mod h d m) (concat parts).
Proof.
  intros F. apply List.Forall_forall. intros d Hin.
  destruct (in_parts _ _ _ _ F Hin) as (c & part & _ & (m & Hc & Hpart) & Hd).
  destruct (negb (str_eqb (Introspect.path m) "nisavid")).
  - subst part. destruct Hd as [<-|[]]. exists m. by eapply DescFacts.child_of_is_mod.
  - destruct Hpart as (subs & _ & Fp).
    destruct (in_children _ _ _ _ Fp Hd) as (sub & _ & Hsub).
    exists sub. by eapply DescFacts.child_of_is_mod.
Qed.

Lemma coherent_set_docstring h i o v : coherent h i o -> coherent h i (set_docstring v o).
Proof. intros [Cp Ci Ca Cc Cd Ct]. by split. Qed.

Lemma docstring_cached top_modules fuel self h o sp src dirs excl doc :
  h !! self = Some o -> obj_kind o = Project sp src dirs excl ->
  _docstring o = Some doc ->
  docstring top_modules fuel self h = (Returns doc, h).
Proof.
  intros H K D. unfold docstring.
  rewrite (bind_returns _ _ _ _ _ (getobj_some _ _ _ H)). by rewrite K, D.
Qed.

(** X14: the docstring of a project, the first time it is asked for.  The
    interesting descendants are listed; the docstring is the one of the
    last of them that is named like the project (its short name, or that
    name after [spruce.]) and whose docstring can be read, and the empty
    string when there is none.  Every such descendant whose docstring cannot
    be read is flagged to be skipped, and the failure is not raised.  The
    result is cached: a second evaluation returns it at once.  When listing
    the descendants raises, the exception goes through, and the cache is
    left holding the empty string, which a second evaluation returns. *)
Theorem project_docstring_first_evaluation
    top_modules fuel self h o pname src dirs excl r h' :
  wf h -> h !! self = Some o -> obj_kind o = Project (Some pname) src dirs excl ->
  _docstring o = None -> 1 <= fuel ->
  docstring top_modules fuel self h = (r, h') ->
  match top_interesting_descendants top_modules fuel self
          (alter (set_docstring (Some "")) self h) with
  | (Returns ds, h2) =>
      exists mods,
        Forall2 (is_mod h2) ds mods
        /\ r = Returns (docstring_of (short_of pname) mods "")
        /\ Forall2 (fun d m =>
                      named_like (short_of pname) m = true ->
                      (exists e, Introspect.docstring m = Fail e) ->
                      exists od, h' !! d = Some od /\ _skip od = true)
                   ds mods
        /\ docstring top_modules fuel self h' = (r, h')
  | (Raises e, h2) =>
      r = Raises e /\ docstring top_modules fuel self h' = (Returns "", h')
  | (Timeout, _) => False
  end.
Proof.
  intros W H K D Hfuel. unfold docstring at 1.
  rewrite (bind_returns _ _ _ _ _ (getobj_some _ _ _ H)). rewrite K, D.
  unfold bind at 1. unfold setobj at 1.
  set (h0 := alter (set_docstring (Some "")) self h).
  assert (h0 !! self = Some (set_docstring (Some "") o)) as H0.
  { unfold h0. by rewrite list_lookup_alter_eq, H. }
  assert (wf h0) as W0.
  { apply wf_alter; [done | intros ? _; by split_and! |].
    intros o0 Ho0. assert (o0 = o) as -> by congruence.
    apply coherent_set_docstring. eapply coherent_ext; [|by apply W].
    apply ext_alter. intros ? _. by split_and!. }
  destruct (top_interesting_descendants_spec top_modules fuel self h0 _ (Some pname)
              src dirs excl W0 H0 K Hfuel) as (r0 & h2 & R0 & W2 & E2 & Hr).
  pose proof (keeps_top_interesting_descendants (P := untouched) top_modules
                _ _ _ _ _ R0) as [U2 _].
  destruct (U2 self _ H0) as (o2 & H2 & K2 & _ & _ & _ & _ & D2).
  cbn in K2, D2. rewrite R0.
  destruct r0 as [ds|e|]; [| |done].
  - destruct Hr as (cs & parts & F & ->).
    destruct (pick_each _ _ (top_entries_are_modules _ _ _ _ F)) as (mods & Fm).
    destruct (project_docstring_loop_spec self pname src dirs excl (concat parts) mods
                h2 o2 "" Fm H2 ltac:(congruence) D2)
      as (h3 & o3 & R3 & X3 & H3 & D3 & Fl).
    unfold bind at 1. rewrite R0.
    rewrite (bind_returns _ _ _ _ _ R3).
    rewrite (bind_returns _ _ _ _ _ (getobj_some _ _ _ H3)). rewrite D3. cbn [default].
    unfold ret. intros [= <- <-].
    exists mods. split_and!; [done | done | done |].
    destruct (proj1 X3 self o2 H2) as (o3' & H3' & K3 & _).
    assert (o3' = o3) as -> by congruence.
    assert (obj_kind o3 = Project (Some pname) src dirs excl) as K3' by congruence.
    exact (docstring_cached _ _ _ _ _ _ _ _ _ _ H3 K3' D3).
  - unfold bind at 1. rewrite R0. intros [= <- <-]. split; [done|].
    assert (obj_kind o2 = Project (Some pname) src dirs excl) as K2' by congruence.
    exact (docstring_cached _ _ _ _ _ _ _ _ _ _ H2 K2' D2).
Qed.

Import SampleFacts.

Lemma project_docstring_first_evaluation_witness :
  match top_interesting_descendants SampleMore.top_modules 5 0
          (alter (set_docstring (Some "")) 0 Sample.heap0) with
  | (Returns ds, h2) =>
      exists mods,
        Forall2 (is_mod h2) ds mods
        /\ fst SampleMore.docstring_run
           = Returns (docstring_of (short_of "spruce-demo") mods "")
        /\ Forall2 (fun d m =>
                      named_like (short_of "spruce-demo") m = true ->
                      (exists e, Introspect.docstring m = Fail e) ->
                      exists od, snd SampleMore.docstring_run !! d = Some od
                                 /\ _skip od = true)
                   ds mods
        /\ docstring SampleMore.top_modules 5 0 (snd SampleMore.docstring_run)
           = (fst SampleMore.docstring_run, snd SampleMore.docstring_run)
  | (Raises e, h2) =>
      fst SampleMore.docstring_run = Raises e
      /\ docstring SampleMore.top_modules 5 0 (snd SampleMore.docstring_run)
         = (Returns "", snd SampleMore.docstring_run)
  | (Timeout, _) => False
  end.
Proof.
  refine (project_docstring_first_evaluation SampleMore.top_modules 5 0 Sample.heap0
            (new_obj (Project (Some "spruce-demo") "." ["."] []) "doc" None)
            "spruce-demo" "." ["."] []
            (fst SampleMore.docstring_run) (snd SampleMore.docstring_run)
            wf_heap0 eq_refl eq_refl eq_refl _ _).
  - lia.
  - unfold SampleMore.docstring_run. apply surjective_pairing.
Defined.

(** The module [demo] of the project [spruce-demo] has a docstring that
    cannot be read: the project's docstring is empty, the doc-spec of the
    module (object 1) is flagged, and the dry run prints the top-level page
    and the page of the other module only. *)
Example docstring_of_the_broken_project :
  fst SampleMore.docstring_run = Returns ""
  /\ _skip <$> (snd SampleMore.docstring_run !! 1) = Some true
  /\ _skip <$> (snd SampleMore.docstring_run !! 2) = Some false.
Proof. vm_compute. done. Qed.

Example pretend_run_of_the_broken_project :
  fst (fst SampleMore.pretend_run) = Returns tt
  /\ filter (fun line => bool_decide (line = "----")) (stdout (snd SampleMore.pretend_run))
     = ["----"; "----"]
  /\ In "other.rst" (stdout (snd SampleMore.pretend_run))
  /\ ~ In "demo.rst" (stdout (snd SampleMore.pretend_run)).
Proof.
  split_and!; [by vm_compute | by vm_compute | |].
  - vm_compute. tauto.
  - vm_compute. intros H. repeat (destruct H as [H|H]; [discriminate H|]). exact H.
Qed.

End DocstringFacts.

(** ** What the attribute filter accepts *)
Module FilterMore.
Import PyStr DocGen Coherence CoherenceFacts TreeFacts DescFacts FilterFacts.
Local Open Scope docgen_scope.

Lemma str_in_false x l : str_in x l = false -> ~ In x l.
Proof.
  unfold str_in. intros Hf Hin.
  assert (existsb (str_eqb x) l = true) as Ht.
  { apply existsb_exists. exists x. split; [done | apply String.eqb_refl]. }
  congruence.
Qed.

Lemma named_false attrname l x :
  DocTree.named attrname l = false -> In x l -> Introspect.name x <> attrname.
Proof.
  unfold DocTree.named. intros Hf Hin Heq.
  assert (existsb (fun y => str_eqb attrname (Introspect.name y)) l = true) as Ht.
  { apply existsb_exists. exists x. split; [done|]. rewrite Heq. apply String.eqb_refl. }
  congruence.
Qed.

Lemma defined_in_false attrname l x names :
  DocTree.defined_in attrname l = Ok false -> In x l ->
  Introspect.attrnames x = Ok names -> ~ In attrname names.
Proof.
  induction l as [|y l IH]; cbn; [done|].
  intros Hd [->|Hin] Hx.
  - rewrite Hx in Hd. destruct (str_in attrname names) eqn:E; [discriminate|].
    by apply str_in_false.
  - apply IH; [|done..].
    destruct (Introspect.attrnames y) as [ns|e].
    + by destruct (str_in attrname ns).
    + by destruct e.
Qed.


Import SampleFacts ProjectFacts.

Lemma sample_pkg : Sample.heap1 !! 1 = Some (new_obj (Mod Sample.pkg) "doc" (Some 0)).
Proof. vm_compute. reflexivity. Qed.
Lemma sample_pkg_lineage : lineage Sample.heap1 (Some 0) [[]].
Proof. econstructor; [reflexivity | reflexivity | constructor]. Qed.
Lemma run_is_accepted :
  _should_doc_module_attr Sample.top_modules Sample.builtins 9 1 "run" false Sample.heap1
  = (Returns true, snd Sample.first_run).
Proof. vm_compute. reflexivity. Qed.
Lemma sample_pkg_fuel : length (@nil (list string) :: nil) + 2 * Introspect.height Sample.pkg <= 9.
Proof. vm_compute. lia. Qed.


End FilterMore.

(** ** [root] *)
Module RootFacts.
Import PyStr DocGen Coherence CoherenceFacts TreeFacts Persistence PersistenceFacts Roots.
Import PersistMore.
Local Open Scope docgen_scope.

Lemma top_of_extends h h' i r : extends h h' -> top_of h i r -> top_of h' i r.
Proof.
  intros [E _]. induction 1 as [i o H Hp | i o p r H Hp _ IH].
  - destruct (E i o H) as (o' & H' & _ & P' & _).
    eapply top_here; [exact H' | by rewrite P'].
  - destruct (E i o H) as (o' & H' & _ & P' & _).
    eapply top_above; [exact H' | by rewrite P' | done].
Qed.

Lemma coherent_set_root h i o v : coherent h i o -> coherent h i (set_root v o).
Proof. intros [Cp Ci Ca Cc Cd Ct]. by split. Qed.

Lemma root_cached fuel self h o r :
  h !! self = Some o -> _root o = Some r -> root (S fuel) self h = (Returns r, h).
Proof.
  intros H R. cbn [root].
  rewrite (bind_returns _ _ _ _ _ (getobj_some _ _ _ H)). by rewrite R.
Qed.

Lemma root_spec fuel : forall self h o,
  wf h -> roots_cached h -> h !! self = Some o -> self < fuel ->
  exists r h',
    root fuel self h = (Returns r, h')
    /\ top_of h' self r /\ roots_cached h' /\ wf h' /\ extends h h'
    /\ exists o', h' !! self = Some o' /\ _root o' = Some r.
Proof.
  induction fuel as [|fuel IH]; intros self h o W C H Hfuel; [lia|].
  cbn [root]. rewrite (bind_returns _ _ _ _ _ (getobj_some _ _ _ H)).
  destruct (_root o) as [r|] eqn:Er.
  { exists r, h. split_and!; [done | by eapply C | done | done | apply extends_refl |].
    by exists o. }
  assert (forall r h1 o1,
             wf h1 -> roots_cached h1 -> extends h h1 -> h1 !! self = Some o1 ->
             top_of h1 self r ->
             let h' := alter (set_root (Some r)) self h1 in
             top_of h' self r /\ roots_cached h' /\ wf h' /\ extends h h'
             /\ exists o', h' !! self = Some o' /\ _root o' = Some r) as Hset.
  { intros r h1 o1 W1 C1 X1 H1 T1 h'.
    assert (extends h1 h') as X'.
    { eapply (keeps_setobj (P := persists)); [|reflexivity]. apply frame_root. }
    split_and!.
    - by eapply top_of_extends.
    - intros i oi ri Hi Ri. destruct (decide (self = i)) as [<-|Hne].
      + unfold h' in Hi. rewrite list_lookup_alter_eq, H1 in Hi.
        injection Hi as <-. cbn in Ri. injection Ri as <-.
        by eapply top_of_extends.
      + unfold h' in Hi. rewrite list_lookup_alter_ne in Hi by done.
        eapply top_of_extends; [exact X'|]. by eapply C1.
    - apply wf_alter; [done | intros ? _; by split_and! |].
      intros o0 Ho0. assert (o0 = o1) as -> by congruence.
      apply coherent_set_root. eapply coherent_ext; [|by apply W1].
      apply ext_alter. intros ? _. by split_and!.
    - by eapply extends_trans.
    - exists (set_root (Some r) o1). split; [|done].
      unfold h'. by rewrite list_lookup_alter_eq, H1. }
  destruct (_parent o) as [p|] eqn:Ep.
  - destruct (co_parent _ _ _ (W _ _ H) p Ep) as (Hlt & _ & op & own & Hop & _).
    destruct (IH p h op W C Hop ltac:(lia)) as (r & h1 & R1 & T1 & C1 & W1 & X1 & _).
    rewrite (bind_returns _ _ _ _ _ R1).
    destruct (proj1 X1 self o H) as (o1 & H1 & _ & P1 & _).
    exists r, (alter (set_root (Some r)) self h1).
    split; [done|].
    apply (Hset r h1 o1 W1 C1 X1 H1).
    eapply top_above; [exact H1 | by rewrite P1 | done].
  - exists self, (alter (set_root (Some self)) self h).
    split; [done|].
    apply (Hset self h o W C (extends_refl _) H).
    by eapply top_here.
Qed.

(** X16: in a heap whose caches agree with the introspection data and whose
    cached roots are right, [root] returns, within as many turns as the
    index of the doc-spec plus one, the doc-spec at the top of the chain of
    parents (the one that has no parent); it leaves such a heap, in which
    every doc-spec that existed is kept, and it has cached its result: a
    second evaluation returns it at once. *)
Theorem root_is_the_top_of_the_parents fuel self h o :
  wf h -> roots_cached h -> h !! self = Some o -> self < fuel ->
  exists r h',
    root fuel self h = (Returns r, h')
    /\ top_of h self r
    /\ wf h' /\ roots_cached h'
    /\ (forall i oi, h !! i = Some oi ->
        exists oi', h' !! i = Some oi' /\ obj_kind oi' = obj_kind oi
                    /\ _parent oi' = _parent oi)
    /\ root fuel self h' = (Returns r, h').
Proof.
  intros W C H Hfuel.
  destruct (root_spec fuel self h o W C H Hfuel)
    as (r & h' & R & T & C' & W' & X & o' & H' & R').
  exists r, h'. split_and!; try done.
  - clear R C' W' H' R'. 
    assert (forall i r, top_of h' i r -> forall oi, h !! i = Some oi -> top_of h i r) as Back.
    { induction 1 as [i oi' Hi Hp | i oi' p r0 Hi Hp Hup IHup]; intros oi Hoi.
      - destruct (proj1 X i oi Hoi) as (oi2 & Hoi2 & _ & P2 & _).
        assert (oi2 = oi') as -> by congruence.
        eapply top_here; [exact Hoi | by rewrite <- P2].
      - destruct (proj1 X i oi Hoi) as (oi2 & Hoi2 & _ & P2 & _).
        assert (oi2 = oi') as -> by congruence.
        assert (_parent oi = Some p) as Hp' by (by rewrite <- P2).
        destruct (co_parent _ _ _ (W _ _ Hoi) p Hp') as (_ & _ & op & _ & Hop & _).
        eapply top_above; [exact Hoi | exact Hp' | by eapply IHup]. }
    by eapply Back.
  - intros i oi Hi. destruct (proj1 X i oi Hi) as (oi' & Hi' & K' & P' & _).
    by exists oi'.
  - destruct fuel as [|fuel]; [lia|]. by eapply root_cached.
Qed.

Import SampleFacts ProjectFacts.

Lemma no_root_cached h : Forall (fun o => _root o = None) h -> roots_cached h.
Proof.
  intros F i o r H R. apply Forall_lookup_1 with (i := i) (x := o) in F; [|done].
  congruence.
Qed.

Lemma sample_roots : roots_cached Sample.heap2.
Proof. apply no_root_cached. vm_compute. repeat constructor. Qed.

Lemma sample_index :
  Sample.heap2 !! 3
  = Some (new_obj (Mod (Sample.leaf "pkg.index" "index" [])) "doc/pkg" (Some 1)).
Proof. vm_compute. reflexivity. Qed.

Lemma root_is_the_top_of_the_parents_witness :
  exists r h',
    root 4 3 Sample.heap2 = (Returns r, h')
    /\ top_of Sample.heap2 3 r
    /\ wf h' /\ roots_cached h'
    /\ (forall i oi, Sample.heap2 !! i = Some oi ->
        exists oi', h' !! i = Some oi' /\ obj_kind oi' = obj_kind oi
                    /\ _parent oi' = _parent oi)
    /\ root 4 3 h' = (Returns r, h').
Proof.
  refine (root_is_the_top_of_the_parents 4 3 Sample.heap2 _ wf_heap2 sample_roots
            sample_index _).
  lia.
Defined.

Example root_of_a_module : fst (root 4 3 Sample.heap2) = Returns 0.
Proof. vm_compute. reflexivity. Qed.

End RootFacts.

(** ** [reldocpath] *)
Module PathMore.
Import PagePath.
Import PyStr DocGen Coherence CoherenceFacts TreeFacts Persistence PersistenceFacts.
Import PersistMore IncludedMore.
Local Open Scope docgen_scope.

Lemma has_char_app c a b : has_char c (a +:+ b) = has_char c a || has_char c b.
Proof. induction a as [|d a IH]; cbn; [done|]. by rewrite IH, orb_assoc. Qed.

Lemma no_slash_endswith n : has_char slash n = false -> endswith_char n slash = false.
Proof.
  induction n as [|c r IH]; [done|]. cbn [has_char endswith_char].
  intros [Hc Hr]%orb_false_iff.
  destruct r; [|by apply IH].
  unfold ascii_eqb in *. by rewrite Ascii.eqb_sym.
Qed.

Lemma join_index n :
  n <> "" -> has_char slash n = false -> PosixPath.join n "index" = n +:+ "/index".
Proof.
  intros Hne Hs. unfold PosixPath.join.
  change (startswith "index" "/") with false. cbv iota.
  rewrite (no_slash_endswith n Hs).
  destruct n; [done|]. reflexivity.
Qed.

Lemma before_slash a b x y :
  has_char slash a = false -> has_char slash b = false ->
  a +:+ String slash x = b +:+ String slash y -> a = b.
Proof.
  revert b. induction a as [|c a IH]; intros [|d b]; cbn.
  - done.
  - intros _ [Hd _]%orb_false_iff [= <- _]. by vm_compute in Hd.
  - intros [Hc _]%orb_false_iff _ [= -> _]. by vm_compute in Hc.
  - intros [_ Ha]%orb_false_iff [_ Hb]%orb_false_iff [= -> E]. f_equal. by eapply IH.
Qed.

Lemma rel_of_injective na nb (ca cb : bool) :
  na <> "" -> nb <> "" ->
  has_char slash na = false -> has_char slash nb = false ->
  rel_of na ca = rel_of nb cb ->
  na = nb \/ (na = "index" /\ nb = "index_") \/ (na = "index_" /\ nb = "index").
Proof.
  intros Hna Hnb Sa Sb.
  assert (forall n, has_char slash n = false ->
            has_char slash (if str_eqb n "index" then n +:+ "_" else n) = false) as Leaf.
  { intros n Hn. destruct (str_eqb n "index"); [|done].
    rewrite has_char_app, Hn. reflexivity. }
  assert (forall n, has_char slash (n +:+ "/index") = true) as Pkg.
  { intros n. rewrite has_char_app. apply orb_true_iff. by right. }
  unfold rel_of. destruct ca, cb; rewrite ?join_index by done.
  - intros E. left. by eapply before_slash.
  - intros E. pose proof (Leaf nb Sb) as L. rewrite <- E, Pkg in L. discriminate.
  - intros E. pose proof (Leaf na Sa) as L. rewrite E, Pkg in L. discriminate.
  - destruct (String.eqb_spec na "index") as [->|Ea],
      (String.eqb_spec nb "index") as [->|Eb]; unfold str_eqb.
    + by left.
    + rewrite String.eqb_refl. destruct (String.eqb_spec nb "index"); [done|].
      intros <-. right. by left.
    + rewrite String.eqb_refl. destruct (String.eqb_spec na "index"); [done|].
      intros ->. right. by right.
    + destruct (String.eqb_spec na "index"); [done|].
      destruct (String.eqb_spec nb "index"); [done|]. intros ->. by left.
Qed.

Lemma reldocpath_module top_modules fuel self h o m r h' :
  h !! self = Some o -> obj_kind o = Mod m ->
  reldocpath top_modules fuel self h = (Returns r, h') ->
  exists has_children, r = rel_of (Introspect.name m) has_children.
Proof.
  intros H K. unfold reldocpath.
  assert (isproject self h = (Returns false, h)) as Hp.
  { unfold isproject. rewrite (bind_returns _ _ _ _ _ (getobj_some _ _ _ H)). by rewrite K. }
  rewrite (bind_returns _ _ _ _ _ Hp).
  intros (cs & h1 & Hcs & Hrun)%bind_inv.
  destruct (proj1 (keeps_children (P := persists) top_modules _ _ _ _ _ Hcs) self o H)
    as (o1 & H1 & K1 & _).
  assert (shortname self h1 = (Returns (Introspect.name m), h1)) as Hs.
  { eapply shortname_module; [exact H1 | congruence]. }
  destruct cs as [|c cs].
  - exists false. rewrite (bind_returns _ _ _ _ _ Hs) in Hrun. unfold rel_of.
    destruct (str_eqb (Introspect.name m) "index"); by injection Hrun as <- _.
  - exists true. rewrite (bind_returns _ _ _ _ _ Hs) in Hrun. by injection Hrun as <- _.
Qed.



Lemma reldocpath_of_index :
  reldocpath Sample.top_modules 9 3 Sample.heap2
  = (Returns "index_", snd (reldocpath Sample.top_modules 9 3 Sample.heap2)).
Proof. vm_compute. reflexivity. Qed.

Lemma reldocpath_of_index_ :
  reldocpath Sample.top_modules 9 4 Sample.heap2
  = (Returns "index_", snd (reldocpath Sample.top_modules 9 4 Sample.heap2)).
Proof. vm_compute. reflexivity. Qed.

Lemma sample_leaf_index :
  Sample.heap2 !! 3
  = Some (new_obj (Mod (Sample.leaf "pkg.index" "index" [])) "doc/pkg" (Some 1)).
Proof. vm_compute. reflexivity. Qed.

Lemma sample_leaf_index_ :
  Sample.heap2 !! 4
  = Some (new_obj (Mod (Sample.leaf "pkg.index_" "index_" [])) "doc/pkg" (Some 1)).
Proof. vm_compute. reflexivity. Qed.


End PathMore.

(** ** [descendants] *)
Module ListingFacts.
Import PyStr DocGen Coherence CoherenceFacts TreeFacts DescFacts Persistence PersistenceFacts.
Import PersistMore IncludedMore Listing.
Local Open Scope docgen_scope.

Lemma children_kept_refl h : children_kept h h.
Proof. intros i o cs H C. by exists o. Qed.

Lemma children_kept_trans h1 h2 h3 :
  children_kept h1 h2 -> children_kept h2 h3 -> children_kept h1 h3.
Proof.
  intros K1 K2 i o cs H C. destruct (K1 i o cs H C) as (o2 & H2 & C2).
  by apply (K2 i o2 cs).
Qed.

Lemma listing_kept h h' cs ds : children_kept h h' -> listing h cs ds -> listing h' cs ds.
Proof.
  intros K. induction 1 as [|c o cs below rest others H C _ IH1 _ IH2]; [constructor|].
  destruct (K c o cs H C) as (o' & H' & C'). by econstructor.
Qed.

Section Walk.
Variable top_modules : string -> list string -> list Introspect.Module.

(** [children] keeps the children that are cached, and when it returns it
    has cached what it returns. *)
Lemma children_keeps_children fuel self h r h' :
  children top_modules fuel self h = (r, h') ->
  children_kept h h'
  /\ forall cs, r = Returns cs ->
       exists o', h' !! self = Some o' /\ _children o' = Some cs.
Proof.
  unfold children. unfold bind at 1. unfold getobj.
  destruct (h !! self) as [o|] eqn:H.
  2:{ intros [= <- <-]. split; [apply children_kept_refl | done]. }
  destruct (_children o) as [cs0|] eqn:Ec.
  { intros [= <- <-]. split; [apply children_kept_refl|].
    intros cs [= <-]. by exists o. }
  unfold bind at 1.
  match goal with
  | |- context [match ?c h with _ => _ end] => destruct (c h) as [rc h1] eqn:Hc
  end.
  pose proof (keeps_children_body (P := same_children) fuel self o top_modules
                _ _ _ Hc) as [X _].
  destruct rc as [cs|e|].
  - unfold bind, setobj, ret. intros [= <- <-]. split.
    + intros i oi csi Hi Ci. destruct (X i oi Hi) as (oi1 & Hi1 & Si).
      destruct (decide (self = i)) as [<-|Hne].
      * congruence.
      * exists oi1. split; [by rewrite list_lookup_alter_ne|].
        unfold same_children in Si. congruence.
    + intros cs' [= <-]. destruct (X self o H) as (o1 & H1 & _).
      exists (set_children (Some cs) o1). split; [|done].
      by rewrite list_lookup_alter_eq, H1.
  - intros [= <- <-]. split; [|done].
    intros i oi csi Hi Ci. destruct (X i oi Hi) as (oi1 & Hi1 & Si).
    exists oi1. split; [done|]. unfold same_children in Si. congruence.
  - intros [= <- <-]. split; [|done].
    intros i oi csi Hi Ci. destruct (X i oi Hi) as (oi1 & Hi1 & Si).
    exists oi1. split; [done|]. unfold same_children in Si. congruence.
Qed.

Lemma children_keeps_descendants fuel self h r h' :
  descendants_cached h -> children top_modules fuel self h = (r, h') ->
  descendants_cached h'.
Proof.
  intros C Hrun.
  pose proof (keeps_children (P := untouched) top_modules _ _ _ _ _ Hrun) as [X N].
  destruct (children_keeps_children _ _ _ _ _ Hrun) as [K _].
  intros i o' d ds H' D'.
  destruct (decide (i < length h)) as [Hlt|Hge].
  - destruct (lookup_lt_is_Some_2 h i Hlt) as [o H].
    destruct (X i o H) as (o2 & H2 & _ & _ & _ & D2 & _).
    assert (o2 = o') as -> by congruence.
    destruct (C i o d ds H ltac:(congruence)) as (cs & Ccs & L).
    destruct (K i o cs H Ccs) as (o3 & H3 & C3).
    assert (o3 = o') as -> by congruence.
    exists cs. split; [done | by eapply listing_kept].
  - destruct (N i o' ltac:(lia) H') as (_ & Dn & _). congruence.
Qed.

Lemma descendants_over_children fuel :
  (forall self h r h',
      descendants_cached h -> descendants top_modules fuel self h = (r, h') ->
      walked h r h' self) ->
  forall cs h r h',
    descendants_cached h ->
    mapM (fun child =>
            let* below := descendants top_modules fuel child in
            ret (child :: below)) cs h = (r, h') ->
    descendants_cached h' /\ children_kept h h'
    /\ forall parts, r = Returns parts -> listing h' cs (concat parts).
Proof.
  intros IH. induction cs as [|c cs IHcs]; intros h r h' C; cbn [mapM].
  { intros [= <- <-]. split_and!; [done | apply children_kept_refl |].
    intros parts [= <-]. constructor. }
  unfold bind at 1. unfold bind at 1.
  destruct (descendants top_modules fuel c h) as [rc h1] eqn:Hc.
  destruct (IH c h rc h1 C Hc) as (C1 & K1 & L1).
  destruct rc as [below|e|]; [|by intros [= <- <-]..].
  destruct (L1 below eq_refl) as (oc & csc & Hoc & Cc & Lc).
  unfold ret at 1. unfold bind at 1.
  match goal with
  | |- context [mapM ?f cs h1] => destruct (mapM f cs h1) as [rr h2] eqn:Hr
  end.
  destruct (IHcs h1 rr h2 C1 Hr) as (C2 & K2 & L2).
  destruct rr as [parts|e|].
  - intros [= <- <-]. split_and!; [done | by eapply children_kept_trans |].
    intros parts' [= <-]. cbn [concat app].
    destruct (K2 c oc csc Hoc Cc) as (oc2 & Hoc2 & Cc2).
    econstructor; [exact Hoc2 | exact Cc2 | by eapply listing_kept | by apply L2].
  - intros [= <- <-]. split_and!; [done | by eapply children_kept_trans | done].
  - intros [= <- <-]. split_and!; [done | by eapply children_kept_trans | done].
Qed.

Lemma descendants_walk fuel : forall self h r h',
  descendants_cached h -> descendants top_modules fuel self h = (r, h') ->
  walked h r h' self.
Proof.
  induction fuel as [|fuel IH]; intros self h r h' C; cbn [descendants].
  { intros [= <- <-]. split_and!; [done | apply children_kept_refl | done]. }
  unfold bind at 1. unfold getobj.
  destruct (h !! self) as [o|] eqn:H.
  2:{ intros [= <- <-]. split_and!; [done | apply children_kept_refl | done]. }
  assert (forall hx rx,
             (let* cs := children top_modules (S fuel) self in
              let* per_child :=
                mapM (fun child =>
                        let* below := descendants top_modules fuel child in
                        ret (child :: below)) cs in
              let* _ := setobj self (set_descendants (Some (concat per_child))) in
              ret (concat per_child)) h = (rx, hx) ->
             walked h rx hx self) as Hmiss.
  { intros hx rx. unfold bind at 1.
    destruct (children top_modules (S fuel) self h) as [rc h1] eqn:Hc.
    pose proof (children_keeps_descendants _ _ _ _ _ C Hc) as C1.
    destruct (children_keeps_children _ _ _ _ _ Hc) as [K1 F1].
    destruct rc as [cs|e|]; [|by intros [= <- <-]..].
    destruct (F1 cs eq_refl) as (o1 & H1 & Cs1).
    unfold bind at 1.
    match goal with
    | |- context [mapM ?f cs h1] => destruct (mapM f cs h1) as [rp h2] eqn:Hp
    end.
    destruct (descendants_over_children fuel IH cs h1 rp h2 C1 Hp) as (C2 & K2 & L2).
    destruct rp as [parts|e|];
      [|intros [= <- <-]; split_and!;
          [done | by eapply children_kept_trans | done]..].
    unfold bind, setobj, ret. intros [= <- <-].
    destruct (K2 self o1 cs H1 Cs1) as (o2 & H2 & Cs2).
    set (h3 := alter (set_descendants (Some (concat parts))) self h2).
    assert (children_kept h2 h3) as K3.
    { intros i oi csi Hi Ci. destruct (decide (self = i)) as [<-|Hne].
      - exists (set_descendants (Some (concat parts)) oi).
        split; [by unfold h3; rewrite list_lookup_alter_eq, Hi | done].
      - exists oi. split; [by unfold h3; rewrite list_lookup_alter_ne | done]. }
    assert (h3 !! self = Some (set_descendants (Some (concat parts)) o2)) as H3.
    { unfold h3. by rewrite list_lookup_alter_eq, H2. }
    split_and!.
    - intros i oi d ds Hi Di. destruct (decide (self = i)) as [<-|Hne].
      + rewrite H3 in Hi. injection Hi as <-. cbn in Di. injection Di as Di.
        exists cs. split; [done|]. rewrite <- Di. eapply listing_kept; [exact K3|].
        by apply L2.
      + unfold h3 in Hi. rewrite list_lookup_alter_ne in Hi by done.
        destruct (C2 i oi d ds Hi Di) as (csi & Ci & Li).
        exists csi. split; [done | by eapply listing_kept].
    - eapply children_kept_trans; [exact K1|].
      by eapply children_kept_trans.
    - intros ds [= <-]. exists (set_descendants (Some (concat parts)) o2), cs.
      split_and!; [done | done |]. eapply listing_kept; [exact K3 | by apply L2]. }
  destruct (_descendants o) as [[|d ds]|] eqn:Ed; [by apply Hmiss | | by apply Hmiss].
  intros [= <- <-]. split_and!; [done | apply children_kept_refl |].
  intros ds' [= <-]. destruct (C self o d ds H Ed) as (cs & Ccs & L).
  by exists o, cs.
Qed.

Lemma children_hit fuel self h o cs :
  h !! self = Some o -> _children o = Some cs ->
  children top_modules fuel self h = (Returns cs, h).
Proof.
  intros H C. unfold children.
  rewrite (bind_returns _ _ _ _ _ (getobj_some _ _ _ H)). by rewrite C.
Qed.

(** X18: in a heap where the cached lists of descendants are right (as in
    every heap in which none is cached yet), whenever [descendants]
    returns, it returns the doc-specs below the given one in the order of
    a walk of the tree from the top: each child that [children] gives,
    followed at once by everything below that child, then the next child.
    It leaves a heap of the same kind, in which [children] of the doc-spec
    is cached. *)
Theorem descendants_lists_the_tree fuel self h ds h' :
  descendants_cached h ->
  descendants top_modules fuel self h = (Returns ds, h') ->
  exists cs,
    children top_modules fuel self h' = (Returns cs, h')
    /\ listing h' cs ds
    /\ descendants_cached h'.
Proof.
  intros C Hrun.
  destruct (descendants_walk fuel self h _ h' C Hrun) as (C' & _ & L).
  destruct (L ds eq_refl) as (o' & cs & H' & Ccs & Lcs).
  exists cs. split_and!; [by eapply children_hit | done | done].
Qed.

End Walk.

Lemma no_descendants_cached h :
  Forall (fun o => _descendants o = None) h -> descendants_cached h.
Proof.
  intros F i o d ds H D. apply Forall_lookup_1 with (i := i) (x := o) in F; [|done].
  congruence.
Qed.

Lemma sample_descendants_cached : descendants_cached Sample.heap0.
Proof. apply no_descendants_cached. vm_compute. repeat constructor. Qed.

Lemma descendants_run_returns :
  descendants Sample.top_modules 9 0 Sample.heap0
  = (Returns [1; 3; 4; 5; 6; 2; 7], snd SampleMore.descendants_run).
Proof. vm_compute. reflexivity. Qed.

Lemma descendants_lists_the_tree_witness :
  exists cs,
    children Sample.top_modules 9 0 (snd SampleMore.descendants_run)
    = (Returns cs, snd SampleMore.descendants_run)
    /\ listing (snd SampleMore.descendants_run) cs [1; 3; 4; 5; 6; 2; 7]
    /\ descendants_cached (snd SampleMore.descendants_run).
Proof.
  exact (descendants_lists_the_tree Sample.top_modules 9 0 Sample.heap0
           [1; 3; 4; 5; 6; 2; 7] (snd SampleMore.descendants_run)
           sample_descendants_cached descendants_run_returns).
Defined.

End ListingFacts.

(** ** The walk of [descendants] ends *)
Module WalkFacts.
Import PyStr DocGen Coherence CoherenceFacts TreeFacts DescFacts ProjectFacts.
Import ClaimInteresting.
Local Open Scope docgen_scope.

Lemma coherent_set_descendants h i o v : coherent h i o -> coherent h i (set_descendants v o).
Proof. intros [Cp Ci Ca Cc Cd Ct]. by split. Qed.

(** A call that ends: it returns or raises within the turns it is given. *)
Local Abbreviation ends r := ((exists ds : list nat, r = Returns ds) \/ (exists e, r = Raises e)).

Section Total.
Variable top_modules : string -> list string -> list Introspect.Module.

Local Abbreviation walk_ends fuel :=
  (forall self h o m owns,
      wf h -> h !! self = Some o -> obj_kind o = Mod m ->
      lineage h (_parent o) owns ->
      length owns + 2 * Introspect.height m <= fuel ->
      exists r h',
        descendants top_modules fuel self h = (r, h') /\ wf h' /\ ext h h' /\ ends r).

Lemma walk_children_ends fuel self own owns :
  walk_ends fuel ->
  forall cs subs h,
    wf h -> Forall2 (child_of h self) cs subs ->
    (forall sub, In sub subs -> S (length owns) + 2 * Introspect.height sub <= fuel) ->
    (cs <> [] -> lineage h (Some self) (own :: owns)) ->
    exists r h',
      mapM (fun child =>
              let* below := descendants top_modules fuel child in
              ret (child :: below)) cs h = (r, h')
      /\ wf h' /\ ext h h'
      /\ ((exists parts : list (list nat), r = Returns parts) \/ (exists e, r = Raises e)).
Proof.
  intros IH. induction cs as [|c cs IHcs]; intros subs h W F Hfuel L.
  { exists (Returns []), h. split_and!; [done | done | apply ext_refl |].
    left. by eexists. }
  inversion F as [|c' sub cs' subs' Hc Frest]; subst.
  specialize (L ltac:(done)).
  destruct Hc as (oc & Hoc & Kc & Pc).
  destruct (IH c h oc sub (own :: owns) W Hoc Kc) as (rb & hb & Rb & Wb & Eb & Hrb).
  { by rewrite Pc. }
  { cbn [length]. specialize (Hfuel sub (or_introl eq_refl)). lia. }
  cbn [mapM]. unfold bind at 1. unfold bind at 1. rewrite Rb.
  destruct Hrb as [(below & ->) | (e & ->)].
  2:{ exists (Raises e), hb. split_and!; [done | done | done |]. right. by eexists. }
  destruct (IHcs subs' hb Wb) as (r & h' & R & W' & E' & Hr).
  { eapply Forall2_impl; [exact Frest|]. intros ? ?. by apply child_of_ext. }
  { intros s Hs. apply Hfuel. by right. }
  { intros _. by eapply lineage_ext. }
  unfold ret at 1. unfold bind at 1. rewrite R.
  destruct Hr as [(parts & ->) | (e & ->)].
  - eexists _, h'. split_and!; [reflexivity | done | eauto using ext_trans |].
    left. by eexists.
  - eexists _, h'. split_and!; [reflexivity | done | eauto using ext_trans |].
    right. by eexists.
Qed.

Lemma cache_descendants self (per_child : list (list nat)) h o :
  wf h -> h !! self = Some o ->
  exists h',
    (let* _ := setobj self (set_descendants (Some (concat per_child))) in
     ret (concat per_child)) h = (Returns (concat per_child), h')
    /\ wf h' /\ ext h h'.
Proof.
  intros W H. exists (alter (set_descendants (Some (concat per_child))) self h).
  assert (ext h (alter (set_descendants (Some (concat per_child))) self h)) as E.
  { apply ext_alter. intros ? _. by split_and!. }
  split_and!; [done | | done].
  apply wf_alter; [done | intros ? _; by split_and! |].
  intros o0 H0. assert (o0 = o) as -> by congruence.
  apply coherent_set_descendants. eapply coherent_ext; [exact E | by apply W].
Qed.

Lemma descendants_ends fuel : walk_ends fuel.
Proof.
  induction fuel as [|f IH]; intros self h o m owns W H K L Hfuel.
  { pose proof (height_positive m). lia. }
  cbn [descendants].
  rewrite (bind_returns _ _ _ _ _ (getobj_some _ _ _ H)).
  assert (exists r h',
             (let* cs := children top_modules (S f) self in
              let* per_child :=
                mapM (fun child =>
                        let* below := descendants top_modules f child in
                        ret (child :: below)) cs in
              let* _ := setobj self (set_descendants (Some (concat per_child))) in
              ret (concat per_child)) h = (r, h')
             /\ wf h' /\ ext h h' /\ ends r) as Hmiss.
  { destruct (children_module_spec top_modules (S f) self h o m owns W H K L ltac:(lia))
      as (r1 & h1 & R1 & W1 & E1 & Hr1).
    destruct (DocTree.children m (concat owns)) as [subs|e] eqn:Hch.
    2:{ subst r1. exists (Raises e), h1. rewrite (bind_raises _ _ _ _ _ R1).
        split_and!; [done | done | done |]. right. by eexists. }
    destruct Hr1 as (cs & -> & F1). rewrite (bind_returns _ _ _ _ _ R1).
    destruct (E1 self o H) as (o1 & H1 & (K1 & P1 & _)).
    destruct (walk_children_ends f self (DocTree.own_or_nil m) owns IH
                cs subs h1 W1 F1) as (r2 & h2 & R2 & W2 & E2 & Hr2).
    { intros sub Hin.
      pose proof (height_submodule m sub (children_subset _ _ _ _ Hch Hin)). lia. }
    { intros Hne. destruct F1 as [|c sub cs' subs' Hc _]; [done|].
      destruct Hc as (oc & Hoc & Kc & Pc).
      destruct (co_parent _ _ _ (W1 _ _ Hoc) self Pc) as (_ & _ & op & own & Hop & Hown).
      assert (op = o1) as -> by congruence.
      assert (DocTree.own_or_nil m = own) as ->.
      { unfold own_paths in Hown. rewrite K1, K in Hown.
        destruct (co_included _ _ _ (W1 _ _ H1) own Hown) as (m' & K' & Hm).
        assert (m' = m) as -> by congruence.
        unfold DocTree.own_or_nil. by rewrite Hm. }
      econstructor; [exact H1 | exact Hown |].
      rewrite P1. by eapply lineage_ext. }
    destruct Hr2 as [(parts & ->) | (e & ->)].
    2:{ exists (Raises e), h2. rewrite (bind_raises _ _ _ _ _ R2).
        split_and!; [done | done | eauto using ext_trans |]. right. by eexists. }
    rewrite (bind_returns _ _ _ _ _ R2).
    destruct (E2 self o1 H1) as (o2 & H2 & _).
    destruct (cache_descendants self parts h2 o2 W2 H2) as (h3 & R3 & W3 & E3).
    exists (Returns (concat parts)), h3.
    split_and!; [done | done | eauto using ext_trans |]. left. by eexists. }
  destruct (_descendants o) as [[|d ds]|]; [exact Hmiss | | exact Hmiss].
  exists (Returns (d :: ds)), h. split_and!; [done | done | apply ext_refl |].
  left. by eexists.
Qed.

(** X19: the walk of a project ends.  For a project doc-spec whose children
    are not listed yet, in a heap whose caches agree with the introspection
    data, [descendants] returns or raises, and does not run out of turns,
    as soon as it is given two turns more than twice the height of the
    tallest top-level module of the project. *)
Theorem project_descendants_end fuel self h o sp src dirs excluded :
  wf h -> h !! self = Some o -> obj_kind o = Project sp src dirs excluded ->
  _children o = None ->
  (forall t,
      In t (concat (map (fun dirname =>
                           top_modules (PosixPath.normpath (PosixPath.join src dirname))
                             excluded) dirs)) ->
      2 + 2 * Introspect.height t <= fuel) ->
  1 <= fuel ->
  exists r h',
    descendants top_modules fuel self h = (r, h')
    /\ wf h'
    /\ ((exists ds, r = Returns ds) \/ (exists e, r = Raises e)).
Proof.
  intros W H K Hc Hfuel H1. destruct fuel as [|f]; [lia|].
  cbn [descendants].
  rewrite (bind_returns _ _ _ _ _ (getobj_some _ _ _ H)).
  assert (exists r h',
             (let* cs := children top_modules (S f) self in
              let* per_child :=
                mapM (fun child =>
                        let* below := descendants top_modules f child in
                        ret (child :: below)) cs in
              let* _ := setobj self (set_descendants (Some (concat per_child))) in
              ret (concat per_child)) h = (r, h')
             /\ wf h' /\ ends r) as Hmiss.
  { destruct (children_project_spec top_modules (S f) self h o sp src dirs excluded W H K)
      as (cs & h1 & R1 & W1 & E1 & _ & F1).
    specialize (F1 Hc). rewrite (bind_returns _ _ _ _ _ R1).
    destruct (E1 self o H) as (o1 & Ho1 & (K1 & P1 & _)).
    destruct (walk_children_ends f self [] [] (descendants_ends f) cs _ h1 W1 F1)
      as (r2 & h2 & R2 & W2 & E2 & Hr2).
    { intros t Ht. specialize (Hfuel t Ht). cbn [length]. lia. }
    { intros _. econstructor; [exact Ho1 | by unfold own_paths; rewrite K1, K |].
      rewrite (project_has_no_parent _ _ _ _ _ _ _ W1 Ho1 ltac:(by rewrite K1)).
      constructor. }
    destruct Hr2 as [(parts & ->) | (e & ->)].
    2:{ exists (Raises e), h2. rewrite (bind_raises _ _ _ _ _ R2).
        split_and!; [done | done |]. right. by eexists. }
    rewrite (bind_returns _ _ _ _ _ R2).
    destruct (E2 self o1 Ho1) as (o2 & H2 & _).
    destruct (cache_descendants self parts h2 o2 W2 H2) as (h3 & R3 & W3 & E3).
    exists (Returns (concat parts)), h3. split_and!; [done | done |]. left. by eexists. }
  destruct (_descendants o) as [[|d ds]|]; [exact Hmiss | | exact Hmiss].
  exists (Returns (d :: ds)), h. split_and!; [done | done |]. left. by eexists.
Qed.

End Total.
Import SampleFacts ProjectFacts.

Lemma project_descendants_end_witness :
  exists r h',
    descendants Sample.top_modules 9 0 Sample.heap0 = (r, h')
    /\ wf h'
    /\ ((exists ds, r = Returns ds) \/ (exists e, r = Raises e)).
Proof.
  refine (project_descendants_end Sample.top_modules 9 0 Sample.heap0
            (new_obj (Project (Some "spruce-demo") "." ["."] []) "doc" None)
            (Some "spruce-demo") "." ["."] [] wf_heap0 eq_refl eq_refl eq_refl _ _).
  - intros t [<-|[<-|[]]]; vm_compute; lia.
  - lia.
Defined.

End WalkFacts.
